(** * pylas.point.packing: sub-field packing and unpacking

    A shallow embedding of [pylas/point/packing.py] and the properties of
    its six functions.

    The module manipulates numpy arrays.  The part of numpy it relies on is
    modelled in [Numpy]: fixed-width integer element types, the C-style
    conversion between them, the choice of the element type of
    [array OP python_int] (numpy 1.x, the version line pylas was written
    for: the first integer loop of the ufunc to which the array's type casts
    safely and which holds the scalar's value), and one-dimensional
    broadcasting.  Arrays are mutable Python objects: they live in a store
    ([heap]) and are passed by location, so that a view handed to [pack]
    and the buffer it was taken from are the same cell. *)

From Stdlib Require Import ZArith Lia.
From stdpp Require Import base option list gmap strings.

Local Open Scope Z_scope.

(** ** Python integers *)

(** [int.bit_length()]: the number of bits of the absolute value. *)
Definition bit_length (z : Z) : Z :=
  if decide (z = 0) then 0 else Z.log2 (Z.abs z) + 1.

(** packing.py, lines 6-9. *)
Definition least_significant_bit (val : Z) : Z :=
  bit_length (Z.land val (- val)) - 1.

(** ** The numpy fragment *)

Module Numpy.

Inductive width := W8 | W16 | W32 | W64.

Record dtype := Dtype { signed : bool; width_of : width }.

#[export] Instance width_eq_dec : EqDecision width.
Proof. solve_decision. Defined.
#[export] Instance dtype_eq_dec : EqDecision dtype.
Proof. solve_decision. Defined.

Definition int8 := Dtype true W8.
Definition uint8 := Dtype false W8.
Definition int16 := Dtype true W16.
Definition uint16 := Dtype false W16.
Definition int32 := Dtype true W32.
Definition uint32 := Dtype false W32.
Definition int64 := Dtype true W64.
Definition uint64 := Dtype false W64.

Definition bits (d : dtype) : Z :=
  match width_of d with W8 => 8 | W16 => 16 | W32 => 32 | W64 => 64 end.

Definition lo (d : dtype) : Z := if signed d then - 2 ^ (bits d - 1) else 0.
Definition hi (d : dtype) : Z :=
  if signed d then 2 ^ (bits d - 1) - 1 else 2 ^ bits d - 1.

Definition in_range (d : dtype) (z : Z) : bool :=
  (lo d <=? z) && (z <=? hi d).

(** Conversion of an integer to element type [d], as [astype] and
    assignment into an existing array do it: the value modulo [2 ^ bits],
    read back in the range of [d]. *)
Definition cast (d : dtype) (z : Z) : Z := (z - lo d) mod 2 ^ bits d + lo d.

(** [np.can_cast(d, t, 'safe')] on integer types: every value of [d] is a
    value of [t]. *)
Definition can_cast (d t : dtype) : bool :=
  (lo t <=? lo d) && (hi d <=? hi t).

(** The integer loops of a binary ufunc, in registration order. *)
Definition integer_loops : list dtype :=
  [int8; uint8; int16; uint16; int32; uint32; int64; uint64].

(** Element type of [array OP scalar] for a Python integer [scalar]: the
    first integer loop whose type holds every value of the array's type and
    the scalar (numpy 1.x, value-based casting).  [None] when no integer
    loop fits.  That happens in two ways: the scalar is a value of a 64-bit
    integer type and the pair promotes to a float, or the scalar lies
    outside [-2^63, 2^64) and numpy carries it as an object array; the
    array expressions below tell the two apart. *)
Definition result_type (d : dtype) (scalar : Z) : option dtype :=
  List.find (λ t, can_cast d t && in_range t scalar) integer_loops.

(** Element type of [array OP array]. *)
Definition promote_types (d1 d2 : dtype) : option dtype :=
  List.find (λ t, can_cast d1 t && can_cast d2 t) integer_loops.

Record ndarray := NDArray { dtype_of : dtype; data : list Z }.

(** Every element is a value of the array's element type. *)
Definition well_typed (a : ndarray) : Prop :=
  Forall (λ x, in_range (dtype_of a) x = true) (data a).

Definition astype (d : dtype) (a : ndarray) : ndarray :=
  NDArray d (cast d <$> data a).

Definition zeros (n : nat) (d : dtype) : ndarray := NDArray d (replicate n 0).

(** Shapes [(n,)] and [(m,)] broadcast together when they are equal or one
    of them is [(1,)]. *)
Definition broadcast_shape (n m : nat) : option nat :=
  if decide (n = m) then Some n
  else if decide (n = 1%nat) then Some m
  else if decide (m = 1%nat) then Some n
  else None.

(** A column stretched to shape [(n,)]: itself, or its single element
    repeated. *)
Definition broadcast_to (n : nat) (xs : list Z) : option (list Z) :=
  if decide (length xs = n) then Some xs
  else match xs with
       | [x] => Some (replicate n x)
       | _ => None
       end.

(** The element pairs a binary operation works on. *)
Definition broadcast (xs ys : list Z) : option (list (Z * Z)) :=
  n ← broadcast_shape (length xs) (length ys);
  xs' ← broadcast_to n xs;
  ys' ← broadcast_to n ys;
  Some (zip xs' ys').

(** [>>] of an integer loop: shift counts outside the width give the sign. *)
Definition right_shift (x n : Z) : Z :=
  if decide (0 <= n) then Z.shiftr x n else if decide (x < 0) then -1 else 0.

(** [<<] of the loop of type [d]: the low [bits d] bits of the product;
    shift counts outside the width give zero. *)
Definition left_shift (d : dtype) (x n : Z) : Z :=
  if decide (0 <= n) then cast d (Z.shiftl x n) else 0.

End Numpy.

(** ** Exceptions, the store and the monad of Python code *)

(** The text of an [OverflowError] raised by this module:
    ["value (v) is greater than allowed (max: m)"], possibly prefixed by
    ["Error repacking sub into dim: "]. *)
Inductive message :=
  | ValueGreater (value max_value : Z)
  | ErrorRepacking (sub_field dim_name : string) (e : message).

Inductive value_error :=
  | NegativeShiftCount                (* Python [int >> negative] *)
  | ZeroSizeReduction                 (* [.max()] of an empty array *)
  | NoField (field : string)          (* structured array without that field *)
  | CouldNotBroadcast.                (* shapes do not broadcast *)

Inductive exn :=
  | OverflowError (msg : message)
  | ValueError (why : value_error)
  | TypeError                         (* ufunc not supported for the input types *)
  | ObjectArithmetic                  (* an operand numpy carries as an object
                                         array; what the program does from
                                         there on is not described *)
  | InvalidReference.                 (* a location that denotes no array; no
                                         Python program can produce one *)

Inductive outcome (A : Type) :=
  | Ok (a : A)
  | Raise (e : exn).
Arguments Ok {A} a.
Arguments Raise {A} e.

Abbreviation loc := nat.
Abbreviation heap := (list Numpy.ndarray).

(** A computation reads and updates the store and returns or raises; the
    store survives an exception. *)
Definition M (A : Type) : Type := heap → outcome A * heap.

#[export] Instance M_ret : MRet M := λ A a h, (Ok a, h).
#[export] Instance M_bind : MBind M := λ A B f m h,
  match m h with
  | (Ok a, h') => f a h'
  | (Raise e, h') => (Raise e, h')
  end.

Definition raise {A} (e : exn) : M A := λ h, (Raise e, h).

Definition lift {A} (o : outcome A) : M A := λ h, (o, h).

(** [try: m except OverflowError as e: handler e]. *)
Definition try_except_OverflowError {A} (m : M A) (handler : message → M A) : M A :=
  λ h, match m h with
       | (Raise (OverflowError e), h') => handler e h'
       | r => r
       end.

Definition load (l : loc) : M Numpy.ndarray := λ h,
  match h !! l with
  | Some a => (Ok a, h)
  | None => (Raise InvalidReference, h)
  end.

(** A new array object. *)
Definition alloc (a : Numpy.ndarray) : M loc := λ h, (Ok (length h), h ++ [a]).

Fixpoint for_each {A} (l : list A) (body : A → M unit) : M unit :=
  match l with
  | [] => mret tt
  | x :: l => body x;; for_each l body
  end.

(** ** Array expressions *)

Import Numpy.

(** [array OP scalar] when no integer loop takes the pair.  A scalar that
    is a value of [int64] or [uint64] promotes with the array to [float64],
    for which the bitwise ufuncs have no loop: [TypeError].  A scalar
    outside [-2^63, 2^64) has no numpy integer type: numpy 1.x makes it an
    object array and computes on Python integers; integer columns do not
    describe that result, and the run stops here with [ObjectArithmetic]. *)
Definition no_integer_loop {A} (scalar : Z) : M A :=
  if decide (- 2 ^ 63 <= scalar < 2 ^ 64) then raise TypeError
  else raise ObjectArithmetic.

(** [a & scalar]. *)
Definition bitwise_and_scalar (a : ndarray) (scalar : Z) : M ndarray :=
  match result_type (dtype_of a) scalar with
  | Some r => mret (NDArray r ((λ x, Z.land x scalar) <$> data a))
  | None => no_integer_loop scalar
  end.

(** [a >> scalar]. *)
Definition right_shift_scalar (a : ndarray) (scalar : Z) : M ndarray :=
  match result_type (dtype_of a) scalar with
  | Some r => mret (NDArray r ((λ x, right_shift x scalar) <$> data a))
  | None => no_integer_loop scalar
  end.

(** [a << scalar]. *)
Definition left_shift_scalar (a : ndarray) (scalar : Z) : M ndarray :=
  match result_type (dtype_of a) scalar with
  | Some r => mret (NDArray r ((λ x, left_shift r x scalar) <$> data a))
  | None => no_integer_loop scalar
  end.

(** [a | b]. *)
Definition bitwise_or (a b : ndarray) : M ndarray :=
  match promote_types (dtype_of a) (dtype_of b) with
  | Some r =>
      match broadcast (data a) (data b) with
      | Some xys => mret (NDArray r ((λ xy, Z.lor xy.1 xy.2) <$> xys))
      | None => raise (ValueError CouldNotBroadcast)
      end
  | None => raise TypeError
  end.

(** The largest element of a column; an empty column has none. *)
Definition maximum (xs : list Z) : option Z :=
  match xs with
  | [] => None
  | x :: xs => Some (foldr Z.max x xs)
  end.

(** [a.max()]. *)
Definition amax (a : ndarray) : M Z :=
  match maximum (data a) with
  | Some m => mret m
  | None => raise (ValueError ZeroSizeReduction)
  end.

(** [dest[:] = src], and the assignment to a field of a structured array:
    the elements of [dest] are overwritten, its element type stays. *)
Definition assign (dest : loc) (src : ndarray) : M unit := λ h,
  match h !! dest with
  | Some d =>
      match broadcast_to (length (data d)) (data src) with
      | Some xs => (Ok tt, <[dest := NDArray (dtype_of d) (cast (dtype_of d) <$> xs)]> h)
      | None => (Raise (ValueError CouldNotBroadcast), h)
      end
  | None => (Raise InvalidReference, h)
  end.

(** Python's [a >> b] on integers. *)
Definition py_rshift (a b : Z) : M Z :=
  if decide (b < 0) then raise (ValueError NegativeShiftCount)
  else mret (Z.shiftr a b).

(** ** Structured arrays and point formats *)

(** A structured array of [shape] records: its field names in the order of
    its dtype, each with the location of the column that [a[name]] is a view
    of.  Field names of a numpy dtype are distinct. *)
Record recarray := RecArray { shape : nat; fields : list (string * loc) }.

Definition names (a : recarray) : list string := (fields a).*1.

Fixpoint assoc {A} (name : string) (l : list (string * A)) : option A :=
  match l with
  | [] => None
  | (n, x) :: l => if decide (n = name) then Some x else assoc name l
  end.

(** [a[name]]. *)
Definition getitem (a : recarray) (name : string) : M loc :=
  match assoc name (fields a) with
  | Some l => mret l
  | None => raise (ValueError (NoField name))
  end.

(** [a[name] = value]. *)
Definition setitem (a : recarray) (name : string) (value : loc) : M unit :=
  v ← load value;
  dest ← getitem a name;
  assign dest v.

Fixpoint zeros_fields (n : nat) (dt : list (string * dtype)) : M (list (string * loc)) :=
  match dt with
  | [] => mret []
  | (name, d) :: dt =>
      l ← alloc (zeros n d);
      fs ← zeros_fields n dt;
      mret ((name, l) :: fs)
  end.

(** [np.zeros_like(a, dtype)]: a new array of the shape of [a]. *)
Definition zeros_like (a : recarray) (dt : list (string * dtype)) : M recarray :=
  fs ← zeros_fields (shape a) dt;
  mret (RecArray (shape a) fs).

(** The two attributes of a sub-field and of a point format that
    packing.py reads. *)
Module SubField.
Record t := mk { name : string; mask : Z }.
End SubField.

Module PointFormat.
Record t := mk {
  composed_fields : gmap string (list SubField.t);
  dtype : list (string * Numpy.dtype)
}.
End PointFormat.

(** ** packing.py *)

(** Lines 12-27. *)
Definition unpack (source_array : loc) (mask : Z) (dtype : dtype) : M loc :=
  let lsb := least_significant_bit mask in
  src ← load source_array;
  masked ← bitwise_and_scalar src mask;
  shifted ← right_shift_scalar masked lsb;
  alloc (astype dtype shifted).

(** Lines 30-63.  The function returns [None] in the in-place mode and the
    new array otherwise. *)
Definition pack (array sub_field_array : loc) (mask : Z) (inplace : bool)
    : M (option loc) :=
  let lsb := least_significant_bit mask in
  max_value ← py_rshift mask lsb;
  sub ← load sub_field_array;
  m ← amax sub;
  if decide (m > max_value) then
    raise (OverflowError (ValueGreater m max_value))
  else if inplace then
    a ← load array;
    cleared ← bitwise_and_scalar a (Z.lnot mask);
    assign array cleared;;
    a ← load array;
    sub ← load sub_field_array;
    shifted ← left_shift_scalar sub lsb;
    bits ← bitwise_and_scalar shifted mask;
    merged ← bitwise_or a (astype (dtype_of a) bits);
    assign array merged;;
    mret None
  else
    a ← load array;
    a ← bitwise_and_scalar a (Z.lnot mask);
    sub ← load sub_field_array;
    shifted ← left_shift_scalar sub lsb;
    bits ← bitwise_and_scalar shifted mask;
    merged ← bitwise_or a (astype (dtype_of a) bits);
    r ← alloc merged;
    mret (Some r).

(** Lines 66-83. *)
Definition unpack_sub_fields (data : recarray) (point_format : PointFormat.t)
    : M recarray :=
  let composed_dims := PointFormat.composed_fields point_format in
  let dtype := PointFormat.dtype point_format in
  point_record ← zeros_like data dtype;
  for_each (names data) (λ dim_name,
    match composed_dims !! dim_name with
    | Some sub_fields =>
        for_each sub_fields (λ sub_field,
          source ← getitem data dim_name;
          v ← unpack source (SubField.mask sub_field) uint8;
          setitem point_record (SubField.name sub_field) v)
    | None =>
        v ← getitem data dim_name;
        setitem point_record dim_name v
    end);;
  mret point_record.

(** Lines 105-135. *)
Definition _repack_composed_dim (dim_name : string) (sub_fields : list SubField.t)
    (repacked_array structured_array : recarray) : M unit :=
  for_each sub_fields (λ sub_field,
    try_except_OverflowError
      (array ← getitem repacked_array dim_name;
       sub_field_array ← getitem structured_array (SubField.name sub_field);
       pack array sub_field_array (SubField.mask sub_field) true;;
       mret tt)
      (λ e, raise (OverflowError
                     (ErrorRepacking (SubField.name sub_field) dim_name e)))).

(** Lines 86-102. *)
Definition repack_sub_fields (structured_array : recarray)
    (point_format : PointFormat.t) : M recarray :=
  let dtype := PointFormat.dtype point_format in
  let composed_dims := PointFormat.composed_fields point_format in
  repacked_array ← zeros_like structured_array dtype;
  for_each (names repacked_array) (λ dim_name,
    match composed_dims !! dim_name with
    | Some sub_fields =>
        _repack_composed_dim dim_name sub_fields repacked_array structured_array
    | None =>
        v ← getitem structured_array dim_name;
        setitem repacked_array dim_name v
    end);;
  mret repacked_array.

(** ** Closed forms used in the statements *)

(** The number of value bits of an element type: its width, less the sign
    bit. *)
Definition value_bits (d : dtype) : Z :=
  if signed d then bits d - 1 else bits d.


(** [mask >> lsb], the largest value a sub-field may take (line 51). *)
Definition max_allowed (mask : Z) : Z :=
  Z.shiftr mask (least_significant_bit mask).

(** The element in-place [pack] leaves in a destination of type [d], from
    the old element [x] and the sub-field element [v] of a column of type
    [ds] (lines 59-60). *)
Definition packed_value (d ds : dtype) (mask x v : Z) : Z :=
  cast d (Z.lor (cast d (Z.land x (Z.lnot mask)))
                (cast d (Z.land (left_shift ds v (least_significant_bit mask)) mask))).

(** The element of the column the copy mode returns, [r] being the element
    type of [array & ~mask] (lines 62-63). *)
Definition copied_value (r ds : dtype) (mask x v : Z) : Z :=
  Z.lor (Z.land x (Z.lnot mask))
        (cast r (Z.land (left_shift ds v (least_significant_bit mask)) mask)).

(** The element [unpack] produces from [x] (line 27). *)
Definition unpacked_value (dtype : dtype) (mask x : Z) : Z :=
  cast dtype (Z.shiftr (Z.land x mask) (least_significant_bit mask)).

(** Computations that raise no [OverflowError]. *)
Definition no_overflow {A} (m : M A) : Prop :=
  ∀ h msg, (m h).1 ≠ Raise (OverflowError msg).

(** Every element of a sub-field column respects the maximum of its mask. *)
Definition in_range_of_mask (mask : Z) (s : ndarray) : Prop :=
  Forall (λ v, v <= max_allowed mask) (data s).

(** The store [h'] has every array of [h] and agrees with [h] on the
    locations below [n]. *)
Definition unchanged_below (n : nat) (h h' : heap) : Prop :=
  (length h <= length h')%nat ∧ ∀ l, (l < n)%nat → h' !! l = h !! l.

(** Computations that write to no location below [n]. *)
Definition frame {A} (n : nat) (m : M A) : Prop :=
  ∀ h, (n <= length h)%nat → unchanged_below n h (m h).2.

(** Every column of a structured array lies at or above [n]. *)
Definition columns_from (n : nat) (a : recarray) : Prop :=
  Forall (λ nl : string * loc, (n <= nl.2)%nat) (fields a).

(** ** Batches and formats of the round trip *)

(** The column of a field, read through the store. *)
Definition column (h : heap) (b : recarray) (name : string) : option ndarray :=
  l ← assoc name (fields b); h !! l.



(** The field names of the unpacked layout that [unpack_sub_fields] writes
    for the packed field names [dims]: the sub-fields of a composed field,
    a plain field itself. *)
Definition unpacked_fields (composed : gmap string (list SubField.t))
    (dims : list string) : list string :=
  dims ≫= λ dim,
    match composed !! dim with
    | Some sub_fields => SubField.name <$> sub_fields
    | None => [dim]
    end.

(** The set bits of the mask are consecutive. *)
Definition contiguous (mask : Z) : Prop :=
  ∃ k, 0 <= k ∧ max_allowed mask = 2 ^ k - 1.

Fixpoint disjoint_masks (sub_fields : list SubField.t) : Prop :=
  match sub_fields with
  | [] => True
  | sf :: rest =>
      Forall (λ sf', Z.land (SubField.mask sf) (SubField.mask sf') = 0) rest
      ∧ disjoint_masks rest
  end.

(** A composed field of element type [d] whose sub-fields partition its
    bits and fit the 8-bit columns [unpack_sub_fields] produces. *)
Record composed_field_ok (unpacked : list (string * dtype)) (d : dtype)
    (sub_fields : list SubField.t) : Prop := {
  cf_unsigned : signed d = false;
  cf_not_64 : width_of d ≠ W64;
  cf_sub_fields : ∀ sf, sf ∈ sub_fields →
    0 < SubField.mask sf <= hi d
    ∧ max_allowed (SubField.mask sf) <= 255
    ∧ contiguous (SubField.mask sf)
    ∧ ∃ e, (SubField.name sf, e) ∈ unpacked ∧ SubField.mask sf <= hi e;
  cf_disjoint : disjoint_masks sub_fields;
  cf_cover : ∀ n, 0 <= n < bits d →
    ∃ sf, sf ∈ sub_fields ∧ Z.testbit (SubField.mask sf) n = true
}.

(** A packed layout, an unpacked layout and the composed fields that relate
    them. *)
Record format_ok (composed : gmap string (list SubField.t))
    (packed unpacked : list (string * dtype)) : Prop := {
  fo_packed_names : NoDup packed.*1;
  fo_unpacked_names : NoDup unpacked.*1;
  fo_targets : NoDup (unpacked_fields composed packed.*1);
  fo_plain : ∀ f d, (f, d) ∈ packed → composed !! f = None → (f, d) ∈ unpacked;
  fo_composed : ∀ c d sub_fields,
    (c, d) ∈ packed → composed !! c = Some sub_fields →
    composed_field_ok unpacked d sub_fields;
  fo_exact : ∀ g, g ∈ unpacked.*1 → g ∈ unpacked_fields composed packed.*1
}.


(** ** The loops of [unpack_sub_fields] as one list of writes *)

(** One assignment to a field of the output of [unpack_sub_fields]: the
    field written, the field of the input read, and the mask when the
    former is a sub-field of the latter (lines 80 and 82). *)
Definition unpack_actions (composed : gmap string (list SubField.t))
    (dims : list string) : list (string * string * option Z) :=
  dims ≫= λ dim,
    match composed !! dim with
    | Some sub_fields =>
        (λ sf, (SubField.name sf, dim, Some (SubField.mask sf))) <$> sub_fields
    | None => [(dim, dim, None)]
    end.

Definition unpack_step (point_record data : recarray)
    (a : string * string * option Z) : M unit :=
  match a.2 with
  | Some mask =>
      source ← getitem data a.1.2;
      v ← unpack source mask uint8;
      setitem point_record a.1.1 v
  | None =>
      v ← getitem data a.1.2;
      setitem point_record a.1.1 v
  end.

(** The column such an assignment leaves in a field of element type [e]. *)
Definition unpacked_column (e : dtype) (mask : option Z) (src : ndarray)
    : ndarray :=
  NDArray e (cast e <$> match mask with
                        | Some m => unpacked_value uint8 m <$> data src
                        | None => data src
                        end).

(** The batch [np.zeros_like] returns in a store of [n0] arrays. *)
Definition new_batch (n : nat) (layout : list (string * dtype)) (n0 : nat)
    : recarray :=
  RecArray n (zip layout.*1 (seq n0 (length layout))).

(** The invariant of the loops of both record functions over the store
    [h'], for a call made in the store [h] that writes into a new batch of
    [n] records laid out as [layout]: the arrays of [h] are as they were,
    and the columns of the new batch are allocated with their element types
    and length. *)
Definition pass_inv (h : heap) (n : nat) (layout : list (string * dtype))
    (h' : heap) : Prop :=
  (∀ l c, h !! l = Some c → h' !! l = Some c)
  ∧ ∀ i g e, layout !! i = Some (g, e) →
      ∃ c, h' !! (length h + i)%nat = Some c
           ∧ dtype_of c = e ∧ length (data c) = n.

(** The location of the column of a field. *)
Definition field_loc (b : recarray) (g : string) : loc :=
  default 0%nat (assoc g (fields b)).





(** ** Example data *)

(** A one-element container column holding 0b10110101. *)
Definition container_0xB5 : heap := [NDArray uint8 [0xB5]].

(** The same column with a sub-field column holding 16. *)
Definition container_and_16 : heap := [NDArray uint8 [0xB5]; NDArray uint8 [16]].

(** A sub-field column in which three elements exceed 15. *)
Definition container_and_overflows : heap :=
  [NDArray uint8 [0; 0; 0; 0]; NDArray uint8 [3; 17; 20; 16]].

(** A destination column and two sub-field columns, for the masks 0x0F and
    0xF0. *)
Definition container_and_two_sub_fields : heap :=
  [NDArray uint8 [0xB5; 0x00; 0xFF];
   NDArray uint8 [3; 15; 0];
   NDArray uint8 [12; 1; 15]].

(** The composed fields of LAS point format 0 and their sub-fields. *)
Definition las_composed_fields : gmap string (list SubField.t) :=
  {[ "bit_fields" :=
       [SubField.mk "return_number" 0x07;
        SubField.mk "number_of_returns" 0x38;
        SubField.mk "scan_direction_flag" 0x40;
        SubField.mk "edge_of_flight_line" 0x80];
     "raw_classification" :=
       [SubField.mk "classification" 0x1F;
        SubField.mk "synthetic" 0x20;
        SubField.mk "key_point" 0x40;
        SubField.mk "withheld" 0x80] ]}.

Definition las_packed_dtype : list (string * dtype) :=
  [("X", int32); ("bit_fields", uint8); ("raw_classification", uint8)].

Definition las_unpacked_dtype : list (string * dtype) :=
  [("X", int32);
   ("return_number", uint8); ("number_of_returns", uint8);
   ("scan_direction_flag", uint8); ("edge_of_flight_line", uint8);
   ("classification", uint8); ("synthetic", uint8);
   ("key_point", uint8); ("withheld", uint8)].

Definition las_packed : PointFormat.t :=
  PointFormat.mk las_composed_fields las_packed_dtype.

Definition las_unpacked : PointFormat.t :=
  PointFormat.mk las_composed_fields las_unpacked_dtype.

(** Two records in the packed layout. *)
Definition packed_store : heap :=
  [NDArray int32 [-120; 4500]; NDArray uint8 [0xB5; 0x4A];
   NDArray uint8 [0x22; 0xFF]].

Definition packed_batch : recarray :=
  RecArray 2 [("X", 0%nat); ("bit_fields", 1%nat); ("raw_classification", 2%nat)].

(** A packed batch that has no [raw_classification] field. *)
Definition short_store : heap := [NDArray int32 [-120; 4500]; NDArray uint8 [0xB5; 0x4A]].

Definition short_batch : recarray :=
  RecArray 2 [("X", 0%nat); ("bit_fields", 1%nat)].

(** Two records in the unpacked layout; [number_of_returns] holds 9, above
    the 7 its mask allows. *)
Definition overflowing_store : heap :=
  [NDArray int32 [-120; 4500];
   NDArray uint8 [5; 2]; NDArray uint8 [6; 9];
   NDArray uint8 [0; 1]; NDArray uint8 [1; 0];
   NDArray uint8 [2; 31]; NDArray uint8 [1; 1];
   NDArray uint8 [0; 1]; NDArray uint8 [0; 1]].

Definition unpacked_batch : recarray :=
  RecArray 2
    [("X", 0%nat);
     ("return_number", 1%nat); ("number_of_returns", 2%nat);
     ("scan_direction_flag", 3%nat); ("edge_of_flight_line", 4%nat);
     ("classification", 5%nat); ("synthetic", 6%nat);
     ("key_point", 7%nat); ("withheld", 8%nat)].

(** Two records in the unpacked layout, every sub-field within its mask. *)
Definition unpacked_store : heap :=
  [NDArray int32 [-120; 4500];
   NDArray uint8 [5; 2]; NDArray uint8 [6; 1];
   NDArray uint8 [0; 1]; NDArray uint8 [1; 0];
   NDArray uint8 [2; 31]; NDArray uint8 [1; 1];
   NDArray uint8 [0; 1]; NDArray uint8 [0; 1]].







(** A packed batch of no record. *)
Definition empty_store : heap :=
  [NDArray int32 []; NDArray uint8 []; NDArray uint8 []].

Definition empty_batch : recarray :=
  RecArray 0 [("X", 0%nat); ("bit_fields", 1%nat); ("raw_classification", 2%nat)].

(** A destination column of 64-bit unsigned elements and a sub-field
    column. *)
Definition uint64_container : heap :=
  [NDArray uint64 [0xB5; 0x00]; NDArray uint8 [3; 4]].

(** A signed destination column and a sub-field column. *)
Definition int16_container : heap :=
  [NDArray int16 [-2; 0x1B5]; NDArray uint8 [3; 4]].

(** A destination column of three elements and a sub-field column of
    two. *)
Definition mismatched_columns : heap :=
  [NDArray uint8 [0xB5; 0xFF; 0x33]; NDArray uint8 [3; 4]].

(** A destination column of three elements and a sub-field column of a
    single element. *)
Definition container_and_single : heap :=
  [NDArray uint8 [0xB5; 0xFF; 0x33]; NDArray uint8 [6]].

(** Every array of the store [h] is still there in [h'], with the element
    type and the length it had. *)
Definition same_layout (h h' : heap) : Prop :=
  ∀ l c, h !! l = Some c →
    ∃ c', h' !! l = Some c' ∧ dtype_of c' = dtype_of c
          ∧ length (data c') = length (data c).

(** Computations that change neither the element type nor the length of an
    array, whether they return or raise. *)
Definition keeps_layout {A} (m : M A) : Prop :=
  ∀ h, same_layout h (m h).2.

(** A batch of no record in the unpacked layout. *)
Definition empty_unpacked_store : heap :=
  [NDArray int32 [];
   NDArray uint8 []; NDArray uint8 [];
   NDArray uint8 []; NDArray uint8 [];
   NDArray uint8 []; NDArray uint8 [];
   NDArray uint8 []; NDArray uint8 []].

Definition empty_unpacked_batch : recarray :=
  RecArray 0 (fields unpacked_batch).

(** The store and the output batch of [repack_sub_fields] on the overflowing
    example, when the loop starts: three zero columns after the nine of the
    input. *)
Definition repack_started_store : heap :=
  overflowing_store ++ [zeros 2 int32; zeros 2 uint8; zeros 2 uint8].

Definition repack_output : recarray :=
  RecArray 2 [("X", 9%nat); ("bit_fields", 10%nat); ("raw_classification", 11%nat)].

(** A destination column and a column of signed sub-field values, one of
    them negative. *)
Definition signed_values : heap :=
  [NDArray uint8 [0xB5; 0x00; 0xFF]; NDArray int16 [12; -1; 15]].

(** A 16-bit destination column and an 8-bit sub-field column meant for its
    high byte. *)
Definition wide_container : heap :=
  [NDArray uint16 [0x12B5; 0x00FF]; NDArray uint8 [3; 200]].

(** The unpacked batch with one more field, which no point format of the
    examples mentions. *)
Definition unpacked_batch_with_user_data : recarray :=
  RecArray 2 (("user_data", 0%nat) :: fields unpacked_batch).

(** * Properties *)

(** ** The bit position resolver *)

(** A nonzero integer is an odd number times a power of two. *)
Lemma odd_part (val : Z) :
  val ≠ 0 → ∃ k q, 0 <= k ∧ val = 2 ^ k * (2 * q + 1).
Proof.
  assert (∀ n : nat, ∀ v, Z.abs v < Z.of_nat n → v ≠ 0 →
            ∃ k q, 0 <= k ∧ v = 2 ^ k * (2 * q + 1)) as Hind.
  { induction n as [|n IH]; intros v Hv Hne; [lia|].
    destruct (Z.even v) eqn:Hev.
    - apply Z.even_spec in Hev as [w ->].
      destruct (IH w) as (k & q & Hk & ->); [lia..|].
      exists (k + 1), q. split; [lia|]. rewrite Z.pow_add_r by lia. lia.
    - assert (Z.odd v = true) as Hodd by (rewrite <- Z.negb_even, Hev; done).
      apply Z.odd_spec in Hodd as [q ->].
      exists 0, q. split; [lia|]. lia. }
  intros Hne. apply (Hind (Z.to_nat (Z.abs val + 1))); [lia|done].
Qed.

Lemma land_odd_opp (q : Z) : Z.land (2 * q + 1) (- (2 * q + 1)) = 1.
Proof.
  replace (- (2 * q + 1)) with (2 * Z.lnot q + 1) by (unfold Z.lnot; lia).
  apply Z.bits_inj'. intros n Hn.
  rewrite Z.land_spec.
  destruct (decide (n = 0)) as [->|Hn0].
  - rewrite !Z.testbit_odd_0. done.
  - replace n with (Z.succ (n - 1)) by lia.
    rewrite !Z.testbit_odd_succ by lia.
    rewrite Z.lnot_spec by lia.
    assert (Z.testbit 1 (Z.succ (n - 1)) = false) as ->
      by (apply (Z.pow2_bits_false 0); lia).
    by destruct (Z.testbit q (n - 1)).
Qed.

Lemma land_opp_pow2 (k q : Z) :
  0 <= k → Z.land (2 ^ k * (2 * q + 1)) (- (2 ^ k * (2 * q + 1))) = 2 ^ k.
Proof.
  intros Hk.
  replace (- (2 ^ k * (2 * q + 1))) with (2 ^ k * (- (2 * q + 1))) by lia.
  rewrite !(Z.mul_comm (2 ^ k)), <- !Z.shiftl_mul_pow2 by done.
  rewrite <- Z.shiftl_land, land_odd_opp, Z.shiftl_mul_pow2 by done. lia.
Qed.

Lemma least_significant_bit_pow2 (k q : Z) :
  0 <= k → least_significant_bit (2 ^ k * (2 * q + 1)) = k.
Proof.
  intros Hk. unfold least_significant_bit, bit_length.
  rewrite land_opp_pow2 by done.
  assert (0 < 2 ^ k) by (apply Z.pow_pos_nonneg; lia).
  rewrite decide_False by lia.
  rewrite Z.abs_eq, Z.log2_pow2 by lia. lia.
Qed.

Lemma testbit_pow2_odd (k q n : Z) :
  0 <= k → 0 <= n →
  Z.testbit (2 ^ k * (2 * q + 1)) n =
    if decide (n < k) then false
    else if decide (n = k) then true else Z.testbit q (n - k - 1).
Proof.
  intros Hk Hn.
  rewrite Z.mul_comm, <- Z.shiftl_mul_pow2 by done.
  rewrite Z.shiftl_spec by done.
  destruct (decide (n < k)); [by rewrite Z.testbit_neg_r by lia|].
  destruct (decide (n = k)) as [->|].
  - by rewrite Z.sub_diag, Z.testbit_odd_0.
  - rewrite <- (Z.testbit_odd_succ q (n - k - 1)) by lia. f_equal. lia.
Qed.

(** What [least_significant_bit] computes on a nonzero mask. *)
Lemma least_significant_bit_spec (mask : Z) :
  mask ≠ 0 →
  0 <= least_significant_bit mask
  ∧ Z.testbit mask (least_significant_bit mask) = true
  ∧ ∀ i, 0 <= i < least_significant_bit mask → Z.testbit mask i = false.
Proof.
  intros (k & q & Hk & ->)%odd_part.
  rewrite least_significant_bit_pow2 by done.
  split; [done|]. split.
  - rewrite testbit_pow2_odd by lia.
    rewrite decide_False, decide_True by lia. done.
  - intros i Hi. rewrite testbit_pow2_odd by lia.
    by rewrite decide_True by lia.
Qed.

Lemma least_significant_bit_nonneg (mask : Z) :
  mask ≠ 0 → 0 <= least_significant_bit mask.
Proof. intros H. by apply least_significant_bit_spec. Qed.

Lemma least_significant_bit_0 : least_significant_bit 0 = -1.
Proof. reflexivity. Qed.

(** ** Element types *)

Lemma bits_pos (d : dtype) : 0 < bits d.
Proof. by destruct d as [? []]. Qed.

Lemma range_size (d : dtype) : hi d = lo d + 2 ^ bits d - 1.
Proof. by destruct d as [[] []]. Qed.

Lemma pow2_bits_pos (d : dtype) : 0 < 2 ^ bits d.
Proof. apply Z.pow_pos_nonneg; [lia|]. pose proof (bits_pos d). lia. Qed.

Lemma in_range_spec (d : dtype) (z : Z) :
  in_range d z = true ↔ lo d <= z <= hi d.
Proof. unfold in_range. rewrite andb_true_iff, !Z.leb_le. done. Qed.

Lemma cast_in_range (d : dtype) (z : Z) : in_range d (cast d z) = true.
Proof.
  apply in_range_spec. unfold cast. rewrite range_size.
  pose proof (Z.mod_pos_bound (z - lo d) _ (pow2_bits_pos d)). lia.
Qed.

Lemma cast_id (d : dtype) (z : Z) : in_range d z = true → cast d z = z.
Proof.
  intros H%in_range_spec. rewrite range_size in H. unfold cast.
  rewrite Z.mod_small by lia. lia.
Qed.

Lemma cast_mod (d : dtype) (z : Z) : cast d z mod 2 ^ bits d = z mod 2 ^ bits d.
Proof.
  unfold cast. rewrite Zplus_mod_idemp_l. f_equal. lia.
Qed.

Lemma cast_testbit (d : dtype) (z n : Z) :
  0 <= n < bits d → Z.testbit (cast d z) n = Z.testbit z n.
Proof.
  intros Hn.
  rewrite <- (Z.mod_pow2_bits_low (cast d z) (bits d)) by lia.
  rewrite cast_mod. apply Z.mod_pow2_bits_low. lia.
Qed.

Lemma cast_ext (d : dtype) (z1 z2 : Z) :
  (∀ n, 0 <= n < bits d → Z.testbit z1 n = Z.testbit z2 n) →
  cast d z1 = cast d z2.
Proof.
  intros H. unfold cast. f_equal.
  rewrite (Zminus_mod z1), (Zminus_mod z2). do 2 f_equal.
  apply Z.bits_inj'. intros n Hn.
  pose proof (bits_pos d).
  destruct (decide (n < bits d)).
  - rewrite !Z.mod_pow2_bits_low by lia. apply H. lia.
  - rewrite !Z.mod_pow2_bits_high by lia. done.
Qed.

Lemma cast_cast (d : dtype) (z : Z) : cast d (cast d z) = cast d z.
Proof. apply cast_id, cast_in_range. Qed.

Ltac eval_can_cast :=
  repeat match goal with
  | |- context [can_cast ?a ?b] =>
      let v := eval vm_compute in (can_cast a b) in
      change (can_cast a b) with v
  end; cbn [andb].

(** An operation with a scalar that the array's element type holds stays
    in that type. *)
Lemma result_type_self (d : dtype) (z : Z) :
  in_range d z = true → result_type d z = Some d.
Proof.
  intros H. destruct d as [[] []];
    unfold result_type, integer_loops; cbn -[in_range can_cast]; eval_can_cast;
    fold int8 uint8 int16 uint16 int32 uint32 int64 uint64 in *; by rewrite H.
Qed.

Lemma result_type_Some (d r : dtype) (z : Z) :
  result_type d z = Some r → can_cast d r = true ∧ in_range r z = true.
Proof.
  intros [_ H]%List.find_some. by apply andb_true_iff in H.
Qed.

Lemma result_type_exists (d t : dtype) (z : Z) :
  can_cast d t = true → in_range t z = true → is_Some (result_type d z).
Proof.
  intros Hc Hz. unfold result_type.
  destruct (List.find _ _) eqn:Hf; [done|].
  assert (In t integer_loops) as Hin
    by (destruct t as [[] []]; unfold integer_loops; cbn; tauto).
  pose proof (List.find_none _ _ Hf t Hin) as Hn. cbn beta in Hn.
  by rewrite Hc, Hz in Hn.
Qed.

Lemma promote_types_same (d : dtype) : promote_types d d = Some d.
Proof. by destruct d as [[] []]. Qed.

Lemma can_cast_in_range (d t : dtype) (z : Z) :
  can_cast d t = true → in_range d z = true → in_range t z = true.
Proof.
  unfold can_cast. rewrite andb_true_iff, !Z.leb_le, !in_range_spec. lia.
Qed.

Lemma can_cast_bits (d t : dtype) : can_cast d t = true → bits d <= bits t.
Proof. destruct d as [[] []], t as [[] []]; vm_compute; congruence. Qed.

(** ** Computations *)

Lemma bind_Ok {A B} (m : M A) (k : A → M B) (h h1 : heap) (a : A) :
  m h = (Ok a, h1) → (m ≫= k) h = k a h1.
Proof. unfold mbind, M_bind. by intros ->. Qed.

Lemma bind_Raise {A B} (m : M A) (k : A → M B) (h h1 : heap) (e : exn) :
  m h = (Raise e, h1) → (m ≫= k) h = (Raise e, h1).
Proof. unfold mbind, M_bind. by intros ->. Qed.

Lemma bind_inv_Ok {A B} (m : M A) (k : A → M B) (h h2 : heap) (b : B) :
  (m ≫= k) h = (Ok b, h2) → ∃ a h1, m h = (Ok a, h1) ∧ k a h1 = (Ok b, h2).
Proof.
  unfold mbind, M_bind. destruct (m h) as [[a|e] h1]; [eauto|done].
Qed.

Lemma load_Ok (l : loc) (h : heap) (a : ndarray) :
  h !! l = Some a → load l h = (Ok a, h).
Proof. unfold load. by intros ->. Qed.

Lemma broadcast_to_same (n : nat) (xs : list Z) :
  length xs = n → broadcast_to n xs = Some xs.
Proof. intros H. unfold broadcast_to. by rewrite decide_True. Qed.

Lemma broadcast_same_length (xs ys : list Z) :
  length xs = length ys → broadcast xs ys = Some (zip xs ys).
Proof.
  intros H. unfold broadcast, broadcast_shape. rewrite decide_True by done.
  cbn. rewrite !broadcast_to_same by done. done.
Qed.

Lemma assign_Ok (l : loc) (src d : ndarray) (h : heap) :
  h !! l = Some d →
  length (data src) = length (data d) →
  assign l src h
  = (Ok tt, <[l := NDArray (dtype_of d) (cast (dtype_of d) <$> data src)]> h).
Proof.
  intros Hl Hlen. unfold assign. rewrite Hl, broadcast_to_same by done. done.
Qed.

Lemma bitwise_and_scalar_Ok (a : ndarray) (z : Z) (r : dtype) (h : heap) :
  result_type (dtype_of a) z = Some r →
  bitwise_and_scalar a z h = (Ok (NDArray r ((λ x, Z.land x z) <$> data a)), h).
Proof. unfold bitwise_and_scalar. by intros ->. Qed.

Lemma left_shift_scalar_Ok (a : ndarray) (z : Z) (r : dtype) (h : heap) :
  result_type (dtype_of a) z = Some r →
  left_shift_scalar a z h = (Ok (NDArray r ((λ x, left_shift r x z) <$> data a)), h).
Proof. unfold left_shift_scalar. by intros ->. Qed.

Lemma right_shift_scalar_Ok (a : ndarray) (z : Z) (r : dtype) (h : heap) :
  result_type (dtype_of a) z = Some r →
  right_shift_scalar a z h = (Ok (NDArray r ((λ x, right_shift x z) <$> data a)), h).
Proof. unfold right_shift_scalar. by intros ->. Qed.

Lemma bitwise_or_Ok (a b : ndarray) (h : heap) :
  dtype_of a = dtype_of b →
  length (data a) = length (data b) →
  bitwise_or a b h
  = (Ok (NDArray (dtype_of a) ((λ xy, Z.lor xy.1 xy.2) <$> zip (data a) (data b))), h).
Proof.
  intros Hd Hlen. unfold bitwise_or.
  rewrite <- Hd, promote_types_same, broadcast_same_length by done. done.
Qed.

(** ** Scalars that fit *)

Lemma hi_ge_127 (d : dtype) : 127 <= hi d.
Proof. destruct d as [[] []]; vm_compute; congruence. Qed.

Lemma lo_nonpos (d : dtype) : lo d <= 0.
Proof. destruct d as [[] []]; vm_compute; congruence. Qed.

Lemma lo_ge (d : dtype) : - 2 ^ 63 <= lo d.
Proof. destruct d as [[] []]; vm_compute; congruence. Qed.

Lemma hi_lt (d : dtype) : hi d < 2 ^ 64.
Proof. destruct d as [[] []]; vm_compute; congruence. Qed.

Lemma least_significant_bit_lt (mask n : Z) :
  0 < mask → mask < 2 ^ n → least_significant_bit mask < n.
Proof.
  intros Hpos Hlt.
  destruct (odd_part mask) as (k & q & Hk & ->); [lia|].
  rewrite least_significant_bit_pow2 by done.
  assert (0 < 2 ^ k) by (apply Z.pow_pos_nonneg; lia).
  assert (0 <= q) by nia.
  destruct (decide (k < n)); [done|].
  assert (2 ^ n <= 2 ^ k) by (apply Z.pow_le_mono_r; lia). nia.
Qed.

Lemma result_type_lsb (d : dtype) (mask : Z) :
  0 < mask → mask < 2 ^ 64 →
  result_type d (least_significant_bit mask) = Some d.
Proof.
  intros Hpos Hlt. apply result_type_self, in_range_spec.
  pose proof (least_significant_bit_nonneg mask ltac:(lia)).
  pose proof (least_significant_bit_lt mask 64 Hpos Hlt).
  pose proof (hi_ge_127 d). pose proof (lo_nonpos d). lia.
Qed.

Lemma result_type_mask_exists (d : dtype) (mask : Z) :
  0 < mask → mask < 2 ^ 63 → is_Some (result_type d mask).
Proof.
  intros Hpos Hlt.
  destruct (decide (d = uint64)) as [->|Hd].
  - apply (result_type_exists _ uint64); [done|].
    apply in_range_spec. change (lo uint64) with 0.
    change (hi uint64) with (2 ^ 64 - 1). lia.
  - apply (result_type_exists _ int64).
    + destruct d as [[] []]; done.
    + apply in_range_spec. change (lo int64) with (- 2 ^ 63).
      change (hi int64) with (2 ^ 63 - 1). lia.
Qed.

Lemma clearing_type_bounds_mask (d r : dtype) (mask : Z) :
  result_type d (Z.lnot mask) = Some r → mask < 2 ^ 63.
Proof.
  intros [_ H%in_range_spec]%result_type_Some.
  pose proof (lo_ge r). unfold Z.lnot in H. lia.
Qed.

(** ** The column maximum *)

Lemma foldr_max_elem (x : Z) (xs : list Z) : foldr Z.max x xs ∈ x :: xs.
Proof.
  induction xs as [|y ys IH]; cbn; [left|].
  destruct (Z.max_spec y (foldr Z.max x ys)) as [[_ ->]|[_ ->]].
  - apply elem_of_cons in IH as [->|IH]; [left|by do 2 right].
  - right; left.
Qed.

Lemma foldr_max_ge (x y : Z) (xs : list Z) : y ∈ x :: xs → y <= foldr Z.max x xs.
Proof.
  induction xs as [|z zs IH]; cbn.
  - intros ->%list_elem_of_singleton. lia.
  - rewrite !elem_of_cons. intros [->|[->|H]].
    + etrans; [apply IH; set_solver|]. lia.
    + lia.
    + etrans; [apply IH; set_solver|]. lia.
Qed.

Lemma maximum_Some (xs : list Z) (m : Z) :
  maximum xs = Some m → m ∈ xs ∧ ∀ x, x ∈ xs → x <= m.
Proof.
  destruct xs as [|x xs]; [done|]. intros [= <-].
  split; [apply foldr_max_elem|]. intros y. apply foldr_max_ge.
Qed.

Lemma maximum_is_Some (xs : list Z) : xs ≠ [] → is_Some (maximum xs).
Proof. by destruct xs. Qed.

(** ** The validation step of [pack] *)

(** [pack] up to the end of its validation (lines 50-57). *)
Lemma pack_validation (h : heap) (array sub_field_array : loc) (s : ndarray)
    (mask m : Z) (inplace : bool) :
  mask ≠ 0 →
  h !! sub_field_array = Some s →
  maximum (data s) = Some m →
  m > max_allowed mask →
  pack array sub_field_array mask inplace h
  = (Raise (OverflowError (ValueGreater m (max_allowed mask))), h).
Proof.
  intros Hmask Hs Hm Hgt. unfold pack, py_rshift.
  pose proof (least_significant_bit_nonneg mask Hmask).
  rewrite decide_False by lia.
  erewrite bind_Ok by done.
  erewrite bind_Ok by (by apply load_Ok).
  unfold amax. rewrite Hm.
  erewrite bind_Ok by done.
  by rewrite decide_True by done.
Qed.

Lemma no_overflow_ret {A} (a : A) : no_overflow (mret a).
Proof. by intros h msg. Qed.

Lemma no_overflow_bind {A B} (m : M A) (k : A → M B) :
  no_overflow m → (∀ a, no_overflow (k a)) → no_overflow (m ≫= k).
Proof.
  intros Hm Hk h msg. unfold mbind, M_bind.
  specialize (Hm h msg). destruct (m h) as [[a|e] h1]; [apply Hk|].
  cbn in *. congruence.
Qed.

Lemma no_overflow_load (l : loc) : no_overflow (load l).
Proof. intros h msg. unfold load. case_match; cbn; congruence. Qed.

Lemma no_overflow_alloc (a : ndarray) : no_overflow (alloc a).
Proof. by intros h msg. Qed.

Lemma no_overflow_assign (l : loc) (a : ndarray) : no_overflow (assign l a).
Proof. intros h msg. unfold assign. repeat case_match; cbn; congruence. Qed.

Lemma no_overflow_bitwise_and_scalar (a : ndarray) (z : Z) :
  no_overflow (bitwise_and_scalar a z).
Proof.
  intros h msg. unfold bitwise_and_scalar, no_integer_loop.
  repeat case_match; cbn; congruence.
Qed.

Lemma no_overflow_left_shift_scalar (a : ndarray) (z : Z) :
  no_overflow (left_shift_scalar a z).
Proof.
  intros h msg. unfold left_shift_scalar, no_integer_loop.
  repeat case_match; cbn; congruence.
Qed.

Lemma no_overflow_bitwise_or (a b : ndarray) : no_overflow (bitwise_or a b).
Proof. intros h msg. unfold bitwise_or. repeat case_match; cbn; congruence. Qed.

Create HintDb no_overflow.
#[export] Hint Resolve no_overflow_ret no_overflow_load no_overflow_alloc
  no_overflow_assign no_overflow_bitwise_and_scalar
  no_overflow_left_shift_scalar no_overflow_bitwise_or : no_overflow.

(** Past the validation, no statement of [pack] on integer columns raises
    [OverflowError]; a mask that makes [~mask] or [mask] an object operand
    ends the run with [ObjectArithmetic] instead. *)
Lemma pack_no_late_overflow (h : heap) (array sub_field_array : loc)
    (s : ndarray) (mask m : Z) (inplace : bool) (msg : message) :
  mask ≠ 0 →
  h !! sub_field_array = Some s →
  maximum (data s) = Some m →
  ¬ m > max_allowed mask →
  (pack array sub_field_array mask inplace h).1 ≠ Raise (OverflowError msg).
Proof.
  intros Hmask Hs Hm Hle. unfold pack, py_rshift.
  pose proof (least_significant_bit_nonneg mask Hmask).
  rewrite decide_False by lia.
  erewrite bind_Ok by done.
  erewrite bind_Ok by (by apply load_Ok).
  unfold amax. rewrite Hm.
  erewrite bind_Ok by done.
  rewrite decide_False by done.
  destruct inplace;
    repeat (apply no_overflow_bind; [auto with no_overflow|intros ?]);
    auto with no_overflow.
Qed.

(** ** C5 *)

(** C5 as stated fails on a zero mask: the expression
    [(val & -val).bit_length() - 1] has no failing case and evaluates to
    [-1]. *)
Lemma least_significant_bit_zero_returns :
  least_significant_bit 0 = -1
  ∧ (mret (least_significant_bit 0) : M Z) [] = (Ok (-1), []).
Proof. done. Qed.

(** C5, amended: on a nonzero mask [least_significant_bit] returns the index
    of the lowest set bit (that bit is set and every lower one is clear); on
    the zero mask it returns [-1]. *)
Theorem least_significant_bit_lowest_set_bit (mask : Z) :
  (mask ≠ 0 →
     0 <= least_significant_bit mask
     ∧ Z.testbit mask (least_significant_bit mask) = true
     ∧ ∀ i, 0 <= i < least_significant_bit mask → Z.testbit mask i = false)
  ∧ (mask = 0 → least_significant_bit mask = -1).
Proof.
  split; [apply least_significant_bit_spec|by intros ->].
Qed.

Lemma least_significant_bit_lowest_set_bit_witness :
  0xB0 ≠ 0
  ∧ (0 <= least_significant_bit 0xB0
     ∧ Z.testbit 0xB0 (least_significant_bit 0xB0) = true
     ∧ ∀ i, 0 <= i < least_significant_bit 0xB0 → Z.testbit 0xB0 i = false)
  ∧ least_significant_bit 0 = -1.
Proof.
  split; [lia|]. split.
  - apply (least_significant_bit_lowest_set_bit 0xB0). lia.
  - apply (least_significant_bit_lowest_set_bit 0). reflexivity.
Defined.

(** ** C1 *)



Example pack_16_under_0x0F (inplace : bool) :
  pack 0%nat 1%nat 0x0F inplace container_and_16
  = (Raise (OverflowError (ValueGreater 16 15)), container_and_16).
Proof. by destruct inplace. Qed.

(** ** C10 *)

(** C10 reads the validation of lines 50-57, and there the reported value is
    the column maximum.  The claim's equivalence also needs that nothing
    after line 57 raises [OverflowError].  That fails for a mask outside
    the range of [int64]: with the [int64] destination [[-1]], the
    sub-field column [[1]] and the mask [2^63] the validation passes (the
    maximum 1 does not exceed [mask >> 63 = 1]) and line 59 combines the
    destination with [~mask = -2^63 - 1], which numpy 1.x carries as an
    object array; assigning the result back into the [int64] destination
    raises numpy's own [OverflowError].  Integer columns do not describe
    that step: the run below stops where the object operand appears. *)
Example pack_int64_under_bit_63 :
  max_allowed (2 ^ 63) = 1
  ∧ maximum [1] = Some 1
  ∧ pack 0%nat 1%nat (2 ^ 63) true [NDArray int64 [-1]; NDArray uint8 [1]]
    = (Raise ObjectArithmetic, [NDArray int64 [-1]; NDArray uint8 [1]]).
Proof. split_and!; reflexivity. Qed.

(** X27: for a nonzero mask in the range of [int64] and a non-empty
    sub-field column whose element type is not [uint64], the value reported
    by the range-violation error of [pack] is the maximum of the whole
    sub-field column, and [pack] raises [OverflowError] exactly when this
    maximum exceeds [mask >> shift].  (numpy 1.x compares a [uint64]
    maximum with a Python integer as floats; such columns are left out.) *)
Theorem pack_reports_column_maximum (h : heap) (array sub_field_array : loc)
    (s : ndarray) (mask : Z) (inplace : bool) :
  mask ≠ 0 →
  - 2 ^ 63 <= mask < 2 ^ 63 →
  h !! sub_field_array = Some s →
  dtype_of s ≠ uint64 →
  data s ≠ [] →
  ∃ m,
    (m ∈ data s ∧ ∀ x, x ∈ data s → x <= m)
    ∧ ((∃ msg, (pack array sub_field_array mask inplace h).1
               = Raise (OverflowError msg))
       ↔ m > max_allowed mask)
    ∧ (∀ msg, (pack array sub_field_array mask inplace h).1
              = Raise (OverflowError msg) →
              msg = ValueGreater m (max_allowed mask)).
Proof.
  intros Hmask _ Hs _ Hne.
  destruct (maximum_is_Some (data s) Hne) as [m Hm].
  exists m. split; [by apply maximum_Some|].
  destruct (decide (m > max_allowed mask)) as [Hgt|Hle].
  - rewrite (pack_validation h array sub_field_array s mask m inplace) by done.
    cbn. split; [|congruence]. split; [done|eauto].
  - pose proof (λ msg, pack_no_late_overflow h array sub_field_array s mask m
                         inplace msg Hmask Hs Hm Hle) as Hno.
    split; [|by intros msg ?%Hno]. split; [|done]. by intros [msg ?%Hno].
Qed.

(** Three elements exceed 15; the first in index order is 17, the one
    reported is 20. *)
Lemma pack_reports_column_maximum_witness :
  0x0F ≠ 0
  ∧ - 2 ^ 63 <= 0x0F < 2 ^ 63
  ∧ container_and_overflows !! 1%nat = Some (NDArray uint8 [3; 17; 20; 16])
  ∧ uint8 ≠ uint64
  ∧ [3; 17; 20; 16] ≠ []
  ∧ ∃ m,
      (m ∈ [3; 17; 20; 16] ∧ ∀ x, x ∈ [3; 17; 20; 16] → x <= m)
      ∧ ((∃ msg, (pack 0%nat 1%nat 0x0F true container_and_overflows).1
                 = Raise (OverflowError msg))
         ↔ m > max_allowed 0x0F)
      ∧ (∀ msg, (pack 0%nat 1%nat 0x0F true container_and_overflows).1
                = Raise (OverflowError msg) →
                msg = ValueGreater m (max_allowed 0x0F)).
Proof.
  assert (0x0F ≠ 0) as H1 by lia.
  assert (container_and_overflows !! 1%nat
          = Some (NDArray uint8 [3; 17; 20; 16])) as H2 by reflexivity.
  assert ([3; 17; 20; 16] ≠ []) as H3 by discriminate.
  assert (- 2 ^ 63 <= 0x0F < 2 ^ 63) as H4 by lia.
  assert (uint8 ≠ uint64) as H5 by discriminate.
  refine (conj H1 (conj H4 (conj H2 (conj H5 (conj H3 _))))).
  exact (pack_reports_column_maximum container_and_overflows 0%nat 1%nat _
           0x0F true H1 H4 H2 H5 H3).
Defined.

Example pack_reports_20 (inplace : bool) :
  pack 0%nat 1%nat 0x0F inplace container_and_overflows
  = (Raise (OverflowError (ValueGreater 20 15)), container_and_overflows).
Proof. by destruct inplace. Qed.

(** ** What a successful [pack] computes *)

(** [pack] past a successful validation: lines 58-63. *)
Lemma pack_prologue (h : heap) (array sub_field_array : loc) (s : ndarray)
    (mask m : Z) (inplace : bool) :
  h !! sub_field_array = Some s →
  0 < mask →
  maximum (data s) = Some m →
  m <= max_allowed mask →
  pack array sub_field_array mask inplace h
  = (if inplace then
       a ← load array;
       cleared ← bitwise_and_scalar a (Z.lnot mask);
       assign array cleared;;
       a ← load array;
       sub ← load sub_field_array;
       shifted ← left_shift_scalar sub (least_significant_bit mask);
       bits ← bitwise_and_scalar shifted mask;
       merged ← bitwise_or a (astype (dtype_of a) bits);
       assign array merged;;
       mret None
     else
       a ← load array;
       a ← bitwise_and_scalar a (Z.lnot mask);
       sub ← load sub_field_array;
       shifted ← left_shift_scalar sub (least_significant_bit mask);
       bits ← bitwise_and_scalar shifted mask;
       merged ← bitwise_or a (astype (dtype_of a) bits);
       r ← alloc merged;
       mret (Some r)) h.
Proof.
  intros Hsub Hmask Hmax Hle. unfold pack, py_rshift.
  pose proof (least_significant_bit_nonneg mask ltac:(lia)).
  rewrite decide_False by lia.
  erewrite bind_Ok by done.
  erewrite bind_Ok by (by apply load_Ok).
  unfold amax. rewrite Hmax.
  erewrite bind_Ok by done.
  rewrite decide_False by (unfold max_allowed in Hle; lia).
  done.
Qed.

Section pack_success.
Context (h : heap) (array sub_field_array : loc) (a s : ndarray).
Context (mask m : Z) (r : dtype).
Hypothesis Harray : h !! array = Some a.
Hypothesis Hsub : h !! sub_field_array = Some s.
Hypothesis Hlen : length (data s) = length (data a).
Hypothesis Hmask : 0 < mask.
Hypothesis Hmax : maximum (data s) = Some m.
Hypothesis Hle : m <= max_allowed mask.
Hypothesis Hr : result_type (dtype_of a) (Z.lnot mask) = Some r.

Lemma pack_inplace_Ok :
  array ≠ sub_field_array →
  pack array sub_field_array mask true h
  = (Ok None,
     <[array := NDArray (dtype_of a)
                  (zip_with (packed_value (dtype_of a) (dtype_of s) mask)
                            (data a) (data s))]> h).
Proof.
  intros Hne.
  pose proof (clearing_type_bounds_mask _ _ _ Hr) as Hlt.
  destruct (result_type_mask_exists (dtype_of s) mask) as [r3 Hr3]; [lia..|].
  rewrite (pack_prologue h array sub_field_array s mask m) by done.
  erewrite bind_Ok by (by apply load_Ok).
  erewrite bind_Ok by (by apply bitwise_and_scalar_Ok).
  erewrite bind_Ok by (apply (assign_Ok _ _ a); [done|cbn; by rewrite length_fmap]).
  erewrite bind_Ok by
    (apply load_Ok, list_lookup_insert_eq; by eapply lookup_lt_Some).
  erewrite bind_Ok by
    (apply load_Ok; rewrite list_lookup_insert_ne by done; done).
  erewrite bind_Ok by
    (apply left_shift_scalar_Ok, result_type_lsb; lia).
  erewrite bind_Ok by (by apply bitwise_and_scalar_Ok).
  erewrite bind_Ok by
    (apply bitwise_or_Ok; [done|cbn; by rewrite !length_fmap]).
  erewrite bind_Ok.
  2:{ eapply assign_Ok.
      - apply list_lookup_insert_eq. by eapply lookup_lt_Some.
      - cbn. rewrite !length_fmap, length_zip, !length_fmap. lia. }
  cbn. rewrite list_insert_insert_eq. do 3 f_equal.
  clear. generalize (data s). induction (data a) as [|x xs IH];
    intros [|v vs]; cbn; [done..|]. f_equal. apply IH.
Qed.

Lemma pack_copy_Ok :
  pack array sub_field_array mask false h
  = (Ok (Some (length h)),
     h ++ [NDArray r (zip_with (copied_value r (dtype_of s) mask)
                               (data a) (data s))]).
Proof.
  pose proof (clearing_type_bounds_mask _ _ _ Hr) as Hlt.
  destruct (result_type_mask_exists (dtype_of s) mask) as [r3 Hr3]; [lia..|].
  rewrite (pack_prologue h array sub_field_array s mask m) by done.
  erewrite bind_Ok by (by apply load_Ok).
  erewrite bind_Ok by (by apply bitwise_and_scalar_Ok).
  erewrite bind_Ok by (by apply load_Ok).
  erewrite bind_Ok by
    (apply left_shift_scalar_Ok, result_type_lsb; lia).
  erewrite bind_Ok by (by apply bitwise_and_scalar_Ok).
  erewrite bind_Ok by
    (apply bitwise_or_Ok; [done|cbn; by rewrite !length_fmap]).
  unfold mbind, M_bind, alloc, mret, M_ret. cbn. do 4 f_equal.
  clear. generalize (data s). induction (data a) as [|x xs IH];
    intros [|v vs]; cbn; [done..|]. f_equal. apply IH.
Qed.
End pack_success.

(** ** C3 *)

Lemma least_significant_bit_lt_abs (mask n : Z) :
  mask ≠ 0 → Z.abs mask <= 2 ^ n → 0 <= n → least_significant_bit mask <= n.
Proof.
  intros Hne Hlt Hn.
  destruct (odd_part mask Hne) as (k & q & Hk & ->).
  rewrite least_significant_bit_pow2 by done.
  assert (0 < 2 ^ k) by (apply Z.pow_pos_nonneg; lia).
  destruct (decide (k <= n)); [done|].
  assert (2 ^ n < 2 ^ k) by (apply Z.pow_lt_mono_r; lia).
  rewrite Z.abs_mul, (Z.abs_eq (2 ^ k)) in Hlt by lia.
  assert (1 <= Z.abs (2 * q + 1)) by lia. nia.
Qed.

Lemma unpack_Ok (h : heap) (source_array : loc) (src : ndarray) (mask : Z)
    (dtype : dtype) :
  h !! source_array = Some src →
  mask ≠ 0 →
  is_Some (result_type (dtype_of src) mask) →
  unpack source_array mask dtype h
  = (Ok (length h), h ++ [NDArray dtype (unpacked_value dtype mask <$> data src)]).
Proof.
  intros Hsrc Hmask [r Hr]. unfold unpack.
  erewrite bind_Ok by (by apply load_Ok).
  erewrite bind_Ok by (by apply bitwise_and_scalar_Ok).
  pose proof (least_significant_bit_nonneg mask Hmask) as Hlsb.
  erewrite bind_Ok.
  2:{ apply right_shift_scalar_Ok. cbn. apply result_type_self.
      apply result_type_Some in Hr as [_ Hin%in_range_spec].
      pose proof (lo_ge r). pose proof (hi_lt r).
      pose proof (least_significant_bit_lt_abs mask 64 Hmask ltac:(lia) ltac:(lia)).
      apply in_range_spec.
      pose proof (hi_ge_127 r). pose proof (lo_nonpos r). lia. }
  unfold alloc, astype. cbn. do 4 f_equal.
  rewrite <- !list_fmap_compose. apply list_fmap_ext. intros i x _. cbn.
  unfold unpacked_value, right_shift. by rewrite decide_True.
Qed.

(** C3 as stated fails: [unpack] does not return for every nonzero mask.
    Under the mask [2^63], a value of [uint64] only, a column of [int64]
    elements makes [source_array & mask] a pair that numpy promotes to
    [float64], for which [bitwise_and] has no loop: line 25 raises
    [TypeError] and no column is returned. *)
Lemma unpack_int64_under_bit_63_raises :
  2 ^ 63 ≠ 0
  ∧ unpack 0%nat (2 ^ 63) uint8 [NDArray int64 [0xB5]]
    = (Raise TypeError, [NDArray int64 [0xB5]])
  ∧ ¬ ∃ result h',
        unpack 0%nat (2 ^ 63) uint8 [NDArray int64 [0xB5]] = (Ok result, h').
Proof.
  split_and!; [lia|reflexivity|].
  intros (result & h' & Hrun). vm_compute in Hrun. discriminate.
Qed.

(** C3, amended: for a source column, a nonzero mask that shares an integer
    type of at most 64 bits with the source's element type (some numpy
    integer type holds every value of the source's type and the mask, as
    whenever the mask is a value of the source's type), and any target
    type, [unpack] returns a new column of the target type and of the
    length of the source whose element [i] is [(source[i] & mask) >> shift]
    converted to the target type; no array that existed before the call is
    changed, the source included. *)
Theorem unpack_elementwise (h : heap) (source_array : loc) (src : ndarray)
    (mask : Z) (dtype : dtype) :
  h !! source_array = Some src →
  mask ≠ 0 →
  is_Some (result_type (dtype_of src) mask) →
  ∃ result h' column,
    unpack source_array mask dtype h = (Ok result, h')
    ∧ h !! result = None
    ∧ (∀ l x, h !! l = Some x → h' !! l = Some x)
    ∧ h' !! result = Some column
    ∧ dtype_of column = dtype
    ∧ length (data column) = length (data src)
    ∧ ∀ i x, data src !! i = Some x →
        data column !! i
        = Some (cast dtype (Z.shiftr (Z.land x mask) (least_significant_bit mask))).
Proof.
  intros Hsrc Hmask Hr.
  eexists _, _, _. split; [by apply unpack_Ok|].
  split_and!.
  - by apply lookup_ge_None.
  - intros l x Hl. by apply lookup_app_l_Some.
  - by rewrite lookup_app_r, Nat.sub_diag.
  - done.
  - cbn. by rewrite length_fmap.
  - intros i x Hx. cbn. by rewrite list_lookup_fmap, Hx.
Qed.

(** The two masks of the claim applied to 0b10110101, with the default
    target type. *)
Lemma unpack_elementwise_witness :
  container_0xB5 !! 0%nat = Some (NDArray uint8 [0xB5])
  ∧ 0x0F ≠ 0 ∧ 0xF0 ≠ 0
  ∧ is_Some (result_type uint8 0x0F) ∧ is_Some (result_type uint8 0xF0)
  ∧ (∃ result h' column,
       unpack 0%nat 0x0F uint8 container_0xB5 = (Ok result, h')
       ∧ container_0xB5 !! result = None
       ∧ (∀ l x, container_0xB5 !! l = Some x → h' !! l = Some x)
       ∧ h' !! result = Some column
       ∧ dtype_of column = uint8
       ∧ length (data column) = 1%nat
       ∧ ∀ i x, [0xB5] !! i = Some x →
           data column !! i
           = Some (cast uint8 (Z.shiftr (Z.land x 0x0F) (least_significant_bit 0x0F))))
  ∧ (∃ result h' column,
       unpack 0%nat 0xF0 uint8 container_0xB5 = (Ok result, h')
       ∧ container_0xB5 !! result = None
       ∧ (∀ l x, container_0xB5 !! l = Some x → h' !! l = Some x)
       ∧ h' !! result = Some column
       ∧ dtype_of column = uint8
       ∧ length (data column) = 1%nat
       ∧ ∀ i x, [0xB5] !! i = Some x →
           data column !! i
           = Some (cast uint8 (Z.shiftr (Z.land x 0xF0) (least_significant_bit 0xF0)))).
Proof.
  assert (container_0xB5 !! 0%nat = Some (NDArray uint8 [0xB5])) as H1
    by reflexivity.
  assert (0x0F ≠ 0) as H2 by lia.
  assert (0xF0 ≠ 0) as H3 by lia.
  assert (is_Some (result_type uint8 0x0F)) as H4 by (eexists; reflexivity).
  assert (is_Some (result_type uint8 0xF0)) as H5 by (eexists; reflexivity).
  split_and!; [exact H1|exact H2|exact H3|exact H4|exact H5|..].
  - exact (unpack_elementwise container_0xB5 0%nat _ 0x0F uint8 H1 H2 H4).
  - exact (unpack_elementwise container_0xB5 0%nat _ 0xF0 uint8 H1 H3 H5).
Defined.

Example unpack_0xB5 :
  unpack 0%nat 0x0F uint8 container_0xB5
  = (Ok 1%nat, container_0xB5 ++ [NDArray uint8 [5]])
  ∧ unpack 0%nat 0xF0 uint8 container_0xB5
    = (Ok 1%nat, container_0xB5 ++ [NDArray uint8 [11]]).
Proof. done. Qed.

(** ** C8 *)

Lemma packed_value_testbit (d ds : dtype) (mask x v n : Z) :
  0 <= n < bits d →
  Z.testbit (packed_value d ds mask x v) n
  = (Z.testbit x n && negb (Z.testbit mask n))
    || (Z.testbit (left_shift ds v (least_significant_bit mask)) n
        && Z.testbit mask n).
Proof.
  intros Hn. unfold packed_value.
  rewrite cast_testbit, Z.lor_spec, !cast_testbit, !Z.land_spec by done.
  by rewrite Z.lnot_spec by lia.
Qed.

Lemma packed_value_comm (d da db : dtype) (A B x va vb : Z) :
  Z.land A B = 0 →
  packed_value d db B (packed_value d da A x va) vb
  = packed_value d da A (packed_value d db B x vb) va.
Proof.
  intros Hdisj.
  assert (∀ n, Z.testbit A n && Z.testbit B n = false) as Hbits
    by (intros n; by rewrite <- Z.land_spec, Hdisj, Z.bits_0).
  unfold packed_value at 1 3. apply cast_ext. intros n Hn.
  rewrite !Z.lor_spec, !cast_testbit, !Z.land_spec by done.
  rewrite !packed_value_testbit by done.
  rewrite !Z.lnot_spec by lia.
  specialize (Hbits n).
  destruct (Z.testbit A n), (Z.testbit B n), (Z.testbit x n); try done;
    cbn; by rewrite ?andb_false_r, ?andb_true_r, ?orb_false_r.
Qed.

Lemma in_range_of_mask_maximum (mask : Z) (s : ndarray) :
  data s ≠ [] → in_range_of_mask mask s →
  ∃ m, maximum (data s) = Some m ∧ m <= max_allowed mask.
Proof.
  intros Hne Hall. destruct (maximum_is_Some _ Hne) as [m Hm].
  exists m. split; [done|].
  apply maximum_Some in Hm as [Hin _].
  unfold in_range_of_mask in Hall. rewrite Forall_forall in Hall. by apply Hall.
Qed.

(** C8: two sub-field columns packed in place into one container column
    under disjoint masks give the same container, and the same store, in
    either order. *)
Theorem pack_disjoint_masks_commute (h : heap) (array sub_a sub_b : loc)
    (a sa sb : ndarray) (A B : Z) :
  h !! array = Some a → h !! sub_a = Some sa → h !! sub_b = Some sb →
  array ≠ sub_a → array ≠ sub_b →
  data a ≠ [] →
  length (data sa) = length (data a) → length (data sb) = length (data a) →
  0 < A → 0 < B → Z.land A B = 0 →
  in_range_of_mask A sa → in_range_of_mask B sb →
  is_Some (result_type (dtype_of a) (Z.lnot A)) →
  is_Some (result_type (dtype_of a) (Z.lnot B)) →
  ∃ container,
    (pack array sub_a A true;; pack array sub_b B true) h
    = (Ok None, <[array := container]> h)
    ∧ (pack array sub_b B true;; pack array sub_a A true) h
      = (Ok None, <[array := container]> h).
Proof.
  intros Ha Hsa Hsb Hna Hnb Hne Hla Hlb HA HB Hdisj HinA HinB [rA HrA] [rB HrB].
  destruct (in_range_of_mask_maximum A sa) as (ma & Hma & HleA);
    [destruct (data sa), (data a); done|done|].
  destruct (in_range_of_mask_maximum B sb) as (mb & Hmb & HleB);
    [destruct (data sb), (data a); done|done|].
  assert (array < length h)%nat as Hlt by (by eapply lookup_lt_Some).
  eexists. split.
  - erewrite bind_Ok by (by eapply pack_inplace_Ok).
    erewrite pack_inplace_Ok; [|by apply list_lookup_insert_eq
      |by rewrite list_lookup_insert_ne|cbn; rewrite length_zip_with; lia
      |done..].
    rewrite list_insert_insert_eq. cbn. reflexivity.
  - erewrite bind_Ok by (by eapply pack_inplace_Ok).
    erewrite pack_inplace_Ok; [|by apply list_lookup_insert_eq
      |by rewrite list_lookup_insert_ne|cbn; rewrite length_zip_with; lia
      |done..].
    rewrite list_insert_insert_eq. cbn. do 3 f_equal.
    clear -Hdisj. generalize (data sa) (data sb).
    induction (data a) as [|x xs IH]; intros [|va vas] [|vb vbs]; cbn;
      try done.
    f_equal; [symmetry; by apply packed_value_comm|apply IH].
Qed.

Lemma pack_disjoint_masks_commute_witness :
  ∃ container,
    (pack 0%nat 1%nat 0x0F true;; pack 0%nat 2%nat 0xF0 true)
      container_and_two_sub_fields
    = (Ok None, <[0%nat := container]> container_and_two_sub_fields)
    ∧ (pack 0%nat 2%nat 0xF0 true;; pack 0%nat 1%nat 0x0F true)
        container_and_two_sub_fields
      = (Ok None, <[0%nat := container]> container_and_two_sub_fields).
Proof.
  apply (pack_disjoint_masks_commute container_and_two_sub_fields 0%nat 1%nat
           2%nat (NDArray uint8 [0xB5; 0x00; 0xFF]) (NDArray uint8 [3; 15; 0])
           (NDArray uint8 [12; 1; 15]) 0x0F 0xF0);
    try reflexivity; try lia; try discriminate.
  - unfold in_range_of_mask. cbn. repeat constructor; vm_compute; discriminate.
  - unfold in_range_of_mask. cbn. repeat constructor; vm_compute; discriminate.
  - eexists; reflexivity.
  - eexists; reflexivity.
Defined.

Example pack_0x0F_then_0xF0 :
  (pack 0%nat 1%nat 0x0F true;; pack 0%nat 2%nat 0xF0 true)
    container_and_two_sub_fields
  = (Ok None, <[0%nat := NDArray uint8 [0xC3; 0x1F; 0xF0]]>
                container_and_two_sub_fields).
Proof. reflexivity. Qed.


(** ** Ranges as bit patterns *)

Lemma nonneg_bounded_bits (z k : Z) :
  0 <= k → (0 <= z < 2 ^ k ↔ ∀ n, k <= n → Z.testbit z n = false).
Proof.
  intros Hk. split.
  - intros Hz n Hn. rewrite <- (Z.mod_small z (2 ^ k)) by done.
    apply Z.mod_pow2_bits_high. lia.
  - intros Hbits. assert (z = z mod 2 ^ k) as ->.
    { apply Z.bits_inj'. intros n Hn. destruct (decide (n < k)).
      - by rewrite Z.mod_pow2_bits_low by lia.
      - rewrite Z.mod_pow2_bits_high by lia. apply Hbits. lia. }
    apply Z.mod_pos_bound, Z.pow_pos_nonneg; lia.
Qed.

Lemma neg_bounded_bits (z k : Z) :
  0 <= k → (- 2 ^ k <= z < 0 ↔ ∀ n, k <= n → Z.testbit z n = true).
Proof.
  intros Hk.
  assert (- 2 ^ k <= z < 0 ↔ 0 <= Z.lnot z < 2 ^ k) as ->
    by (unfold Z.lnot; lia).
  rewrite nonneg_bounded_bits by done.
  split; intros H n Hn; specialize (H n Hn);
    rewrite Z.lnot_spec in * by lia; by destruct (Z.testbit z n).
Qed.

Lemma lo_value_bits (d : dtype) :
  lo d = if signed d then - 2 ^ value_bits d else 0.
Proof. by destruct d as [[] []]. Qed.

Lemma hi_value_bits (d : dtype) : hi d = 2 ^ value_bits d - 1.
Proof. by destruct d as [[] []]. Qed.

Lemma value_bits_nonneg (d : dtype) : 0 <= value_bits d.
Proof. destruct d as [[] []]; vm_compute; congruence. Qed.

Lemma value_bits_le (d : dtype) : value_bits d <= bits d.
Proof. destruct d as [[] []]; vm_compute; congruence. Qed.

Lemma in_range_bits (d : dtype) (z : Z) :
  in_range d z = true ↔
    (∀ n, value_bits d <= n → Z.testbit z n = false)
    ∨ (signed d = true ∧ ∀ n, value_bits d <= n → Z.testbit z n = true).
Proof.
  pose proof (value_bits_nonneg d) as Hk.
  rewrite in_range_spec, lo_value_bits, hi_value_bits.
  rewrite <- nonneg_bounded_bits, <- neg_bounded_bits by done.
  assert (0 < 2 ^ value_bits d) by (apply Z.pow_pos_nonneg; lia).
  destruct (signed d); split; lia.
Qed.

(** A positive mask within the range of [d] has no bit at or above the
    value bits of [d]. *)
Lemma mask_bits_high (d : dtype) (mask n : Z) :
  0 < mask <= hi d → value_bits d <= n → Z.testbit mask n = false.
Proof.
  intros Hm Hn. rewrite hi_value_bits in Hm.
  pose proof (value_bits_nonneg d).
  by apply (nonneg_bounded_bits mask (value_bits d)); [|lia|].
Qed.

(** ** C7 *)

(** When the cleared destination and the shifted sub-field both fit the
    destination's type, the element the copy mode returns is the element
    the in-place mode stores. *)
Lemma copied_value_packed_value (d r ds : dtype) (mask x v : Z) :
  in_range d x = true →
  0 < mask <= hi d →
  can_cast d r = true →
  copied_value r ds mask x v = packed_value d ds mask x v.
Proof.
  intros Hx Hm Hr. unfold copied_value, packed_value.
  set (L := left_shift ds v (least_significant_bit mask)).
  assert (in_range d (Z.land L mask) = true) as HY.
  { apply in_range_bits. left. intros n Hn.
    rewrite Z.land_spec, (mask_bits_high d mask n) by done.
    apply andb_false_r. }
  rewrite (cast_id r) by (by eapply can_cast_in_range).
  rewrite (cast_id d (Z.land L mask)) by done.
  assert (in_range d (Z.land x (Z.lnot mask)) = true) as HX.
  { pose proof (value_bits_nonneg d).
    apply in_range_bits. apply in_range_bits in Hx as [Hx|[Hs Hx]];
      [left|right; split; [done|]]; intros n Hn;
      rewrite Z.land_spec, Z.lnot_spec, (mask_bits_high d mask n), Hx
        by (done || lia); done. }
  rewrite (cast_id d (Z.land x _)) by done.
  symmetry. apply cast_id.
  pose proof (value_bits_nonneg d).
  apply in_range_bits. apply in_range_bits in HY as [HY|[Hs HY]].
  - apply in_range_bits in HX as [HX|[Hs HX]];
      [left|right; split; [done|]]; intros n Hn;
      by rewrite Z.lor_spec, HX, HY by done.
  - right. split; [done|]. intros n Hn.
    rewrite Z.lor_spec, (HY n) by done. apply orb_true_r.
Qed.

Lemma pack_empty (h : heap) (array sub_field_array : loc) (s : ndarray)
    (mask : Z) (inplace : bool) :
  mask ≠ 0 →
  h !! sub_field_array = Some s →
  data s = [] →
  pack array sub_field_array mask inplace h
  = (Raise (ValueError ZeroSizeReduction), h).
Proof.
  intros Hmask Hs Hnil. unfold pack, py_rshift.
  pose proof (least_significant_bit_nonneg mask Hmask).
  rewrite decide_False by lia.
  erewrite bind_Ok by done.
  erewrite bind_Ok by (by apply load_Ok).
  unfold amax. by rewrite Hnil.
Qed.

Lemma pack_TypeError (h : heap) (array sub_field_array : loc) (a s : ndarray)
    (mask m : Z) (inplace : bool) :
  h !! array = Some a →
  h !! sub_field_array = Some s →
  0 < mask < 2 ^ 63 →
  maximum (data s) = Some m →
  m <= max_allowed mask →
  result_type (dtype_of a) (Z.lnot mask) = None →
  pack array sub_field_array mask inplace h = (Raise TypeError, h).
Proof.
  intros Ha Hs Hmask Hm Hle Hr.
  rewrite (pack_prologue h array sub_field_array s mask m) by (done || lia).
  assert (bitwise_and_scalar a (Z.lnot mask) h = (Raise TypeError, h)) as Hand.
  { unfold bitwise_and_scalar, no_integer_loop. rewrite Hr.
    rewrite decide_True; [done|]. unfold Z.lnot, Z.pred. lia. }
  destruct inplace.
  - erewrite bind_Ok by (by apply load_Ok).
    by erewrite bind_Raise.
  - erewrite bind_Ok by (by apply load_Ok).
    by erewrite bind_Raise.
Qed.

(** C7: the two modes are not bit-identical.  [pack] run on a [uint8]
    destination [[0xB5]], the sub-field column [[3]] and the mask [0x0F]:
    the copy mode returns an [int16] column [[0xB3]], the in-place mode
    leaves the [uint8] column [[0xB3]].  Line 62 rebinds [array] to
    [array & ~mask] before line 63 reads [array.dtype], so the returned
    column has the element type of that expression: for an unsigned
    destination and the negative scalar [~mask] a wider signed type (numpy
    1.x: [uint8 & -16] is [int16]).  The in-place path, which assigns into
    the destination, and the copy path on a signed destination keep the
    destination's type. *)
Lemma pack_copy_widens_element_type :
  pack 0%nat 1%nat 0x0F false [NDArray uint8 [0xB5]; NDArray uint8 [3]]
  = (Ok (Some 2%nat),
     [NDArray uint8 [0xB5]; NDArray uint8 [3]; NDArray int16 [0xB3]])
  ∧ pack 0%nat 1%nat 0x0F true [NDArray uint8 [0xB5]; NDArray uint8 [3]]
    = (Ok None, [NDArray uint8 [0xB3]; NDArray uint8 [3]])
  ∧ NDArray int16 [0xB3] ≠ NDArray uint8 [0xB3].
Proof. split_and!; [reflexivity..|discriminate]. Qed.

(** X26: what the two modes of [pack] share.  For a destination and a
    sub-field column of the same length in distinct buffers, a well-typed
    destination and a positive mask below [2^63] within the range of the
    destination's element type, the copy mode changes no existing array,
    and either both calls raise the same exception and leave the store as
    it was, or the copy mode returns a new column, the in-place mode returns
    [None] and changes the destination only, and the returned column and
    the updated destination hold the same numbers in the same order; the
    destination keeps its element type.  (The element type of the returned
    column is not part of the statement.) *)
Theorem pack_modes_agree (h : heap) (array sub_field_array : loc)
    (a s : ndarray) (mask : Z) :
  h !! array = Some a →
  h !! sub_field_array = Some s →
  array ≠ sub_field_array →
  length (data s) = length (data a) →
  well_typed a →
  0 < mask <= hi (dtype_of a) →
  mask < 2 ^ 63 →
  (∀ l x, h !! l = Some x →
          (pack array sub_field_array mask false h).2 !! l = Some x)
  ∧ match pack array sub_field_array mask false h,
          pack array sub_field_array mask true h with
    | (Ok (Some result), h_copy), (Ok None, h_inplace) =>
        h !! result = None
        ∧ (∀ l, l ≠ array → h_inplace !! l = h !! l)
        ∧ ∃ column a',
            h_copy !! result = Some column
            ∧ h_inplace !! array = Some a'
            ∧ data column = data a'
            ∧ dtype_of a' = dtype_of a
    | (Raise e1, h_copy), (Raise e2, h_inplace) =>
        e1 = e2 ∧ h_copy = h ∧ h_inplace = h
    | _, _ => False
    end.
Proof.
  intros Ha Hs Hne Hlen Hwt Hmask Hbound.
  destruct (maximum (data s)) as [m|] eqn:Hm.
  2:{ rewrite !(pack_empty h array sub_field_array s) by
        (done || lia || by destruct (data s)). done. }
  destruct (decide (m > max_allowed mask)) as [Hgt|Hle].
  { rewrite !(pack_validation h array sub_field_array s mask m) by (done || lia).
    done. }
  destruct (result_type (dtype_of a) (Z.lnot mask)) as [r|] eqn:Hr.
  2:{ rewrite !(pack_TypeError h array sub_field_array a s mask m) by (done || lia).
      done. }
  rewrite (pack_copy_Ok h array sub_field_array a s mask m r) by (done || lia).
  rewrite (pack_inplace_Ok h array sub_field_array a s mask m r) by (done || lia).
  assert (array < length h)%nat by (by eapply lookup_lt_Some).
  split; [intros l x Hl; by apply lookup_app_l_Some|].
  split; [by apply lookup_ge_None|].
  split; [intros l Hl; by rewrite list_lookup_insert_ne|].
  eexists _, _. split; [by rewrite lookup_app_r, Nat.sub_diag|].
  split; [by apply list_lookup_insert_eq|]. split; [|done]. cbn.
  apply result_type_Some in Hr as [Hcc _].
  unfold well_typed in Hwt. clear -Hwt Hmask Hcc.
  generalize (data s). induction Hwt as [|x xs Hx Hxs IH]; intros [|v vs];
    cbn; [done..|].
  f_equal; [by apply copied_value_packed_value|apply IH].
Qed.

Lemma pack_modes_agree_witness :
  (∀ l x, container_and_two_sub_fields !! l = Some x →
          (pack 0%nat 1%nat 0x0F false container_and_two_sub_fields).2 !! l
          = Some x)
  ∧ match pack 0%nat 1%nat 0x0F false container_and_two_sub_fields,
          pack 0%nat 1%nat 0x0F true container_and_two_sub_fields with
    | (Ok (Some result), h_copy), (Ok None, h_inplace) =>
        container_and_two_sub_fields !! result = None
        ∧ (∀ l, l ≠ 0%nat → h_inplace !! l = container_and_two_sub_fields !! l)
        ∧ ∃ column a',
            h_copy !! result = Some column
            ∧ h_inplace !! 0%nat = Some a'
            ∧ data column = data a'
            ∧ dtype_of a' = uint8
    | (Raise e1, h_copy), (Raise e2, h_inplace) =>
        e1 = e2 ∧ h_copy = container_and_two_sub_fields
        ∧ h_inplace = container_and_two_sub_fields
    | _, _ => False
    end.
Proof.
  apply (pack_modes_agree container_and_two_sub_fields 0%nat 1%nat
           (NDArray uint8 [0xB5; 0x00; 0xFF]) (NDArray uint8 [3; 15; 0]) 0x0F);
    try reflexivity; try discriminate.
  - unfold well_typed. cbn.
    repeat (apply Forall_cons_2; [reflexivity|]). apply Forall_nil_2.
  - split; [reflexivity|vm_compute; discriminate].
Defined.

(** ** Inversion of successful computations *)

Lemma load_inv (l : loc) (h h' : heap) (a : ndarray) :
  load l h = (Ok a, h') → h !! l = Some a ∧ h' = h.
Proof. unfold load. destruct (h !! l); unfold mret, M_ret, raise; intros; simplify_eq; eauto. Qed.

Lemma py_rshift_inv (a b v : Z) (h h' : heap) :
  py_rshift a b h = (Ok v, h') → 0 <= b ∧ v = Z.shiftr a b ∧ h' = h.
Proof.
  unfold py_rshift. case_decide; [done|]. intros [= <- <-]. split; [lia|done].
Qed.

Lemma amax_inv (a : ndarray) (m : Z) (h h' : heap) :
  amax a h = (Ok m, h') → maximum (data a) = Some m ∧ h' = h.
Proof. unfold amax. destruct (maximum (data a)); unfold mret, M_ret, raise; intros; simplify_eq; eauto. Qed.

Lemma bitwise_and_scalar_inv (a t : ndarray) (z : Z) (h h' : heap) :
  bitwise_and_scalar a z h = (Ok t, h') →
  ∃ r, result_type (dtype_of a) z = Some r
       ∧ t = NDArray r ((λ x, Z.land x z) <$> data a) ∧ h' = h.
Proof.
  unfold bitwise_and_scalar, no_integer_loop. destruct (result_type _ _);
    [|case_decide]; unfold mret, M_ret, raise; intros; simplify_eq; eauto.
Qed.

Lemma left_shift_scalar_inv (a t : ndarray) (z : Z) (h h' : heap) :
  left_shift_scalar a z h = (Ok t, h') →
  ∃ r, result_type (dtype_of a) z = Some r
       ∧ t = NDArray r ((λ x, left_shift r x z) <$> data a) ∧ h' = h.
Proof.
  unfold left_shift_scalar, no_integer_loop. destruct (result_type _ _);
    [|case_decide]; unfold mret, M_ret, raise; intros; simplify_eq; eauto.
Qed.

Lemma bitwise_or_inv (a b t : ndarray) (h h' : heap) :
  bitwise_or a b h = (Ok t, h') →
  ∃ r xys, promote_types (dtype_of a) (dtype_of b) = Some r
           ∧ broadcast (data a) (data b) = Some xys
           ∧ t = NDArray r ((λ xy, Z.lor xy.1 xy.2) <$> xys) ∧ h' = h.
Proof.
  unfold bitwise_or. destruct (promote_types _ _); [|done].
  destruct (broadcast _ _); unfold mret, M_ret, raise; intros; simplify_eq.
  by eexists _, _.
Qed.

Lemma assign_inv (l : loc) (src : ndarray) (h h' : heap) :
  assign l src h = (Ok tt, h') →
  ∃ d xs, h !! l = Some d
          ∧ broadcast_to (length (data d)) (data src) = Some xs
          ∧ h' = <[l := NDArray (dtype_of d) (cast (dtype_of d) <$> xs)]> h.
Proof.
  unfold assign. destruct (h !! l) as [d|]; [|done].
  destruct (broadcast_to _ _) as [xs|] eqn:Hxs; intros; simplify_eq.
  by exists d, xs.
Qed.

Lemma alloc_inv (a : ndarray) (l : loc) (h h' : heap) :
  alloc a h = (Ok l, h') → l = length h ∧ h' = h ++ [a].
Proof. unfold alloc. unfold mret, M_ret, raise; intros; simplify_eq; eauto. Qed.

Lemma ret_inv {A} (a b : A) (h h' : heap) :
  (mret a : M A) h = (Ok b, h') → b = a ∧ h' = h.
Proof. unfold mret, M_ret. unfold mret, M_ret, raise; intros; simplify_eq; eauto. Qed.

(** ** Broadcasting *)

Lemma broadcast_to_inv (n : nat) (xs xs' : list Z) :
  broadcast_to n xs = Some xs' →
  (xs' = xs ∧ length xs = n)
  ∨ (∃ x, xs = [x] ∧ xs' = replicate n x ∧ n ≠ 1%nat).
Proof.
  unfold broadcast_to. case_decide as Hlen; [intros; simplify_eq; eauto|].
  destruct xs as [|x [|? ?]]; [done| |done]. intros [= <-]. right.
  exists x. split_and!; [done..|]. cbn in Hlen. lia.
Qed.

Lemma broadcast_to_length (n : nat) (xs xs' : list Z) :
  broadcast_to n xs = Some xs' → length xs' = n.
Proof.
  intros [[-> ?]|(x & -> & -> & _)]%broadcast_to_inv; [done|].
  apply length_replicate.
Qed.

Lemma broadcast_to_lookup (n : nat) (xs xs' : list Z) (i : nat) (x x' : Z) :
  broadcast_to n xs = Some xs' →
  xs !! i = Some x → xs' !! i = Some x' → x' = x.
Proof.
  intros [[-> ?]|(x0 & -> & -> & _)]%broadcast_to_inv Hx Hx'; [congruence|].
  apply lookup_replicate in Hx' as [-> _].
  destruct i as [|i]; by simplify_eq/=.
Qed.

Lemma broadcast_to_Forall (P : Z → Prop) (n : nat) (xs xs' : list Z) :
  broadcast_to n xs = Some xs' → Forall P xs → Forall P xs'.
Proof.
  intros [[-> ?]|(x0 & -> & -> & _)]%broadcast_to_inv Hall; [done|].
  apply Forall_replicate. by apply Forall_inv in Hall.
Qed.

Lemma broadcast_inv (xs ys : list Z) (xys : list (Z * Z)) :
  broadcast xs ys = Some xys →
  ∃ n xs' ys',
    broadcast_shape (length xs) (length ys) = Some n
    ∧ broadcast_to n xs = Some xs'
    ∧ broadcast_to n ys = Some ys'
    ∧ xys = zip xs' ys'.
Proof.
  unfold broadcast. intros H.
  destruct (broadcast_shape _ _) as [n|]; [|done]. cbn in H.
  destruct (broadcast_to n xs) as [xs'|] eqn:Hxs; [|done]. cbn in H.
  destruct (broadcast_to n ys) as [ys'|] eqn:Hys; [|done]. cbn in H.
  simplify_eq. by exists n, xs', ys'.
Qed.

Lemma broadcast_to_elem (n : nat) (xs xs' : list Z) (x : Z) :
  broadcast_to n xs = Some xs' → x ∈ xs' → x ∈ xs.
Proof.
  intros [[-> ?]|(x0 & -> & -> & _)]%broadcast_to_inv Hx; [done|].
  apply elem_of_replicate in Hx as [-> _]. left.
Qed.

(** The elements [a | b] combines at an index of [a]. *)
Lemma broadcast_or_lookup (xs bs : list Z) (xys : list (Z * Z)) (i : nat) (x w : Z) :
  broadcast xs bs = Some xys →
  xs !! i = Some x →
  ((λ xy, Z.lor xy.1 xy.2) <$> xys) !! i = Some w →
  ∃ b, b ∈ bs ∧ w = Z.lor x b.
Proof.
  intros (n & xs' & ys' & _ & Hxs & Hys & ->)%broadcast_inv Hx Hw.
  rewrite list_lookup_fmap in Hw.
  destruct (zip xs' ys' !! i) as [[x' b]|] eqn:Hz; [|done].
  apply lookup_zip_with_Some in Hz as (? & ? & [= <- <-] & Hx' & Hb).
  cbn in Hw. injection Hw as <-.
  rewrite (broadcast_to_lookup _ _ _ _ _ _ Hxs Hx Hx').
  exists b. split; [|done].
  eapply broadcast_to_elem; [done|]. by eapply list_elem_of_lookup_2.
Qed.

(** [dest[:] = a | b] writes, at every index of [dest], an element that
    [a | b] combined at that index. *)
Lemma broadcast_or_assigned (xs bs ws : list Z) (xys : list (Z * Z)) :
  broadcast xs bs = Some xys →
  broadcast_to (length xs) ((λ xy, Z.lor xy.1 xy.2) <$> xys) = Some ws →
  ws = (λ xy, Z.lor xy.1 xy.2) <$> xys.
Proof.
  intros Hb [[-> _]|(z & Hz & -> & Hn)]%broadcast_to_inv; [done|].
  apply broadcast_inv in Hb as (n & xs' & ys' & _ & Hxs & Hys & ->).
  apply (f_equal length) in Hz. rewrite length_fmap, length_zip in Hz.
  rewrite (broadcast_to_length _ _ _ Hxs), (broadcast_to_length _ _ _ Hys) in Hz.
  cbn in Hz. assert (n = 1%nat) as -> by lia.
  apply broadcast_to_inv in Hxs as [[_ ?]|(? & -> & _)]; done.
Qed.

(** ** C4 *)

Lemma unmasked_bit_cleared (mask x n : Z) :
  0 <= n → Z.testbit mask n = false →
  Z.testbit (Z.land x (Z.lnot mask)) n = Z.testbit x n.
Proof.
  intros Hn Hm. rewrite Z.land_spec, Z.lnot_spec, Hm by done. apply andb_true_r.
Qed.

Lemma unmasked_bit_merged (d : dtype) (mask X L n : Z) :
  0 <= n < bits d → Z.testbit mask n = false →
  Z.testbit (Z.lor X (cast d (Z.land L mask))) n = Z.testbit X n.
Proof.
  intros Hn Hm. rewrite Z.lor_spec, cast_testbit, Z.land_spec, Hm by done.
  by rewrite andb_false_r, orb_false_r.
Qed.

(** C4: after a successful [pack], in either mode, every element of the
    resulting container column has, at every bit position of the
    destination's element type that the mask does not select, the bit the
    destination element had before the call. *)
Theorem pack_preserves_unmasked_bits (h h' : heap) (array sub_field_array : loc)
    (a : ndarray) (mask : Z) (inplace : bool) (result : option loc) :
  h !! array = Some a →
  pack array sub_field_array mask inplace h = (Ok result, h') →
  ∃ container,
    (if inplace
     then result = None ∧ h' !! array = Some container
          ∧ dtype_of container = dtype_of a
          ∧ length (data container) = length (data a)
     else ∃ l, result = Some l ∧ h !! l = None ∧ h' !! l = Some container)
    ∧ ∀ i x y n,
        data a !! i = Some x →
        data container !! i = Some y →
        0 <= n < bits (dtype_of a) →
        Z.testbit mask n = false →
        Z.testbit y n = Z.testbit x n.
Proof.
  intros Ha H. unfold pack in H.
  apply bind_inv_Ok in H as (max_value & ? & (Hlsb & -> & ->)%py_rshift_inv & H).
  apply bind_inv_Ok in H as (s & ? & [Hs ->]%load_inv & H).
  apply bind_inv_Ok in H as (m & ? & [Hm ->]%amax_inv & H).
  case_decide; [done|].
  assert (array < length h)%nat as Hlt by (by eapply lookup_lt_Some).
  destruct inplace.
  - apply bind_inv_Ok in H as (a0 & ? & [Ha0 ->]%load_inv & H).
    assert (a0 = a) as -> by congruence.
    apply bind_inv_Ok in H as
      (cleared & ? & (r1 & Hr1 & -> & ->)%bitwise_and_scalar_inv & H).
    apply bind_inv_Ok in H as ([] & h1 & Hassign & H).
    rewrite (assign_Ok _ _ a) in Hassign by (done || cbn; by rewrite length_fmap).
    injection Hassign as <-. cbn [data] in H.
    apply bind_inv_Ok in H as (a1 & ? & [Ha1 ->]%load_inv & H).
    rewrite list_lookup_insert_eq in Ha1 by done. injection Ha1 as <-.
    apply bind_inv_Ok in H as (sub & ? & [Hsub ->]%load_inv & H).
    apply bind_inv_Ok in H as
      (shifted & ? & (r2 & Hr2 & -> & ->)%left_shift_scalar_inv & H).
    apply bind_inv_Ok in H as
      (sbits & ? & (r3 & Hr3 & -> & ->)%bitwise_and_scalar_inv & H).
    apply bind_inv_Ok in H as
      (merged & ? & (r4 & xys & Hr4 & Hxys & -> & ->)%bitwise_or_inv & H).
    unfold astype in Hr4, Hxys. cbn [dtype_of data] in Hr4, Hxys.
    rewrite promote_types_same in Hr4. injection Hr4 as <-.
    apply bind_inv_Ok in H as ([] & h2 & (d1 & ws & Hd1 & Hws & ->)%assign_inv & H).
    rewrite list_lookup_insert_eq in Hd1 by done. injection Hd1 as <-.
    apply ret_inv in H as [-> ->]. cbn [dtype_of data] in Hws.
    rewrite list_insert_insert_eq. cbn [dtype_of data].
    pose proof (broadcast_to_length _ _ _ Hws) as Hlen.
    rewrite !length_fmap in Hlen.
    apply (broadcast_or_assigned _ _ _ _ Hxys) in Hws as ->.
    eexists. split.
    { split; [done|]. split; [by apply list_lookup_insert_eq|].
      split; [done|]. cbn. by rewrite length_fmap. }
    cbn. intros i x y n Hx Hy Hn Hmask.
    rewrite list_lookup_fmap in Hy.
    destruct (_ !! i) as [w|] eqn:Hw in Hy; [|done]. injection Hy as <-.
    eapply broadcast_or_lookup in Hw as (b & Hb & ->); [|done|].
    2:{ by rewrite !list_lookup_fmap, Hx. }
    apply list_elem_of_fmap in Hb as (b' & -> & Hb).
    apply list_elem_of_fmap in Hb as (L & -> & _).
    rewrite cast_testbit, unmasked_bit_merged, cast_testbit by done.
    apply unmasked_bit_cleared; [lia|done].
  - apply bind_inv_Ok in H as (a0 & ? & [Ha0 ->]%load_inv & H).
    assert (a0 = a) as -> by congruence.
    apply bind_inv_Ok in H as
      (cleared & ? & (r1 & Hr1 & -> & ->)%bitwise_and_scalar_inv & H).
    apply bind_inv_Ok in H as (sub & ? & [Hsub ->]%load_inv & H).
    apply bind_inv_Ok in H as
      (shifted & ? & (r2 & Hr2 & -> & ->)%left_shift_scalar_inv & H).
    apply bind_inv_Ok in H as
      (sbits & ? & (r3 & Hr3 & -> & ->)%bitwise_and_scalar_inv & H).
    apply bind_inv_Ok in H as
      (merged & ? & (r4 & xys & Hr4 & Hxys & -> & ->)%bitwise_or_inv & H).
    unfold astype in Hxys. cbn [dtype_of data] in Hxys.
    apply bind_inv_Ok in H as (l & ? & [-> ->]%alloc_inv & H).
    apply ret_inv in H as [-> ->].
    eexists. split.
    { eexists. split; [done|]. split; [by apply lookup_ge_None|].
      by rewrite lookup_app_r, Nat.sub_diag. }
    cbn. intros i x y n Hx Hy Hn Hmask.
    eapply broadcast_or_lookup in Hy as (b & Hb & ->); [|done|].
    2:{ by rewrite list_lookup_fmap, Hx. }
    apply list_elem_of_fmap in Hb as (b' & -> & Hb).
    apply list_elem_of_fmap in Hb as (L & -> & _).
    apply result_type_Some in Hr1 as [Hcc%can_cast_bits _].
    rewrite unmasked_bit_merged by (done || lia).
    apply unmasked_bit_cleared; [lia|done].
Qed.


Lemma pack_preserves_unmasked_bits_witness :
  (∃ container,
     ((None : option loc) = None
      ∧ <[0%nat := NDArray uint8 [0xB3; 0x0F; 0xF0]]> container_and_two_sub_fields
        !! 0%nat = Some container
      ∧ dtype_of container = uint8
      ∧ length (data container) = 3%nat)
     ∧ ∀ i x y n,
         [0xB5; 0x00; 0xFF] !! i = Some x →
         data container !! i = Some y →
         0 <= n < 8 →
         Z.testbit 0x0F n = false →
         Z.testbit y n = Z.testbit x n)
  ∧ (∃ container,
       (∃ l, Some 3%nat = Some l
             ∧ container_and_two_sub_fields !! l = None
             ∧ (container_and_two_sub_fields
                  ++ [NDArray int16 [0xB3; 0x0F; 0xF0]]) !! l = Some container)
       ∧ ∀ i x y n,
           [0xB5; 0x00; 0xFF] !! i = Some x →
           data container !! i = Some y →
           0 <= n < 8 →
           Z.testbit 0x0F n = false →
           Z.testbit y n = Z.testbit x n).
Proof.
  split.
  - apply (pack_preserves_unmasked_bits container_and_two_sub_fields _ 0%nat
             1%nat (NDArray uint8 [0xB5; 0x00; 0xFF]) 0x0F true None);
      reflexivity.
  - apply (pack_preserves_unmasked_bits container_and_two_sub_fields _ 0%nat
             1%nat (NDArray uint8 [0xB5; 0x00; 0xFF]) 0x0F false (Some 3%nat));
      reflexivity.
Defined.

(** ** Computations that leave the old store alone *)

Lemma unchanged_below_refl (n : nat) (h : heap) : unchanged_below n h h.
Proof. by split. Qed.

Lemma unchanged_below_trans (n : nat) (h1 h2 h3 : heap) :
  unchanged_below n h1 h2 → unchanged_below n h2 h3 → unchanged_below n h1 h3.
Proof.
  intros [Hl1 H1] [Hl2 H2]. split; [lia|].
  intros l Hl. by rewrite H2, H1.
Qed.

Lemma frame_ret {A} (n : nat) (a : A) : frame n (mret a).
Proof. intros h _. apply unchanged_below_refl. Qed.

Lemma frame_raise {A} (n : nat) (e : exn) : frame n (raise e : M A).
Proof. intros h _. apply unchanged_below_refl. Qed.

Lemma frame_bind_strong {A B} (n : nat) (m : M A) (k : A → M B) (P : A → Prop) :
  frame n m →
  (∀ h a h', m h = (Ok a, h') → P a) →
  (∀ a, P a → frame n (k a)) →
  frame n (m ≫= k).
Proof.
  intros Hm HP Hk h Hn. unfold mbind, M_bind.
  specialize (Hm h Hn). specialize (HP h).
  destruct (m h) as [[a|e] h1]; cbn in *; [|done].
  eapply unchanged_below_trans; [done|].
  apply Hk; [by eapply HP|]. destruct Hm. lia.
Qed.

Lemma frame_bind {A B} (n : nat) (m : M A) (k : A → M B) :
  frame n m → (∀ a, frame n (k a)) → frame n (m ≫= k).
Proof. intros Hm Hk. by apply (frame_bind_strong n m k (λ _, True)). Qed.

Lemma frame_try_except {A} (n : nat) (m : M A) (handler : message → M A) :
  frame n m → (∀ e, frame n (handler e)) →
  frame n (try_except_OverflowError m handler).
Proof.
  intros Hm Hh h Hn. unfold try_except_OverflowError.
  specialize (Hm h Hn).
  destruct (m h) as [[a|[msg| | | |]] h1]; cbn in *; try done.
  eapply unchanged_below_trans; [done|]. apply Hh. destruct Hm. lia.
Qed.

Lemma frame_for_each {A} (n : nat) (l : list A) (body : A → M unit) :
  (∀ x, x ∈ l → frame n (body x)) → frame n (for_each l body).
Proof.
  induction l as [|x l IH]; intros Hbody; cbn; [apply frame_ret|].
  apply frame_bind; [apply Hbody; left|].
  intros _. apply IH. intros y Hy. apply Hbody. by right.
Qed.

Lemma frame_load (n : nat) (l : loc) : frame n (load l).
Proof.
  intros h _. unfold load. case_match; apply unchanged_below_refl.
Qed.

Lemma frame_alloc (n : nat) (a : ndarray) : frame n (alloc a).
Proof.
  intros h Hn. unfold alloc. cbn. split; [rewrite length_app; lia|].
  intros l Hl. apply lookup_app_l. lia.
Qed.

Lemma frame_assign (n : nat) (dest : loc) (src : ndarray) :
  (n <= dest)%nat → frame n (assign dest src).
Proof.
  intros Hd h Hn. unfold assign.
  destruct (h !! dest); [|apply unchanged_below_refl].
  destruct (broadcast_to _ _); [|apply unchanged_below_refl].
  cbn. split; [by rewrite length_insert|].
  intros l' Hl. apply list_lookup_insert_ne. lia.
Qed.

Lemma frame_bitwise_and_scalar (n : nat) (a : ndarray) (z : Z) :
  frame n (bitwise_and_scalar a z).
Proof.
  intros h _. unfold bitwise_and_scalar, no_integer_loop.
  destruct (result_type _ _); [|case_decide]; apply unchanged_below_refl.
Qed.

Lemma frame_left_shift_scalar (n : nat) (a : ndarray) (z : Z) :
  frame n (left_shift_scalar a z).
Proof.
  intros h _. unfold left_shift_scalar, no_integer_loop.
  destruct (result_type _ _); [|case_decide]; apply unchanged_below_refl.
Qed.

Lemma frame_right_shift_scalar (n : nat) (a : ndarray) (z : Z) :
  frame n (right_shift_scalar a z).
Proof.
  intros h _. unfold right_shift_scalar, no_integer_loop.
  destruct (result_type _ _); [|case_decide]; apply unchanged_below_refl.
Qed.

Lemma frame_bitwise_or (n : nat) (a b : ndarray) : frame n (bitwise_or a b).
Proof.
  intros h _. unfold bitwise_or.
  destruct (promote_types _ _); [|apply unchanged_below_refl].
  destruct (broadcast _ _); apply unchanged_below_refl.
Qed.

Lemma frame_amax (n : nat) (a : ndarray) : frame n (amax a).
Proof.
  intros h _. unfold amax. destruct (maximum _); apply unchanged_below_refl.
Qed.

Lemma frame_py_rshift (n : nat) (a b : Z) : frame n (py_rshift a b).
Proof.
  intros h _. unfold py_rshift. case_decide; apply unchanged_below_refl.
Qed.

Lemma frame_getitem (n : nat) (a : recarray) (name : string) :
  frame n (getitem a name).
Proof.
  intros h _. unfold getitem. destruct (assoc _ _); apply unchanged_below_refl.
Qed.

Create HintDb frame.
#[export] Hint Resolve frame_ret frame_raise frame_load frame_alloc
  frame_bitwise_and_scalar frame_left_shift_scalar frame_right_shift_scalar
  frame_bitwise_or frame_amax frame_py_rshift frame_getitem : frame.

Ltac frame_steps :=
  repeat (apply frame_bind; [auto with frame|intros ?]); auto with frame.

Lemma frame_unpack (n : nat) (source_array : loc) (mask : Z) (dtype : dtype) :
  frame n (unpack source_array mask dtype).
Proof. unfold unpack. frame_steps. Qed.

(** The in-place mode writes to its destination only; the copy mode writes
    to nothing that exists. *)
Lemma frame_pack (n : nat) (array sub_field_array : loc) (mask : Z)
    (inplace : bool) :
  (inplace = true → (n <= array)%nat) →
  frame n (pack array sub_field_array mask inplace).
Proof.
  intros Harray. unfold pack.
  do 3 (apply frame_bind; [auto with frame|intros ?]).
  case_decide; [auto with frame|].
  destruct inplace.
  - specialize (Harray eq_refl).
    repeat (apply frame_bind; [auto using frame_assign with frame|intros ?]);
      auto with frame.
  - frame_steps.
Qed.

Lemma assoc_elem_of {A} (name : string) (l : list (string * A)) (x : A) :
  assoc name l = Some x → (name, x) ∈ l.
Proof.
  induction l as [|[n y] l IH]; cbn; [done|].
  case_decide as Hn; [intros [= <-]; subst; left|intros ?; right; auto].
Qed.

Lemma getitem_columns_from (n : nat) (a : recarray) (name : string)
    (h h' : heap) (l : loc) :
  columns_from n a → getitem a name h = (Ok l, h') → (n <= l)%nat.
Proof.
  unfold getitem, columns_from. intros Hall.
  destruct (assoc name (fields a)) as [l'|] eqn:Hl; [|done].
  intros [= <- <-]. apply assoc_elem_of in Hl.
  rewrite Forall_forall in Hall. by apply (Hall _ Hl).
Qed.

Lemma frame_setitem (n : nat) (a : recarray) (name : string) (value : loc) :
  columns_from n a → frame n (setitem a name value).
Proof.
  intros Hcols. unfold setitem.
  apply frame_bind; [auto with frame|intros v].
  apply (frame_bind_strong n _ _ (λ l, (n <= l)%nat)); [auto with frame| |].
  - intros h l h'. by apply getitem_columns_from.
  - intros l Hl. by apply frame_assign.
Qed.

(** ** The output buffer *)

Lemma zeros_fields_Ok (n : nat) (dt : list (string * dtype)) (h : heap) :
  zeros_fields n dt h
  = (Ok (zip dt.*1 (seq (length h) (length dt))), h ++ (zeros n <$> dt.*2)).
Proof.
  revert h. induction dt as [|[name d] dt IH]; intros h; cbn.
  - unfold mret, M_ret. by rewrite app_nil_r.
  - erewrite bind_Ok by done.
    erewrite bind_Ok by apply IH.
    unfold mret, M_ret. rewrite length_app, Nat.add_1_r, <- app_assoc. done.
Qed.

(** [np.zeros_like] allocates one zero column per field of the dtype, after
    every array that exists. *)
Lemma zeros_like_Ok (a : recarray) (dt : list (string * dtype)) (h : heap) :
  zeros_like a dt h
  = (Ok (RecArray (shape a) (zip dt.*1 (seq (length h) (length dt)))),
     h ++ (zeros (shape a) <$> dt.*2)).
Proof.
  unfold zeros_like. erewrite bind_Ok by apply zeros_fields_Ok. done.
Qed.

Lemma columns_from_zeros_like (n : nat) (names : list string) (m k : nat) :
  columns_from k (RecArray n (zip names (seq k m))).
Proof.
  unfold columns_from. cbn. apply Forall_forall. intros [name l] Hin.
  apply elem_of_zip_r, elem_of_seq in Hin. cbn. lia.
Qed.

(** ** C9 *)

Lemma frame_unpack_loop (n : nat) (data point_record : recarray)
    (composed_dims : gmap string (list SubField.t)) :
  columns_from n point_record →
  frame n (for_each (names data) (λ dim_name,
    match composed_dims !! dim_name with
    | Some sub_fields =>
        for_each sub_fields (λ sub_field,
          source ← getitem data dim_name;
          v ← unpack source (SubField.mask sub_field) uint8;
          setitem point_record (SubField.name sub_field) v)
    | None =>
        v ← getitem data dim_name;
        setitem point_record dim_name v
    end)).
Proof.
  intros Hcols. apply frame_for_each. intros dim_name _.
  destruct (composed_dims !! dim_name) as [sub_fields|].
  - apply frame_for_each. intros sub_field _.
    apply frame_bind; [auto with frame|intros source].
    apply frame_bind; [apply frame_unpack|intros v].
    by apply frame_setitem.
  - apply frame_bind; [auto with frame|intros v]. by apply frame_setitem.
Qed.

Lemma frame_repack_composed_dim (n : nat) (dim_name : string)
    (sub_fields : list SubField.t) (repacked_array structured_array : recarray) :
  columns_from n repacked_array →
  frame n (_repack_composed_dim dim_name sub_fields repacked_array
             structured_array).
Proof.
  intros Hcols. unfold _repack_composed_dim.
  apply frame_for_each. intros sub_field _.
  apply frame_try_except; [|auto with frame].
  apply (frame_bind_strong n _ _ (λ l, (n <= l)%nat)); [auto with frame| |].
  - intros h l h'. by apply getitem_columns_from.
  - intros array Harray.
    apply frame_bind; [auto with frame|intros sub_field_array].
    apply frame_bind; [by apply frame_pack|auto with frame].
Qed.

Lemma frame_repack_loop (n : nat) (repacked_array structured_array : recarray)
    (composed_dims : gmap string (list SubField.t)) :
  columns_from n repacked_array →
  frame n (for_each (names repacked_array) (λ dim_name,
    match composed_dims !! dim_name with
    | Some sub_fields =>
        _repack_composed_dim dim_name sub_fields repacked_array structured_array
    | None =>
        v ← getitem structured_array dim_name;
        setitem repacked_array dim_name v
    end)).
Proof.
  intros Hcols. apply frame_for_each. intros dim_name _.
  destruct (composed_dims !! dim_name) as [sub_fields|].
  - by apply frame_repack_composed_dim.
  - apply frame_bind; [auto with frame|intros v]. by apply frame_setitem.
Qed.

Lemma unchanged_below_lookup (h h2 : heap) (zs : list ndarray) (l : loc)
    (x : ndarray) :
  unchanged_below (length h) (h ++ zs) h2 →
  h !! l = Some x → h2 !! l = Some x.
Proof.
  intros [_ H] Hl. rewrite H by (by eapply lookup_lt_Some).
  by apply lookup_app_l_Some.
Qed.

Lemma unpack_sub_fields_frame (h : heap) (batch : recarray)
    (point_format : PointFormat.t) :
  (∀ l x, h !! l = Some x →
          (unpack_sub_fields batch point_format h).2 !! l = Some x)
  ∧ (∀ r, (unpack_sub_fields batch point_format h).1 = Ok r →
          columns_from (length h) r).
Proof.
  set (dt := PointFormat.dtype point_format).
  set (zs := zeros (shape batch) <$> dt.*2).
  set (out := RecArray (shape batch) (zip dt.*1 (seq (length h) (length dt)))).
  assert (columns_from (length h) out) as Hout by apply columns_from_zeros_like.
  assert (length h <= length (h ++ zs))%nat as Hlen by (rewrite length_app; lia).
  pose proof (frame_unpack_loop (length h) batch out
                (PointFormat.composed_fields point_format) Hout _ Hlen) as Hu.
  unfold unpack_sub_fields.
  erewrite bind_Ok by apply zeros_like_Ok. fold dt zs out.
  destruct (for_each (names batch) _ (h ++ zs)) as [[[]|e] h1] eqn:Hloop.
  - erewrite bind_Ok by exact Hloop. cbn in *. split.
    + intros l x Hl. by eapply unchanged_below_lookup.
    + by intros r [= <-].
  - erewrite bind_Raise by exact Hloop. cbn in *. split; [|done].
    intros l x Hl. by eapply unchanged_below_lookup.
Qed.

Lemma repack_sub_fields_frame (h : heap) (batch : recarray)
    (point_format : PointFormat.t) :
  (∀ l x, h !! l = Some x →
          (repack_sub_fields batch point_format h).2 !! l = Some x)
  ∧ (∀ r, (repack_sub_fields batch point_format h).1 = Ok r →
          columns_from (length h) r).
Proof.
  set (dt := PointFormat.dtype point_format).
  set (zs := zeros (shape batch) <$> dt.*2).
  set (out := RecArray (shape batch) (zip dt.*1 (seq (length h) (length dt)))).
  assert (columns_from (length h) out) as Hout by apply columns_from_zeros_like.
  assert (length h <= length (h ++ zs))%nat as Hlen by (rewrite length_app; lia).
  pose proof (frame_repack_loop (length h) out batch
                (PointFormat.composed_fields point_format) Hout _ Hlen) as Hr.
  unfold repack_sub_fields.
  erewrite bind_Ok by apply zeros_like_Ok. fold dt zs out.
  destruct (for_each (names out) _ (h ++ zs)) as [[[]|e] h1] eqn:Hloop.
  - erewrite bind_Ok by exact Hloop. cbn in *. split.
    + intros l x Hl. by eapply unchanged_below_lookup.
    + by intros r [= <-].
  - erewrite bind_Raise by exact Hloop. cbn in *. split; [|done].
    intros l x Hl. by eapply unchanged_below_lookup.
Qed.

(** C9: neither [unpack_sub_fields] nor [repack_sub_fields] changes an array
    that existed before the call, the columns of the input batch included,
    whether the call returns or raises (a range violation in the middle of a
    repack included); the batch each returns is made of columns allocated by
    the call. *)
Theorem record_functions_leave_input_untouched (h : heap) (batch : recarray)
    (point_format : PointFormat.t) :
  (∀ l x, h !! l = Some x →
          (unpack_sub_fields batch point_format h).2 !! l = Some x)
  ∧ (∀ l x, h !! l = Some x →
            (repack_sub_fields batch point_format h).2 !! l = Some x)
  ∧ (∀ r, (unpack_sub_fields batch point_format h).1 = Ok r →
          columns_from (length h) r)
  ∧ (∀ r, (repack_sub_fields batch point_format h).1 = Ok r →
          columns_from (length h) r).
Proof.
  destruct (unpack_sub_fields_frame h batch point_format) as [Hu1 Hu2].
  destruct (repack_sub_fields_frame h batch point_format) as [Hr1 Hr2].
  done.
Qed.

Lemma record_functions_leave_input_untouched_witness :
  (∀ l x, overflowing_store !! l = Some x →
          (unpack_sub_fields unpacked_batch las_packed overflowing_store).2 !! l
          = Some x)
  ∧ (∀ l x, overflowing_store !! l = Some x →
            (repack_sub_fields unpacked_batch las_packed overflowing_store).2 !! l
            = Some x)
  ∧ (∀ r, (unpack_sub_fields unpacked_batch las_packed overflowing_store).1
          = Ok r → columns_from (length overflowing_store) r)
  ∧ (∀ r, (repack_sub_fields unpacked_batch las_packed overflowing_store).1
          = Ok r → columns_from (length overflowing_store) r).
Proof.
  exact (record_functions_leave_input_untouched overflowing_store
           unpacked_batch las_packed).
Defined.

(** The repack of the example raises on the second sub-field of
    [bit_fields], after [return_number] has been packed into the output
    column; the nine input columns are as they were. *)
Example repack_overflow_partway :
  ∃ h',
    repack_sub_fields unpacked_batch las_packed overflowing_store
    = (Raise (OverflowError
                (ErrorRepacking "number_of_returns" "bit_fields"
                   (ValueGreater 9 7))), h')
    ∧ take 9 h' = overflowing_store
    ∧ h' !! 10%nat = Some (NDArray uint8 [5; 2]).
Proof. eexists. split; [reflexivity|]. split; reflexivity. Qed.

(** ** C6 *)

Lemma for_each_ext {A} (l : list A) (f g : A → M unit) (h : heap) :
  (∀ x h, x ∈ l → f x h = g x h) → for_each l f h = for_each l g h.
Proof.
  revert h. induction l as [|x l IH]; intros h Hfg; [done|]. cbn.
  unfold mbind, M_bind. rewrite Hfg by left.
  destruct (g x h) as [[[]|e] h1]; [|done].
  apply IH. intros y h2 Hy. apply Hfg. by right.
Qed.

Lemma bind_ext {A B} (m : M A) (k k' : A → M B) (h : heap) :
  (∀ a h1, k a h1 = k' a h1) → (m ≫= k) h = (m ≫= k') h.
Proof.
  intros Hk. unfold mbind, M_bind. by destruct (m h) as [[a|e] h1].
Qed.

Lemma bind_ext_l {A B} (m m' : M A) (k : A → M B) (h : heap) :
  m h = m' h → (m ≫= k) h = (m' ≫= k) h.
Proof. intros Hm. unfold mbind, M_bind. by rewrite Hm. Qed.

(** C6 as stated fails: [unpack_sub_fields] walks the field names of the
    input batch, so a composed field of the descriptor that the batch lacks
    is never looked at.  The call returns; in this run the sub-field columns
    of the absent field are left as [np.zeros_like] made them. *)
Lemma unpack_sub_fields_absent_composed_field_returns :
  unpack_sub_fields short_batch las_unpacked short_store
  = (Ok (RecArray 2
           [("X", 2%nat);
            ("return_number", 3%nat); ("number_of_returns", 4%nat);
            ("scan_direction_flag", 5%nat); ("edge_of_flight_line", 6%nat);
            ("classification", 7%nat); ("synthetic", 8%nat);
            ("key_point", 9%nat); ("withheld", 10%nat)]),
     short_store
       ++ ([NDArray int32 [-120; 4500];
            NDArray uint8 [5; 2]; NDArray uint8 [6; 1];
            NDArray uint8 [0; 1]; NDArray uint8 [1; 0];
            NDArray uint8 [0; 0]; NDArray uint8 [0; 0];
            NDArray uint8 [0; 0]; NDArray uint8 [0; 0]]
           ++ [NDArray uint8 [5; 2]; NDArray uint8 [6; 1];
               NDArray uint8 [0; 1]; NDArray uint8 [1; 0]]))
  ∧ ("raw_classification" ∉ names short_batch)
  ∧ is_Some (PointFormat.composed_fields las_unpacked !! "raw_classification").
Proof.
  split; [reflexivity|]. split; [|by eexists].
  intros H. by repeat (apply elem_of_cons in H as [H|H]; [done|]);
    apply not_elem_of_nil in H.
Qed.

(** C6, amended: [unpack_sub_fields] makes no check of the batch against the
    descriptor.  A composed field the descriptor defines and the batch lacks
    is skipped: the call behaves, in its result and in the store it leaves,
    exactly as under the descriptor without that composed field. *)
Theorem unpack_sub_fields_skips_absent_composed_field (h : heap)
    (data : recarray) (point_format : PointFormat.t) (absent : string) :
  absent ∉ names data →
  unpack_sub_fields data point_format h
  = unpack_sub_fields data
      (PointFormat.mk (delete absent (PointFormat.composed_fields point_format))
                      (PointFormat.dtype point_format)) h.
Proof.
  intros Habsent. unfold unpack_sub_fields.
  cbn [PointFormat.composed_fields PointFormat.dtype].
  apply bind_ext. intros point_record h1.
  apply bind_ext_l, for_each_ext.
  intros dim_name h2 Hdim.
  rewrite lookup_delete_ne; [done|]. by intros ->.
Qed.

Lemma unpack_sub_fields_skips_absent_composed_field_witness :
  unpack_sub_fields short_batch las_unpacked short_store
  = unpack_sub_fields short_batch
      (PointFormat.mk (delete "raw_classification"
                         (PointFormat.composed_fields las_unpacked))
                      (PointFormat.dtype las_unpacked)) short_store.
Proof.
  apply (unpack_sub_fields_skips_absent_composed_field short_store short_batch
           las_unpacked "raw_classification").
  intros H. by repeat (apply elem_of_cons in H as [H|H]; [done|]);
    apply not_elem_of_nil in H.
Defined.

(** ** Loops of writes to distinct columns *)

Lemma for_each_app {A} (l1 l2 : list A) (body : A → M unit) (h : heap) :
  for_each (l1 ++ l2) body h = (for_each l1 body;; for_each l2 body) h.
Proof.
  revert h. induction l1 as [|x l1 IH]; intros h; cbn.
  - done.
  - unfold mbind, M_bind. destruct (body x h) as [[[]|e] h1]; [|done].
    apply IH.
Qed.

Lemma for_each_fmap {A B} (f : A → B) (l : list A) (body : B → M unit) (h : heap) :
  for_each (f <$> l) body h = for_each l (λ x, body (f x)) h.
Proof.
  revert h. induction l as [|x l IH]; intros h; cbn; [done|].
  unfold mbind, M_bind. destruct (body (f x) h) as [[[]|e] h1]; [|done].
  apply IH.
Qed.

Lemma for_each_singleton {A} (x : A) (body : A → M unit) (h : heap) :
  for_each [x] body h = body x h.
Proof.
  cbn. unfold mbind, M_bind, mret, M_ret.
  by destruct (body x h) as [[[]|e] h1].
Qed.

Lemma for_each_bind {A B} (f : A → list B) (l : list A) (body : B → M unit)
    (h : heap) :
  for_each (l ≫= f) body h = for_each l (λ x, for_each (f x) body) h.
Proof.
  revert h. induction l as [|x l IH]; intros h; cbn; [done|].
  rewrite for_each_app. unfold mbind at 1 3, M_bind.
  destruct (for_each (f x) body h) as [[[]|e] h1]; [|done].
  apply IH.
Qed.

(** A loop whose every step rewrites one existing array, a different one
    at each step, and changes no other existing array; a step finds its
    array as it was before the loop.  Afterwards the array of each step is
    as that step left it, and the arrays of no step are as they were. *)
Lemma for_each_writes {A} (target : A → loc) (post : A → ndarray → Prop)
    (Inv : heap → Prop) (step : A → M unit) (acts : list A) (h0 : heap) :
  NoDup (target <$> acts) →
  (∀ a, a ∈ acts → (target a < length h0)%nat) →
  (∀ a h', a ∈ acts → Inv h' → h' !! target a = h0 !! target a →
     ∃ h'' c,
       step a h' = (Ok tt, h'') ∧ Inv h''
       ∧ h'' !! target a = Some c ∧ post a c
       ∧ ∀ l, (l < length h')%nat → l ≠ target a → h'' !! l = h' !! l) →
  Inv h0 →
  ∃ h'',
    for_each acts step h0 = (Ok tt, h'') ∧ Inv h''
    ∧ (∀ a, a ∈ acts → ∃ c, h'' !! target a = Some c ∧ post a c)
    ∧ (∀ l, (l < length h0)%nat → l ∉ target <$> acts → h'' !! l = h0 !! l).
Proof.
  intros Hnd Hlt Hstep Hinv0.
  assert (∀ h', Inv h' → (length h0 <= length h')%nat →
            (∀ a, a ∈ acts → h' !! target a = h0 !! target a) →
            ∃ h'',
              for_each acts step h' = (Ok tt, h'') ∧ Inv h''
              ∧ (∀ a, a ∈ acts → ∃ c, h'' !! target a = Some c ∧ post a c)
              ∧ (∀ l, (l < length h')%nat → l ∉ target <$> acts →
                      h'' !! l = h' !! l)) as Hgen.
  2:{ apply Hgen; [done|lia|done]. }
  clear Hinv0.
  induction acts as [|a acts IH]; intros h' Hinv Hlen Hinit.
  - exists h'. split_and!; [done..| |done]. by intros a ?%not_elem_of_nil.
  - cbn in Hnd. apply NoDup_cons in Hnd as [Hfresh Hnd].
    destruct (Hstep a h') as (h1 & c & Ha & Hinv1 & Hc & Hpost & Hother);
      [left|done|apply Hinit; left|].
    assert (target a < length h')%nat as Hta
      by (specialize (Hlt a ltac:(left)); lia).
    assert (∀ l, (l < length h')%nat → (l < length h1)%nat) as Hgrow.
    { intros l Hl. destruct (decide (l = target a)) as [->|Hne].
      - by eapply lookup_lt_Some.
      - apply lookup_lt_is_Some. rewrite Hother by done.
        by apply lookup_lt_is_Some. }
    destruct (IH Hnd) with (h' := h1) as (h2 & Hrest & Hinv2 & Hposts & Hothers).
    + intros a' Ha'. apply Hlt. by right.
    + intros a' h'' Ha'. apply Hstep. by right.
    + done.
    + specialize (Hgrow (length h0 - 1)%nat).
      destruct (decide (length h0 = 0%nat)); lia.
    + intros a' Ha'. rewrite Hother.
      * apply Hinit. by right.
      * specialize (Hlt a' ltac:(by right)). lia.
      * intros Heq. apply Hfresh. rewrite <- Heq.
        apply list_elem_of_fmap. by exists a'.
    + exists h2. split_and!.
      * cbn. erewrite bind_Ok by exact Ha. done.
      * done.
      * intros a' [->|Ha']%elem_of_cons; [|by apply Hposts].
        exists c. split; [|done]. rewrite Hothers; [done|by apply Hgrow|done].
      * intros l Hl Hnot. cbn in Hnot. apply not_elem_of_cons in Hnot as [? ?].
        rewrite Hothers by (done || by apply Hgrow). by apply Hother.
Qed.

(** ** Fields and their columns *)

Lemma assoc_Some_lookup {A} (name : string) (l : list (string * A)) (x : A) :
  assoc name l = Some x → ∃ i, l !! i = Some (name, x).
Proof.
  intros H%assoc_elem_of. by apply list_elem_of_lookup_1.
Qed.

Lemma assoc_NoDup {A} (name : string) (l : list (string * A)) (x : A) :
  NoDup l.*1 → (name, x) ∈ l → assoc name l = Some x.
Proof.
  induction l as [|[n y] l IH]; cbn; intros Hnd Hin.
  - by apply not_elem_of_nil in Hin.
  - apply NoDup_cons in Hnd as [Hn Hnd].
    apply elem_of_cons in Hin as [[= <- <-]|Hin].
    + by rewrite decide_True.
    + rewrite decide_False; [by apply IH|].
      intros ->. apply Hn. apply list_elem_of_fmap. by exists (name, x).
Qed.

Lemma assoc_zip_seq (names : list string) (n0 i : nat) (g : string) :
  NoDup names → names !! i = Some g →
  assoc g (zip names (seq n0 (length names))) = Some (n0 + i)%nat.
Proof.
  revert n0 i. induction names as [|g0 names IH]; intros n0 i Hnd Hi; [done|].
  apply NoDup_cons in Hnd as [Hg0 Hnd]. cbn.
  destruct i as [|i]; cbn in Hi.
  - injection Hi as ->. rewrite decide_True by done. f_equal. lia.
  - rewrite decide_False.
    + rewrite (IH (S n0) i) by done. f_equal. lia.
    + intros ->. apply Hg0. by eapply list_elem_of_lookup_2.
Qed.

Lemma assoc_layout_index (layout : list (string * dtype)) (n0 : nat)
    (g : string) (e : dtype) :
  NoDup layout.*1 → (g, e) ∈ layout →
  ∃ i, layout !! i = Some (g, e)
       ∧ assoc g (zip layout.*1 (seq n0 (length layout))) = Some (n0 + i)%nat.
Proof.
  intros Hnd [i Hi]%list_elem_of_lookup_1. exists i. split; [done|].
  rewrite <- (length_fmap fst layout). apply assoc_zip_seq; [done|].
  by rewrite list_lookup_fmap, Hi.
Qed.

Lemma layout_lookup_inj (layout : list (string * dtype)) (i j : nat)
    (g : string) (e e' : dtype) :
  NoDup layout.*1 → layout !! i = Some (g, e) → layout !! j = Some (g, e') →
  i = j ∧ e = e'.
Proof.
  intros Hnd Hi Hj.
  assert (i = j) as ->.
  { eapply NoDup_lookup; [done| |]; by rewrite list_lookup_fmap, ?Hi, ?Hj. }
  split; [done|]. congruence.
Qed.

Lemma names_new_batch (n : nat) (layout : list (string * dtype)) (n0 : nat) :
  names (new_batch n layout n0) = layout.*1.
Proof.
  unfold names, new_batch. cbn. apply fst_zip.
  by rewrite length_seq, length_fmap.
Qed.

Lemma zeros_like_new_batch (a : recarray) (dt : list (string * dtype)) (h : heap) :
  zeros_like a dt h
  = (Ok (new_batch (shape a) dt (length h)), h ++ (zeros (shape a) <$> dt.*2)).
Proof. apply zeros_like_Ok. Qed.

Lemma zeros_lookup (n : nat) (layout : list (string * dtype)) (h : heap)
    (i : nat) (g : string) (e : dtype) :
  layout !! i = Some (g, e) →
  (h ++ (zeros n <$> layout.*2)) !! (length h + i)%nat = Some (zeros n e).
Proof.
  intros Hi. rewrite lookup_app_r by lia.
  replace (length h + i - length h)%nat with i by lia.
  by rewrite !list_lookup_fmap, Hi.
Qed.

Lemma getitem_Ok (a : recarray) (name : string) (l : loc) (h : heap) :
  assoc name (fields a) = Some l → getitem a name h = (Ok l, h).
Proof. unfold getitem. by intros ->. Qed.

Lemma setitem_Ok (a : recarray) (name : string) (value l : loc)
    (v dest : ndarray) (h : heap) :
  h !! value = Some v →
  assoc name (fields a) = Some l →
  h !! l = Some dest →
  length (data v) = length (data dest) →
  setitem a name value h
  = (Ok tt, <[l := NDArray (dtype_of dest) (cast (dtype_of dest) <$> data v)]> h).
Proof.
  intros Hv Hl Hdest Hlen. unfold setitem.
  erewrite bind_Ok by (by apply load_Ok).
  erewrite bind_Ok by (by apply getitem_Ok).
  by apply assign_Ok.
Qed.

Lemma column_Some (h : heap) (b : recarray) (name : string) (col : ndarray) :
  column h b name = Some col ↔
  ∃ l, assoc name (fields b) = Some l ∧ h !! l = Some col.
Proof.
  unfold column. destruct (assoc name (fields b)) as [l|]; cbn.
  - split; [by exists l|]. by intros (? & [= <-] & ?).
  - split; [done|]. by intros (? & ? & ?).
Qed.

(** ** The unpacking pass *)

Lemma unpack_loop_actions (point_record x : recarray)
    (composed : gmap string (list SubField.t)) (dims : list string) (h : heap) :
  for_each dims (λ dim_name,
    match composed !! dim_name with
    | Some sub_fields =>
        for_each sub_fields (λ sub_field,
          source ← getitem x dim_name;
          v ← unpack source (SubField.mask sub_field) uint8;
          setitem point_record (SubField.name sub_field) v)
    | None =>
        v ← getitem x dim_name;
        setitem point_record dim_name v
    end) h
  = for_each (unpack_actions composed dims) (unpack_step point_record x) h.
Proof.
  unfold unpack_actions. rewrite for_each_bind.
  apply for_each_ext. intros dim h' _.
  destruct (composed !! dim) as [sub_fields|].
  - by rewrite for_each_fmap.
  - by rewrite for_each_singleton.
Qed.

Section unpack_pass.
Context (h : heap) (x : recarray) (composed : gmap string (list SubField.t)).
Context (unpacked : list (string * dtype)).

Local Abbreviation out := (new_batch (shape x) unpacked (length h)).
Local Abbreviation acts := (unpack_actions composed (names x)).
Local Abbreviation unpack_inv := (pass_inv h (shape x) unpacked).
Local Abbreviation out_loc := (field_loc out).

Hypothesis Hnd : NoDup unpacked.*1.
Hypothesis Htargets : NoDup ((λ a : string * string * option Z, a.1.1) <$> acts).
Hypothesis Hacts : ∀ a, a ∈ acts →
  ∃ e col,
    (a.1.1, e) ∈ unpacked
    ∧ column h x a.1.2 = Some col
    ∧ length (data col) = shape x
    ∧ match a.2 with
      | Some m => m ≠ 0 ∧ is_Some (result_type (dtype_of col) m)
      | None => True
      end.

Lemma unpack_step_spec (a : string * string * option Z) (h' : heap) :
  a ∈ acts → unpack_inv h' →
  ∃ h'' c,
    unpack_step out x a h' = (Ok tt, h'') ∧ unpack_inv h''
    ∧ h'' !! out_loc a.1.1 = Some c
    ∧ (∃ e col, (a.1.1, e) ∈ unpacked ∧ column h x a.1.2 = Some col
                ∧ c = unpacked_column e a.2 col)
    ∧ ∀ l, (l < length h')%nat → l ≠ out_loc a.1.1 → h'' !! l = h' !! l.
Proof.
  intros Ha [Hold Hout].
  destruct (Hacts a Ha) as (e & col & He & Hcol & Hlen & Hm).
  destruct (assoc_layout_index unpacked (length h) _ _ Hnd He) as (i & Hi & Hloc).
  destruct (Hout i _ _ Hi) as (c0 & Hc0 & Hd0 & Hl0).
  apply column_Some in Hcol as Hsrc. destruct Hsrc as (ls & Hls & Hhs).
  assert (out_loc a.1.1 = (length h + i)%nat) as Htgt
    by (unfold field_loc; cbn; by rewrite Hloc).
  rewrite Htgt.
  assert (length h + i < length h')%nat as Hlt by (by eapply lookup_lt_Some).
  destruct a as [[tgt src] [m|]]; cbn [fst snd] in *; unfold unpack_step;
    cbn [fst snd].
  - destruct Hm as [Hm0 Hrt].
    set (temp := NDArray uint8 (unpacked_value uint8 m <$> data col)).
    exists (<[(length h + i)%nat := NDArray e (cast e <$> data temp)]> (h' ++ [temp])).
    eexists. split_and!.
    + erewrite bind_Ok by (by apply getitem_Ok).
      erewrite bind_Ok by (apply (unpack_Ok h' ls col); auto).
      erewrite (setitem_Ok _ _ _ (length h + i)%nat temp c0).
      * by rewrite Hd0.
      * by rewrite lookup_app_r, Nat.sub_diag.
      * done.
      * by apply lookup_app_l_Some.
      * cbn. rewrite length_fmap. congruence.
    + split.
      * intros l c Hl. rewrite list_lookup_insert_ne.
        -- apply lookup_app_l_Some. by apply Hold.
        -- apply lookup_lt_Some in Hl. lia.
      * intros j g e' Hj. destruct (decide (j = i)) as [->|Hne].
        -- rewrite Hi in Hj. injection Hj as <- <-.
           rewrite list_lookup_insert_eq by (rewrite length_app; lia).
           eexists. split; [done|]. cbn. rewrite !length_fmap. split; [done|congruence].
        -- rewrite list_lookup_insert_ne by lia.
           destruct (Hout j _ _ Hj) as (c & Hc & ? & ?).
           exists c. split; [by apply lookup_app_l_Some|done].
    + apply list_lookup_insert_eq. rewrite length_app. lia.
    + by exists e, col.
    + intros l Hl Hne. rewrite list_lookup_insert_ne by done.
      by apply lookup_app_l.
  - exists (<[(length h + i)%nat := NDArray e (cast e <$> data col)]> h').
    eexists. split_and!.
    + erewrite bind_Ok by (by apply getitem_Ok).
      erewrite (setitem_Ok _ _ _ (length h + i)%nat col c0); auto.
      * by rewrite Hd0.
      * congruence.
    + split.
      * intros l c Hl. rewrite list_lookup_insert_ne.
        -- by apply Hold.
        -- apply lookup_lt_Some in Hl. lia.
      * intros j g e' Hj. destruct (decide (j = i)) as [->|Hne].
        -- rewrite Hi in Hj. injection Hj as <- <-.
           rewrite list_lookup_insert_eq by lia.
           eexists. split; [done|]. cbn. rewrite !length_fmap. split; [done|congruence].
        -- rewrite list_lookup_insert_ne by lia. by eapply Hout.
    + by apply list_lookup_insert_eq.
    + by exists e, col.
    + intros l Hl Hne. by rewrite list_lookup_insert_ne.
Qed.

Lemma field_loc_new_batch (n n0 : nat) (layout : list (string * dtype))
    (g : string) (e : dtype) :
  NoDup layout.*1 → (g, e) ∈ layout →
  ∃ i, layout !! i = Some (g, e)
       ∧ assoc g (fields (new_batch n layout n0)) = Some (n0 + i)%nat
       ∧ field_loc (new_batch n layout n0) g = (n0 + i)%nat.
Proof.
  intros Hnd' He.
  destruct (assoc_layout_index layout n0 _ _ Hnd' He) as (i & Hi & Hloc).
  exists i. split_and!; [done..|]. unfold field_loc. cbn. by rewrite Hloc.
Qed.

Lemma unpack_targets_NoDup :
  NoDup ((λ a : string * string * option Z, out_loc a.1.1) <$> acts).
Proof.
  rewrite (list_fmap_compose (λ a : string * string * option Z, a.1.1) out_loc).
  apply NoDup_fmap_2_strong; [|done].
  intros g g' (a & -> & Ha)%list_elem_of_fmap (a' & -> & Ha')%list_elem_of_fmap Heq.
  destruct (Hacts a Ha) as (e & _ & He & _).
  destruct (Hacts a' Ha') as (e' & _ & He' & _).
  destruct (field_loc_new_batch (shape x) (length h) unpacked _ _ Hnd He)
    as (i & Hi & _ & Hl).
  destruct (field_loc_new_batch (shape x) (length h) unpacked _ _ Hnd He')
    as (j & Hj & _ & Hl').
  rewrite Hl, Hl' in Heq. assert (i = j) as -> by lia. congruence.
Qed.

Lemma pass_inv_zeros (n : nat) (layout : list (string * dtype)) :
  pass_inv h n layout (h ++ (zeros n <$> layout.*2)).
Proof.
  split.
  - intros l c Hl. by apply lookup_app_l_Some.
  - intros i g e Hi. exists (zeros n e). split; [by eapply zeros_lookup|].
    split; [done|]. cbn. apply length_replicate.
Qed.

(** [unpack_sub_fields] returns, and each field it assigns holds the column
    that its assignment computes from the input. *)
Lemma unpack_sub_fields_Ok :
  ∃ h1,
    unpack_sub_fields x (PointFormat.mk composed unpacked) h = (Ok out, h1)
    ∧ unpack_inv h1
    ∧ ∀ a, a ∈ acts →
        ∃ e col, (a.1.1, e) ∈ unpacked ∧ column h x a.1.2 = Some col
                 ∧ column h1 out a.1.1 = Some (unpacked_column e a.2 col).
Proof.
  destruct (for_each_writes (λ a, out_loc a.1.1)
              (λ a c, ∃ e col, (a.1.1, e) ∈ unpacked
                               ∧ column h x a.1.2 = Some col
                               ∧ c = unpacked_column e a.2 col)
              unpack_inv (unpack_step out x) acts
              (h ++ (zeros (shape x) <$> unpacked.*2)) unpack_targets_NoDup)
    as (h1 & Hloop & Hinv & Hpost & _).
  { intros a Ha. destruct (Hacts a Ha) as (e & _ & He & _).
    destruct (field_loc_new_batch (shape x) (length h) unpacked _ _ Hnd He)
      as (i & Hi & _ & ->).
    eapply lookup_lt_Some, zeros_lookup, Hi. }
  { intros a h' Ha Hinv _. by apply unpack_step_spec. }
  { apply pass_inv_zeros. }
  exists h1. split_and!; [|done|].
  - unfold unpack_sub_fields. cbn [PointFormat.composed_fields PointFormat.dtype].
    erewrite bind_Ok by apply zeros_like_new_batch.
    erewrite bind_Ok; [done|]. by rewrite unpack_loop_actions.
  - intros a Ha. destruct (Hpost a Ha) as (c & Hc & e & col & He & Hcol & ->).
    exists e, col. split_and!; [done..|].
    destruct (field_loc_new_batch (shape x) (length h) unpacked _ _ Hnd He)
      as (i & Hi & Hassoc & Hl).
    apply column_Some. exists (length h + i)%nat. split; [done|].
    by rewrite <- Hl.
Qed.
End unpack_pass.

(** ** The repacking pass *)



Section repack_pass.
Context (h : heap) (y : recarray) (composed : gmap string (list SubField.t)).
Context (packed : list (string * dtype)).

Local Abbreviation out := (new_batch (shape y) packed (length h)).
Local Abbreviation repack_inv := (pass_inv h (shape y) packed).

Hypothesis Hnd : NoDup packed.*1.
Hypothesis Hshape : (0 < shape y)%nat.
Hypothesis Hplain : ∀ f d, (f, d) ∈ packed → composed !! f = None →
  ∃ col, column h y f = Some col ∧ length (data col) = shape y.
Hypothesis Hcomposed : ∀ c d sub_fields sf,
  (c, d) ∈ packed → composed !! c = Some sub_fields → sf ∈ sub_fields →
  ∃ col, column h y (SubField.name sf) = Some col
         ∧ length (data col) = shape y
         ∧ 0 < SubField.mask sf
         ∧ in_range_of_mask (SubField.mask sf) col
         ∧ is_Some (result_type d (Z.lnot (SubField.mask sf))).




End repack_pass.

(** ** Masks and sub-field values *)

Lemma bits_subset_le (a b : Z) :
  0 <= b → (∀ n, 0 <= n → Z.testbit a n = true → Z.testbit b n = true) →
  0 <= a <= b.
Proof.
  intros Hb Hsub. apply Z.ldiff_le; [done|].
  apply Z.bits_inj'. intros n Hn. rewrite Z.ldiff_spec, Z.bits_0.
  specialize (Hsub n Hn). destruct (Z.testbit a n); [|done].
  by rewrite Hsub.
Qed.

Lemma max_allowed_shiftl (mask : Z) :
  mask ≠ 0 →
  Z.shiftl (max_allowed mask) (least_significant_bit mask) = mask.
Proof.
  intros Hne. pose proof (least_significant_bit_spec mask Hne) as (Hk & _ & Hlow).
  unfold max_allowed. set (k := least_significant_bit mask) in *.
  apply Z.bits_inj'. intros n Hn. rewrite Z.shiftl_spec by done.
  destruct (decide (n < k)).
  - rewrite Z.testbit_neg_r by lia. symmetry. apply Hlow. lia.
  - rewrite Z.shiftr_spec by lia. f_equal. lia.
Qed.

Lemma max_allowed_nonneg (mask : Z) : 0 < mask → 0 <= max_allowed mask.
Proof. intros H. unfold max_allowed. apply Z.shiftr_nonneg. lia. Qed.

Lemma max_allowed_le (mask : Z) : 0 < mask → max_allowed mask <= mask.
Proof.
  intros H. pose proof (least_significant_bit_nonneg mask ltac:(lia)) as Hk.
  unfold max_allowed. rewrite Z.shiftr_div_pow2 by done.
  apply Z.div_le_upper_bound; [by apply Z.pow_pos_nonneg|].
  assert (1 <= 2 ^ least_significant_bit mask)
    by (pose proof (Z.pow_pos_nonneg 2 (least_significant_bit mask)); lia).
  nia.
Qed.

(** The value [unpack] extracts lies between zero and the maximum of the
    mask. *)
Lemma unpacked_bounds (mask x : Z) :
  0 < mask →
  0 <= Z.shiftr (Z.land x mask) (least_significant_bit mask) <= max_allowed mask.
Proof.
  intros Hm. pose proof (least_significant_bit_nonneg mask ltac:(lia)) as Hk.
  apply bits_subset_le; [by apply max_allowed_nonneg|].
  intros n Hn. unfold max_allowed. rewrite !Z.shiftr_spec, Z.land_spec by done.
  by intros [_ ?]%andb_true_iff.
Qed.

Lemma land_mask_bounds (mask x : Z) : 0 < mask → 0 <= Z.land x mask <= mask.
Proof.
  intros Hm. apply bits_subset_le; [lia|].
  intros n Hn. rewrite Z.land_spec. by intros [_ ?]%andb_true_iff.
Qed.

Lemma in_range_nonneg (d : dtype) (v : Z) :
  0 <= v <= hi d → in_range d v = true.
Proof. intros Hv. apply in_range_spec. pose proof (lo_nonpos d). lia. Qed.

(** Shifting the extracted value back gives the masked bits. *)
Lemma shiftl_unpacked (mask x : Z) :
  mask ≠ 0 →
  Z.shiftl (Z.shiftr (Z.land x mask) (least_significant_bit mask))
           (least_significant_bit mask)
  = Z.land x mask.
Proof.
  intros Hne. pose proof (least_significant_bit_spec mask Hne) as (Hk & _ & Hlow).
  set (k := least_significant_bit mask) in *.
  apply Z.bits_inj'. intros n Hn. rewrite Z.shiftl_spec by done.
  destruct (decide (n < k)).
  - rewrite Z.testbit_neg_r, Z.land_spec, Hlow by lia. by rewrite andb_false_r.
  - rewrite Z.shiftr_spec by lia. f_equal. lia.
Qed.



(** ** Sub-fields layered into one element *)

Section pack_all.
Context (d : dtype) (e_of : SubField.t → dtype) (v_of : SubField.t → Z).




End pack_all.


(** ** Plumbing of the round trip *)

Lemma unpack_actions_targets (composed : gmap string (list SubField.t))
    (dims : list string) :
  (λ a : string * string * option Z, a.1.1) <$> unpack_actions composed dims
  = unpacked_fields composed dims.
Proof.
  unfold unpack_actions, unpacked_fields.
  induction dims as [|dim dims IH]; [done|]. cbn.
  rewrite fmap_app, IH. f_equal.
  destruct (composed !! dim) as [sub_fields|]; [|done].
  rewrite <- list_fmap_compose. by apply list_fmap_ext.
Qed.

Lemma elem_of_unpack_actions (composed : gmap string (list SubField.t))
    (dims : list string) (a : string * string * option Z) :
  a ∈ unpack_actions composed dims ↔
  ∃ dim, dim ∈ dims
    ∧ ((∃ sub_fields sf, composed !! dim = Some sub_fields ∧ sf ∈ sub_fields
          ∧ a = (SubField.name sf, dim, Some (SubField.mask sf)))
       ∨ (composed !! dim = None ∧ a = (dim, dim, None))).
Proof.
  unfold unpack_actions. rewrite list_elem_of_bind. split.
  - intros (dim & Ha & Hdim). exists dim. split; [done|].
    destruct (composed !! dim) as [sub_fields|].
    + apply list_elem_of_fmap in Ha as (sf & -> & Hsf). left. by exists sub_fields, sf.
    + apply list_elem_of_singleton in Ha. by right.
  - intros (dim & Hdim & [(sub_fields & sf & Hc & Hsf & ->)|[Hc ->]]);
      exists dim; rewrite Hc; (split; [|done]).
    + apply list_elem_of_fmap. by exists sf.
    + by apply list_elem_of_singleton.
Qed.

Lemma layout_unique (layout : list (string * dtype)) (g : string) (e e' : dtype) :
  NoDup layout.*1 → (g, e) ∈ layout → (g, e') ∈ layout → e = e'.
Proof.
  intros Hnd [i Hi]%list_elem_of_lookup_1 [j Hj]%list_elem_of_lookup_1.
  by destruct (layout_lookup_inj layout i j g e e' Hnd Hi Hj).
Qed.

Lemma elem_of_names (layout : list (string * dtype)) (g : string) :
  g ∈ layout.*1 → ∃ d, (g, d) ∈ layout.
Proof. intros ([g' d] & -> & H)%list_elem_of_fmap. by exists d. Qed.



Lemma ndarray_eta (c : ndarray) : NDArray (dtype_of c) (data c) = c.
Proof. by destruct c. Qed.



(** ** The round trip *)

Section round_trip.
Context (composed : gmap string (list SubField.t)).
Context (packed unpacked : list (string * dtype)).
Hypothesis Hfo : format_ok composed packed unpacked.

Local Abbreviation pf_packed := (PointFormat.mk composed packed).
Local Abbreviation pf_unpacked := (PointFormat.mk composed unpacked).




End round_trip.

(** ** C2 *)


(** On a batch of no record the repacking raises: [.max()] of an empty
    sub-field column has no value.  The amended claim speaks of non-empty
    batches only. *)
Example round_trip_empty_batch :
  ∃ h',
    (r ← unpack_sub_fields empty_batch las_unpacked;
     repack_sub_fields r las_packed) empty_store
    = (Raise (ValueError ZeroSizeReduction), h').
Proof. by eexists. Qed.


(** ** The round trip on LAS point format 0 *)

Ltac list_cases H :=
  repeat (apply elem_of_cons in H as [H|H]); [..|by apply not_elem_of_nil in H].

Ltac solve_elem_of := repeat first [by left | right].

Ltac solve_well_typed :=
  unfold well_typed; cbn [data dtype_of];
  repeat (apply Forall_cons_2; [reflexivity|]); apply Forall_nil_2.

Lemma las_sub_field_ok (sf : SubField.t) :
  sf ∈ [SubField.mk "return_number" 0x07;
        SubField.mk "number_of_returns" 0x38;
        SubField.mk "scan_direction_flag" 0x40;
        SubField.mk "edge_of_flight_line" 0x80;
        SubField.mk "classification" 0x1F;
        SubField.mk "synthetic" 0x20;
        SubField.mk "key_point" 0x40;
        SubField.mk "withheld" 0x80] →
  0 < SubField.mask sf <= hi uint8
  ∧ max_allowed (SubField.mask sf) <= 255
  ∧ contiguous (SubField.mask sf)
  ∧ ∃ e, (SubField.name sf, e) ∈ las_unpacked_dtype ∧ SubField.mask sf <= hi e.
Proof.
  intros H. list_cases H; subst sf; cbn [SubField.mask SubField.name];
    (split; [split; [reflexivity|vm_compute; discriminate]|]);
    (split; [vm_compute; discriminate|]);
    (split; [match goal with
             | |- contiguous ?m => exists (Z.log2 (max_allowed m + 1))
             end; split; vm_compute; (discriminate || reflexivity)|]);
    (exists uint8; split; [unfold las_unpacked_dtype; solve_elem_of
                          |vm_compute; discriminate]).
Qed.

Lemma byte_cover (sub_fields : list SubField.t) :
  foldr (λ sf acc, Z.lor (SubField.mask sf) acc) 0 sub_fields = 0xFF →
  ∀ n, 0 <= n < bits uint8 →
    ∃ sf, sf ∈ sub_fields ∧ Z.testbit (SubField.mask sf) n = true.
Proof.
  intros Hall n Hn.
  assert (Z.testbit (foldr (λ sf acc, Z.lor (SubField.mask sf) acc) 0 sub_fields) n
          = true) as Hbit.
  { rewrite Hall. change (bits uint8) with 8 in Hn.
    change 0xFF with (Z.ones 8). apply Z.ones_spec_low. lia. }
  clear Hall. induction sub_fields as [|sf rest IH]; cbn in Hbit.
  - by rewrite Z.bits_0 in Hbit.
  - rewrite Z.lor_spec in Hbit. apply orb_true_iff in Hbit as [Hbit|Hbit].
    + exists sf. split; [left|done].
    + destruct (IH Hbit) as (sf' & ? & ?). exists sf'. split; [by right|done].
Qed.

Lemma las_format_ok :
  format_ok las_composed_fields las_packed_dtype las_unpacked_dtype.
Proof.
  split.
  - apply (bool_decide_unpack _). by vm_compute.
  - apply (bool_decide_unpack _). by vm_compute.
  - apply (bool_decide_unpack _). by vm_compute.
  - intros f d Hf Hc. unfold las_packed_dtype in Hf. list_cases Hf;
      injection Hf as -> ->; try (vm_compute in Hc; discriminate).
    unfold las_unpacked_dtype. solve_elem_of.
  - intros c d sub_fields Hcd Hc. unfold las_packed_dtype in Hcd.
    list_cases Hcd; injection Hcd as -> ->; vm_compute in Hc;
      try discriminate; injection Hc as <-.
    + split.
      * reflexivity.
      * discriminate.
      * intros sf Hsf. apply las_sub_field_ok. list_cases Hsf; subst sf;
          solve_elem_of.
      * cbn. repeat split; repeat (apply Forall_cons_2; [reflexivity|]);
          apply Forall_nil_2.
      * by apply byte_cover.
    + split.
      * reflexivity.
      * discriminate.
      * intros sf Hsf. apply las_sub_field_ok. list_cases Hsf; subst sf;
          solve_elem_of.
      * cbn. repeat split; repeat (apply Forall_cons_2; [reflexivity|]);
          apply Forall_nil_2.
      * by apply byte_cover.
  - intros g Hg.
    replace (unpacked_fields las_composed_fields las_packed_dtype.*1)
      with las_unpacked_dtype.*1 by (by vm_compute). done.
Qed.





Example round_trip_packed_batch :
  ∃ h',
    (r ← unpack_sub_fields packed_batch las_unpacked;
     repack_sub_fields r las_packed) packed_store
    = (Ok (RecArray 2 [("X", 20%nat); ("bit_fields", 21%nat);
                       ("raw_classification", 22%nat)]), h')
    ∧ drop 20 h' = packed_store.
Proof. eexists. split; [vm_compute; reflexivity|]. vm_compute. reflexivity. Qed.

(** ** The bit position of shifted and of contiguous masks *)

Lemma shiftl_odd_part (k q j : Z) :
  0 <= k → 0 <= j → Z.shiftl (2 ^ k * (2 * q + 1)) j = 2 ^ (k + j) * (2 * q + 1).
Proof.
  intros Hk Hj. rewrite Z.shiftl_mul_pow2, Z.pow_add_r by lia. lia.
Qed.

(** X1: the bit position depends on the magnitude of the mask alone, and
    moving a nonzero mask up by [k] bits moves it up by [k]. *)
Theorem least_significant_bit_shiftl (mask k : Z) :
  mask ≠ 0 → 0 <= k →
  least_significant_bit (Z.shiftl mask k) = least_significant_bit mask + k
  ∧ least_significant_bit (- mask) = least_significant_bit mask.
Proof.
  intros Hmask Hk. split.
  - destruct (odd_part mask Hmask) as (j & q & Hj & ->).
    rewrite shiftl_odd_part by done.
    rewrite !least_significant_bit_pow2 by lia. done.
  - unfold least_significant_bit. by rewrite Z.opp_involutive, Z.land_comm.
Qed.

Lemma least_significant_bit_shiftl_witness :
  least_significant_bit (Z.shiftl 0x0B 4) = least_significant_bit 0x0B + 4
  ∧ least_significant_bit (- 0x0B) = least_significant_bit 0x0B.
Proof.
  exact (least_significant_bit_shiftl 0x0B 4 ltac:(discriminate)
           ltac:(discriminate)).
Defined.

(** X2: a field of [n] consecutive bits at bit offset [k], that is the mask
    [(2 ^ n - 1) << k], has shift [k] and maximum [2 ^ n - 1]. *)
Theorem contiguous_mask_shift_and_maximum (n k : Z) :
  0 < n → 0 <= k →
  least_significant_bit (Z.shiftl (2 ^ n - 1) k) = k
  ∧ max_allowed (Z.shiftl (2 ^ n - 1) k) = 2 ^ n - 1
  ∧ contiguous (Z.shiftl (2 ^ n - 1) k).
Proof.
  intros Hn Hk.
  assert (2 ^ n - 1 = 2 ^ 0 * (2 * (2 ^ (n - 1) - 1) + 1)) as Hodd.
  { replace n with (Z.succ (n - 1)) at 1 by lia.
    rewrite Z.pow_succ_r by lia. lia. }
  assert (least_significant_bit (Z.shiftl (2 ^ n - 1) k) = k) as Hlsb.
  { rewrite Hodd, shiftl_odd_part, least_significant_bit_pow2 by lia. lia. }
  assert (max_allowed (Z.shiftl (2 ^ n - 1) k) = 2 ^ n - 1) as Hmax.
  { unfold max_allowed. rewrite Hlsb. rewrite Z.shiftr_shiftl_l by done.
    by rewrite Z.sub_diag, Z.shiftl_0_r. }
  split_and!; [done..|]. exists n. split; [lia|done].
Qed.

Lemma contiguous_mask_shift_and_maximum_witness :
  least_significant_bit (Z.shiftl (2 ^ 3 - 1) 3) = 3
  ∧ max_allowed (Z.shiftl (2 ^ 3 - 1) 3) = 2 ^ 3 - 1
  ∧ contiguous (Z.shiftl (2 ^ 3 - 1) 3).
Proof.
  exact (contiguous_mask_shift_and_maximum 3 3 ltac:(reflexivity)
           ltac:(discriminate)).
Defined.

(** ** Masks and columns that [pack] refuses *)

(** X3: [pack] called with the zero mask fails on line 51, where Python
    evaluates [0 >> -1]: it raises [ValueError] in both modes, whatever the
    arrays are, and changes nothing. *)
Theorem pack_zero_mask_raises (h : heap) (array sub_field_array : loc)
    (inplace : bool) :
  pack array sub_field_array 0 inplace h
  = (Raise (ValueError NegativeShiftCount), h).
Proof. reflexivity. Qed.

(** X4: under a nonzero mask, an empty sub-field column makes [pack] fail
    with the [ValueError] of [.max()] on line 52, in both modes and with
    the store unchanged; no [OverflowError] is involved. *)
Theorem pack_empty_column_raises (h : heap) (array sub_field_array : loc)
    (s : ndarray) (mask : Z) (inplace : bool) :
  mask ≠ 0 →
  h !! sub_field_array = Some s →
  data s = [] →
  pack array sub_field_array mask inplace h
  = (Raise (ValueError ZeroSizeReduction), h).
Proof. apply pack_empty. Qed.

Lemma pack_empty_column_raises_witness :
  0x0F ≠ 0
  ∧ empty_store !! 2%nat = Some (NDArray uint8 [])
  ∧ data (NDArray uint8 []) = []
  ∧ pack 1%nat 2%nat 0x0F true empty_store
    = (Raise (ValueError ZeroSizeReduction), empty_store).
Proof.
  assert (0x0F ≠ 0) as H1 by lia.
  assert (empty_store !! 2%nat = Some (NDArray uint8 [])) as H2 by reflexivity.
  assert (data (NDArray uint8 []) = []) as H3 by reflexivity.
  split_and!; [exact H1|exact H2|exact H3|].
  exact (pack_empty_column_raises empty_store 1%nat 2%nat _ 0x0F true H1 H2 H3).
Defined.

Lemma max_allowed_neg (mask : Z) : mask < 0 → max_allowed mask < 0.
Proof.
  intros Hneg. unfold max_allowed. apply Z.shiftr_neg. done.
Qed.

(** X5: a negative mask has a negative maximum, so [pack] rejects under it
    every column whose largest element is not negative, zeros included. *)
Theorem pack_negative_mask_rejects (h : heap) (array sub_field_array : loc)
    (s : ndarray) (mask m : Z) (inplace : bool) :
  mask < 0 →
  h !! sub_field_array = Some s →
  maximum (data s) = Some m →
  0 <= m →
  max_allowed mask < 0
  ∧ pack array sub_field_array mask inplace h
    = (Raise (OverflowError (ValueGreater m (max_allowed mask))), h).
Proof.
  intros Hneg Hs Hm Hpos.
  pose proof (max_allowed_neg mask Hneg).
  split; [done|]. apply (pack_validation _ _ _ s); [lia|done..|lia].
Qed.

Lemma pack_negative_mask_rejects_witness :
  -16 < 0
  ∧ container_and_two_sub_fields !! 1%nat = Some (NDArray uint8 [3; 15; 0])
  ∧ maximum [3; 15; 0] = Some 15
  ∧ 0 <= 15
  ∧ max_allowed (-16) < 0
  ∧ pack 0%nat 1%nat (-16) true container_and_two_sub_fields
    = (Raise (OverflowError (ValueGreater 15 (max_allowed (-16)))),
       container_and_two_sub_fields).
Proof.
  assert (-16 < 0) as H1 by lia.
  assert (container_and_two_sub_fields !! 1%nat
          = Some (NDArray uint8 [3; 15; 0])) as H2 by reflexivity.
  assert (maximum [3; 15; 0] = Some 15) as H3 by reflexivity.
  assert (0 <= 15) as H4 by lia.
  split_and!; [exact H1|exact H2|exact H3|exact H4|..];
    apply (pack_negative_mask_rejects container_and_two_sub_fields 0%nat 1%nat
             _ (-16) 15 true H1 H2 H3 H4).
Defined.

Lemma result_type_uint64_neg (z : Z) : z < 0 → result_type uint64 z = None.
Proof.
  intros Hz. unfold result_type, integer_loops.
  cbn -[in_range can_cast]. eval_can_cast.
  assert (in_range uint64 z = false) as ->; [|done].
  apply not_true_is_false. rewrite in_range_spec.
  change (lo uint64) with 0. lia.
Qed.

(** X6: a destination column of 64-bit unsigned elements cannot be packed
    into under a positive mask below [2^63]: once the validation has
    passed, [array & ~mask] combines the column with a negative Python
    integer that fits [int64], for which numpy has no integer loop, and
    [pack] raises [TypeError] in both modes, the store unchanged.  (A mask
    from [2^63] on makes [~mask] an object operand and is not covered.) *)
Theorem pack_uint64_destination_raises (h : heap) (array sub_field_array : loc)
    (a s : ndarray) (mask : Z) (inplace : bool) :
  h !! array = Some a →
  h !! sub_field_array = Some s →
  dtype_of a = uint64 →
  0 < mask < 2 ^ 63 →
  data s ≠ [] →
  in_range_of_mask mask s →
  pack array sub_field_array mask inplace h = (Raise TypeError, h).
Proof.
  intros Ha Hs Hd Hmask Hne Hin.
  destruct (in_range_of_mask_maximum mask s Hne Hin) as (m & Hm & Hle).
  apply (pack_TypeError _ _ _ a s mask m); [done..|].
  rewrite Hd. apply result_type_uint64_neg. unfold Z.lnot, Z.pred. lia.
Qed.

Lemma pack_uint64_destination_raises_witness :
  uint64_container !! 0%nat = Some (NDArray uint64 [0xB5; 0x00])
  ∧ uint64_container !! 1%nat = Some (NDArray uint8 [3; 4])
  ∧ dtype_of (NDArray uint64 [0xB5; 0x00]) = uint64
  ∧ 0 < 0x0F < 2 ^ 63
  ∧ data (NDArray uint8 [3; 4]) ≠ []
  ∧ in_range_of_mask 0x0F (NDArray uint8 [3; 4])
  ∧ pack 0%nat 1%nat 0x0F false uint64_container
    = (Raise TypeError, uint64_container)
  ∧ pack 0%nat 1%nat 0x0F true uint64_container
    = (Raise TypeError, uint64_container).
Proof.
  assert (uint64_container !! 0%nat = Some (NDArray uint64 [0xB5; 0x00])) as H1
    by reflexivity.
  assert (uint64_container !! 1%nat = Some (NDArray uint8 [3; 4])) as H2
    by reflexivity.
  assert (dtype_of (NDArray uint64 [0xB5; 0x00]) = uint64) as H3 by reflexivity.
  assert (0 < 0x0F < 2 ^ 63) as H4 by lia.
  assert (data (NDArray uint8 [3; 4]) ≠ []) as H5 by discriminate.
  assert (in_range_of_mask 0x0F (NDArray uint8 [3; 4])) as H6
    by (unfold in_range_of_mask; cbn [data];
        repeat (apply Forall_cons_2; [vm_compute; discriminate|]);
        apply Forall_nil_2).
  refine (conj H1 (conj H2 (conj H3 (conj H4 (conj H5 (conj H6 (conj _ _))))))).
  - exact (pack_uint64_destination_raises uint64_container 0%nat 1%nat _ _
             0x0F false H1 H2 H3 H4 H5 H6).
  - exact (pack_uint64_destination_raises uint64_container 0%nat 1%nat _ _
             0x0F true H1 H2 H3 H4 H5 H6).
Defined.

(** ** The element type of the column the copy mode returns *)

Lemma clearing_type_signed (d : dtype) (mask : Z) :
  signed d = true → 0 < mask <= hi d →
  result_type d (Z.lnot mask) = Some d.
Proof.
  intros Hs Hmask. apply result_type_self, in_range_spec.
  pose proof (hi_ge_127 d).
  assert (lo d = - hi d - 1) as -> by (by destruct d as [[] []]).
  unfold Z.lnot. lia.
Qed.

Lemma clearing_type_widens (d : dtype) (mask : Z) :
  signed d = false → width_of d ≠ W64 → 0 < mask <= hi d →
  ∃ r, result_type d (Z.lnot mask) = Some r
       ∧ signed r = true ∧ bits r = 2 * bits d.
Proof.
  intros Hs Hw Hmask.
  assert (∀ t, signed t = false → in_range t (Z.lnot mask) = false) as Hu.
  { intros [[] w] Ht; [done|]. apply not_true_is_false.
    rewrite in_range_spec. unfold Z.lnot. cbn. lia. }
  destruct d as [[] []]; try done.
  - exists int16. split; [|done].
    assert (in_range int16 (Z.lnot mask) = true) as Hi.
    { apply in_range_spec. unfold Z.lnot.
      change (hi (Dtype false W8)) with 255 in Hmask.
      change (lo int16) with (-32768). change (hi int16) with 32767. lia. }
    unfold result_type, integer_loops. cbn -[in_range can_cast]. eval_can_cast.
    fold uint8 int16. by rewrite (Hu uint8), Hi.
  - exists int32. split; [|done].
    assert (in_range int32 (Z.lnot mask) = true) as Hi.
    { apply in_range_spec. unfold Z.lnot.
      change (hi (Dtype false W16)) with 65535 in Hmask.
      change (lo int32) with (-2147483648).
      change (hi int32) with 2147483647. lia. }
    unfold result_type, integer_loops. cbn -[in_range can_cast]. eval_can_cast.
    fold uint16 int32. by rewrite (Hu uint16), Hi.
  - exists int64. split; [|done].
    assert (in_range int64 (Z.lnot mask) = true) as Hi.
    { apply in_range_spec. unfold Z.lnot.
      change (hi (Dtype false W32)) with 4294967295 in Hmask.
      change (lo int64) with (-9223372036854775808).
      change (hi int64) with 9223372036854775807. lia. }
    unfold result_type, integer_loops. cbn -[in_range can_cast]. eval_can_cast.
    fold uint32 int64. by rewrite (Hu uint32), Hi.
Qed.


Ltac solve_in_range_of_mask :=
  unfold in_range_of_mask; cbn [data];
  repeat (apply Forall_cons_2; [vm_compute; discriminate|]); apply Forall_nil_2.


(** ** The masked bits after [pack] *)

Lemma clearing_type_exists (d : dtype) (mask : Z) :
  d ≠ uint64 → 0 < mask <= hi d → is_Some (result_type d (Z.lnot mask)).
Proof.
  intros Hd Hmask. destruct (signed d) eqn:Hsg.
  - exists d. by apply clearing_type_signed.
  - destruct (clearing_type_widens d mask) as (r & Hr & _); [done| |done|by exists r].
    intros Hw. apply Hd. destruct d as [sg w]. cbn in *. by subst.
Qed.

Lemma mask_bit_low (d : dtype) (mask n : Z) :
  0 < mask <= hi d → Z.testbit mask n = true → 0 <= n < bits d.
Proof.
  intros Hmask Hn. split.
  - destruct (decide (0 <= n)); [done|]. by rewrite Z.testbit_neg_r in Hn by lia.
  - destruct (decide (n < value_bits d)) as [Hlt|Hge].
    + pose proof (value_bits_le d). lia.
    + rewrite (mask_bits_high d mask n) in Hn by (done || lia). done.
Qed.

Lemma packed_value_land_mask (d ds : dtype) (mask x v : Z) :
  0 < mask <= hi d →
  Z.land (packed_value d ds mask x v) mask
  = Z.land (left_shift ds v (least_significant_bit mask)) mask.
Proof.
  intros Hmask. apply Z.bits_inj'. intros n Hn. rewrite !Z.land_spec.
  destruct (Z.testbit mask n) eqn:Hbit; [|by rewrite !andb_false_r].
  rewrite packed_value_testbit by (by eapply mask_bit_low).
  rewrite Hbit. cbn. by rewrite andb_false_r, !andb_true_r.
Qed.

Lemma left_shift_land_mask (ds : dtype) (mask v : Z) :
  0 < mask <= hi ds →
  Z.land (left_shift ds v (least_significant_bit mask)) mask
  = Z.land (Z.shiftl v (least_significant_bit mask)) mask.
Proof.
  intros Hmask. unfold left_shift.
  rewrite decide_True by (apply least_significant_bit_nonneg; lia).
  apply Z.bits_inj'. intros n Hn. rewrite !Z.land_spec.
  destruct (Z.testbit mask n) eqn:Hbit; [|by rewrite !andb_false_r].
  by rewrite cast_testbit by (by eapply mask_bit_low).
Qed.

(** X8: after a successful in-place [pack], the bits of every destination
    element that the mask selects are those of the sub-field element moved
    up to the position of the mask: [array[i] & mask == (sub[i] << lsb) &
    mask]; the destination keeps its element type. *)
Theorem pack_sets_masked_bits (h : heap) (array sub_field_array : loc)
    (a s : ndarray) (mask : Z) :
  h !! array = Some a →
  h !! sub_field_array = Some s →
  array ≠ sub_field_array →
  length (data s) = length (data a) →
  data s ≠ [] →
  in_range_of_mask mask s →
  0 < mask <= hi (dtype_of a) →
  mask <= hi (dtype_of s) →
  dtype_of a ≠ uint64 →
  ∃ container,
    pack array sub_field_array mask true h = (Ok None, <[array := container]> h)
    ∧ dtype_of container = dtype_of a
    ∧ ∀ i x v,
        data a !! i = Some x → data s !! i = Some v →
        ∃ y, data container !! i = Some y
             ∧ Z.land y mask
               = Z.land (Z.shiftl v (least_significant_bit mask)) mask.
Proof.
  intros Ha Hs Hne Hlen Hnil Hin Hmask Hmask' Hd.
  destruct (in_range_of_mask_maximum mask s Hnil Hin) as (m & Hm & Hle).
  destruct (clearing_type_exists _ _ Hd Hmask) as [r Hr].
  eexists. split.
  { apply (pack_inplace_Ok h array sub_field_array a s mask m r);
      [done|done|done|lia|done|done|done|done]. }
  split; [done|]. intros i x v Hx Hv. cbn [data].
  rewrite lookup_zip_with, Hx, Hv. cbn. eexists. split; [done|].
  rewrite packed_value_land_mask by done.
  apply left_shift_land_mask. lia.
Qed.

Lemma pack_sets_masked_bits_witness :
  ∃ container,
    pack 0%nat 2%nat 0xF0 true container_and_two_sub_fields
    = (Ok None, <[0%nat := container]> container_and_two_sub_fields)
    ∧ dtype_of container = uint8
    ∧ ∀ i x v,
        [0xB5; 0x00; 0xFF] !! i = Some x → [12; 1; 15] !! i = Some v →
        ∃ y, data container !! i = Some y
             ∧ Z.land y 0xF0
               = Z.land (Z.shiftl v (least_significant_bit 0xF0)) 0xF0.
Proof.
  assert (container_and_two_sub_fields !! 0%nat
          = Some (NDArray uint8 [0xB5; 0x00; 0xFF])) as H1 by reflexivity.
  assert (container_and_two_sub_fields !! 2%nat
          = Some (NDArray uint8 [12; 1; 15])) as H2 by reflexivity.
  assert (in_range_of_mask 0xF0 (NDArray uint8 [12; 1; 15])) as H3
    by solve_in_range_of_mask.
  assert (0 < 0xF0 <= hi uint8) as H4 by (split; [reflexivity|discriminate]).
  exact (pack_sets_masked_bits container_and_two_sub_fields 0%nat 2%nat _ _
           0xF0 H1 H2 ltac:(discriminate) eq_refl ltac:(discriminate) H3 H4
           ltac:(discriminate) ltac:(discriminate)).
Defined.

(** ** Sequences of [pack] and [unpack] on one column *)

Lemma fmap_zip_with_l {A B C D} (g : C → D) (g' : A → D) (f : A → B → C)
    (l : list A) (k : list B) :
  length k = length l → (∀ x v, g (f x v) = g' x) →
  g <$> zip_with f l k = g' <$> l.
Proof.
  intros Hlen Hg. revert k Hlen.
  induction l as [|x l IH]; intros [|v k] Hlen; cbn in *; try done.
  f_equal; [apply Hg|apply IH; lia].
Qed.

Lemma fmap_zip_with_r {A B C D} (g : C → D) (g' : B → D) (f : A → B → C)
    (l : list A) (k : list B) :
  length k = length l → (∀ x v, g (f x v) = g' v) →
  g <$> zip_with f l k = g' <$> k.
Proof.
  intros Hlen Hg. revert k Hlen.
  induction l as [|x l IH]; intros [|v k] Hlen; cbn in *; try done.
  f_equal; [apply Hg|apply IH; lia].
Qed.

Lemma zip_with_fmap_id {A B} (f : A → B → A) (u : A → B) (l : list A) :
  Forall (λ x, f x (u x) = x) l → zip_with f l (u <$> l) = l.
Proof. induction 1 as [|x l Hx _ IH]; cbn; [done|]. by rewrite Hx, IH. Qed.

Lemma packed_value_overwrite (d d1 d2 : dtype) (mask x v1 v2 : Z) :
  packed_value d d2 mask (packed_value d d1 mask x v1) v2
  = packed_value d d2 mask x v2.
Proof.
  unfold packed_value at 1 3. apply cast_ext. intros n Hn.
  rewrite !Z.lor_spec, !cast_testbit, !Z.land_spec by done.
  rewrite packed_value_testbit by done.
  rewrite !Z.lnot_spec by lia.
  destruct (Z.testbit mask n), (Z.testbit x n); cbn;
    by rewrite ?andb_false_r, ?andb_true_r, ?orb_false_r.
Qed.

Lemma zip_with_zip_with_overwrite (d d1 d2 : dtype) (mask : Z)
    (xs v1s v2s : list Z) :
  length v1s = length xs →
  zip_with (packed_value d d2 mask)
    (zip_with (packed_value d d1 mask) xs v1s) v2s
  = zip_with (packed_value d d2 mask) xs v2s.
Proof.
  revert v1s v2s. induction xs as [|x xs IH]; intros [|v1 v1s] [|v2 v2s] Hlen;
    cbn in *; try done.
  by rewrite packed_value_overwrite, IH by lia.
Qed.

(** X9: packing in place twice under the same mask leaves what the second
    call alone would have left: the later sub-field column replaces the
    earlier one, and packing the same column twice changes nothing more. *)
Theorem pack_same_mask_last_wins (h : heap) (array sub_1 sub_2 : loc)
    (a s1 s2 : ndarray) (mask : Z) :
  h !! array = Some a → h !! sub_1 = Some s1 → h !! sub_2 = Some s2 →
  array ≠ sub_1 → array ≠ sub_2 →
  data a ≠ [] →
  length (data s1) = length (data a) → length (data s2) = length (data a) →
  0 < mask →
  in_range_of_mask mask s1 → in_range_of_mask mask s2 →
  is_Some (result_type (dtype_of a) (Z.lnot mask)) →
  ∃ h',
    pack array sub_2 mask true h = (Ok None, h')
    ∧ (pack array sub_1 mask true;; pack array sub_2 mask true) h = (Ok None, h').
Proof.
  intros Ha Hs1 Hs2 Hn1 Hn2 Hne Hl1 Hl2 Hmask Hin1 Hin2 [r Hr].
  destruct (in_range_of_mask_maximum mask s1) as (m1 & Hm1 & Hle1);
    [destruct (data s1), (data a); done|done|].
  destruct (in_range_of_mask_maximum mask s2) as (m2 & Hm2 & Hle2);
    [destruct (data s2), (data a); done|done|].
  assert (array < length h)%nat as Hlt by (by eapply lookup_lt_Some).
  eexists. split.
  { apply (pack_inplace_Ok h array sub_2 a s2 mask m2 r); done. }
  erewrite bind_Ok
    by (apply (pack_inplace_Ok h array sub_1 a s1 mask m1 r); done).
  erewrite pack_inplace_Ok; [|by apply list_lookup_insert_eq
    |by rewrite list_lookup_insert_ne|cbn; rewrite length_zip_with; lia
    |done..].
  rewrite list_insert_insert_eq. cbn [dtype_of data].
  by rewrite zip_with_zip_with_overwrite.
Qed.

Lemma pack_same_mask_last_wins_witness :
  ∃ h',
    pack 0%nat 2%nat 0x0F true container_and_two_sub_fields = (Ok None, h')
    ∧ (pack 0%nat 1%nat 0x0F true;; pack 0%nat 2%nat 0x0F true)
        container_and_two_sub_fields = (Ok None, h').
Proof.
  assert (container_and_two_sub_fields !! 0%nat
          = Some (NDArray uint8 [0xB5; 0x00; 0xFF])) as H1 by reflexivity.
  assert (container_and_two_sub_fields !! 1%nat
          = Some (NDArray uint8 [3; 15; 0])) as H2 by reflexivity.
  assert (container_and_two_sub_fields !! 2%nat
          = Some (NDArray uint8 [12; 1; 15])) as H3 by reflexivity.
  assert (in_range_of_mask 0x0F (NDArray uint8 [3; 15; 0])) as H4
    by solve_in_range_of_mask.
  assert (in_range_of_mask 0x0F (NDArray uint8 [12; 1; 15])) as H5
    by solve_in_range_of_mask.
  assert (is_Some (result_type uint8 (Z.lnot 0x0F))) as H6
    by (eexists; reflexivity).
  exact (pack_same_mask_last_wins container_and_two_sub_fields 0%nat 1%nat
           2%nat _ _ _ 0x0F H1 H2 H3 ltac:(discriminate) ltac:(discriminate)
           ltac:(discriminate) eq_refl eq_refl ltac:(reflexivity) H4 H5 H6).
Defined.

Lemma unpacked_value_small (e : dtype) (mask x : Z) :
  0 < mask → max_allowed mask <= hi e →
  unpacked_value e mask x
  = Z.shiftr (Z.land x mask) (least_significant_bit mask).
Proof.
  intros Hmask Hmax. unfold unpacked_value.
  pose proof (unpacked_bounds mask x Hmask).
  apply cast_id, in_range_nonneg. lia.
Qed.

Lemma unpacked_values_bounded (e : dtype) (mask : Z) (xs : list Z) :
  0 < mask → max_allowed mask <= hi e →
  Forall (λ v, 0 <= v <= max_allowed mask) (unpacked_value e mask <$> xs).
Proof.
  intros Hmask Hmax. apply Forall_fmap, Forall_true. intros x. cbn.
  rewrite unpacked_value_small by done. by apply unpacked_bounds.
Qed.

(** X10: the values [unpack] returns lie between zero and [mask >> lsb],
    the bound [pack] checks, whatever the sign of the source elements,
    provided the target element type holds that bound; the column is then
    never refused by [pack] under the same mask. *)
Theorem unpack_within_mask_maximum (h : heap) (source_array : loc)
    (src : ndarray) (mask : Z) (dtype : dtype) :
  h !! source_array = Some src →
  0 < mask →
  is_Some (result_type (dtype_of src) mask) →
  max_allowed mask <= hi dtype →
  ∃ column,
    unpack source_array mask dtype h = (Ok (length h), h ++ [column])
    ∧ well_typed column
    ∧ Forall (λ v, 0 <= v <= max_allowed mask) (data column)
    ∧ in_range_of_mask mask column.
Proof.
  intros Hsrc Hmask Hr Hmax.
  eexists. split; [apply unpack_Ok; [done|lia|done]|].
  pose proof (unpacked_values_bounded dtype mask (data src) Hmask Hmax) as Hall.
  split_and!; cbn [data dtype_of].
  - unfold well_typed. cbn [data dtype_of].
    eapply Forall_impl; [exact Hall|]. intros v Hv. cbn in Hv.
    apply in_range_nonneg. lia.
  - done.
  - unfold in_range_of_mask. cbn [data].
    eapply Forall_impl; [exact Hall|]. intros v Hv. cbn in Hv. lia.
Qed.

Lemma unpack_within_mask_maximum_witness :
  ∃ column,
    unpack 0%nat 0x1F0 uint8 int16_container
    = (Ok (length int16_container), int16_container ++ [column])
    ∧ well_typed column
    ∧ Forall (λ v, 0 <= v <= max_allowed 0x1F0) (data column)
    ∧ in_range_of_mask 0x1F0 column.
Proof.
  assert (int16_container !! 0%nat = Some (NDArray int16 [-2; 0x1B5])) as H1
    by reflexivity.
  assert (is_Some (result_type int16 0x1F0)) as H2 by (eexists; reflexivity).
  exact (unpack_within_mask_maximum int16_container 0%nat _ 0x1F0 uint8 H1
           ltac:(reflexivity) H2 ltac:(discriminate)).
Defined.

Lemma unpack_pack_value (d ds e : dtype) (mask x v k : Z) :
  0 < mask <= hi d → mask <= hi ds →
  0 <= k → max_allowed mask = 2 ^ k - 1 →
  max_allowed mask <= hi e →
  unpacked_value e mask (packed_value d ds mask x v) = v mod 2 ^ k.
Proof.
  intros Hmask Hmask' Hk Hcont Hmax.
  pose proof (least_significant_bit_nonneg mask ltac:(lia)) as Hlsb.
  rewrite unpacked_value_small by (lia || done).
  rewrite packed_value_land_mask by done.
  rewrite left_shift_land_mask by lia.
  rewrite <- (max_allowed_shiftl mask) at 2 by lia.
  rewrite <- Z.shiftl_land, Z.shiftr_shiftl_l, Z.sub_diag, Z.shiftl_0_r by done.
  rewrite Hcont. replace (2 ^ k - 1) with (Z.ones k) by (rewrite Z.ones_equiv; lia).
  by apply Z.land_ones.
Qed.

(** X11: [unpack] after an in-place [pack] under the same mask of [k]
    consecutive bits returns every packed value modulo [2 ^ k]: the value
    itself when it is not negative.  [pack] checks no lower bound, so a
    negative value is accepted and comes back as its low [k] bits. *)
Theorem unpack_after_pack (h : heap) (array sub_field_array : loc)
    (a s : ndarray) (mask k : Z) (dtype : dtype) :
  h !! array = Some a →
  h !! sub_field_array = Some s →
  array ≠ sub_field_array →
  length (data s) = length (data a) →
  data s ≠ [] →
  in_range_of_mask mask s →
  0 < mask <= hi (dtype_of a) →
  mask <= hi (dtype_of s) →
  0 <= k → max_allowed mask = 2 ^ k - 1 →
  max_allowed mask <= hi dtype →
  dtype_of a ≠ uint64 →
  ∃ container,
    (pack array sub_field_array mask true;; unpack array mask dtype) h
    = (Ok (length h),
       <[array := container]> h
         ++ [NDArray dtype ((λ v, v mod 2 ^ k) <$> data s)])
    ∧ (Forall (λ v, 0 <= v) (data s) → (λ v, v mod 2 ^ k) <$> data s = data s).
Proof.
  intros Ha Hs Hne Hlen Hnil Hin Hmask Hmask' Hk Hcont Hmax Hd.
  destruct (in_range_of_mask_maximum mask s Hnil Hin) as (m & Hm & Hle).
  destruct (clearing_type_exists _ _ Hd Hmask) as [r Hr].
  assert (array < length h)%nat as Hlt by (by eapply lookup_lt_Some).
  eexists. split.
  - erewrite bind_Ok.
    2:{ apply (pack_inplace_Ok h array sub_field_array a s mask m r);
          [done|done|done|lia|done|done|done|done]. }
    erewrite unpack_Ok; [|by apply list_lookup_insert_eq|lia|].
    2:{ cbn [dtype_of]. exists (dtype_of a).
        apply result_type_self, in_range_nonneg. lia. }
    rewrite length_insert. cbn [data]. do 4 f_equal.
    apply fmap_zip_with_r; [done|]. intros x v.
    by apply unpack_pack_value.
  - intros Hpos. unfold in_range_of_mask in Hin.
    clear -Hin Hpos Hcont. induction Hpos as [|v l Hv Hpos IH]; [done|].
    apply Forall_cons in Hin as [Hv' Hin]. cbn.
    rewrite IH by done. f_equal. apply Z.mod_small. lia.
Qed.

Lemma unpack_after_pack_witness :
  ∃ container,
    (pack 0%nat 1%nat 0xF0 true;; unpack 0%nat 0xF0 uint8) signed_values
    = (Ok (length signed_values),
       <[0%nat := container]> signed_values
         ++ [NDArray uint8 ((λ v, v mod 2 ^ 4) <$> [12; -1; 15])])
    ∧ (Forall (λ v, 0 <= v) [12; -1; 15]
       → (λ v, v mod 2 ^ 4) <$> [12; -1; 15] = [12; -1; 15]).
Proof.
  assert (signed_values !! 0%nat = Some (NDArray uint8 [0xB5; 0x00; 0xFF])) as H1
    by reflexivity.
  assert (signed_values !! 1%nat = Some (NDArray int16 [12; -1; 15])) as H2
    by reflexivity.
  assert (in_range_of_mask 0xF0 (NDArray int16 [12; -1; 15])) as H3
    by solve_in_range_of_mask.
  assert (0 < 0xF0 <= hi uint8) as H4 by (split; [reflexivity|discriminate]).
  exact (unpack_after_pack signed_values 0%nat 1%nat _
           (NDArray int16 [12; -1; 15]) 0xF0 4 uint8 H1 H2 ltac:(discriminate)
           eq_refl ltac:(discriminate) H3 H4 ltac:(discriminate)
           ltac:(discriminate) eq_refl ltac:(discriminate) ltac:(discriminate)).
Defined.

(** The value -1 is accepted under the mask 0xF0 and read back as 15. *)
Example unpack_after_pack_negative :
  (pack 0%nat 1%nat 0xF0 true;; unpack 0%nat 0xF0 uint8) signed_values
  = (Ok 2%nat,
     [NDArray uint8 [0xC5; 0xF0; 0xFF]; NDArray int16 [12; -1; 15];
      NDArray uint8 [12; 15; 15]]).
Proof. reflexivity. Qed.

Lemma pack_unpack_value (d e : dtype) (mask x : Z) :
  in_range d x = true →
  0 < mask <= hi e →
  packed_value d e mask x (unpacked_value e mask x) = x.
Proof.
  intros Hx Hmask.
  pose proof (max_allowed_le mask ltac:(lia)).
  pose proof (land_mask_bounds mask x ltac:(lia)).
  rewrite <- (cast_id d x) at 3 by done.
  unfold packed_value. apply cast_ext. intros n Hn.
  rewrite unpacked_value_small by lia.
  unfold left_shift.
  rewrite decide_True by (apply least_significant_bit_nonneg; lia).
  rewrite shiftl_unpacked by lia.
  rewrite (cast_id e) by (apply in_range_nonneg; lia).
  rewrite Z.lor_spec, !cast_testbit, !Z.land_spec, Z.lnot_spec by (done || lia).
  by destruct (Z.testbit x n), (Z.testbit mask n).
Qed.

(** X12: packing in place the column that [unpack] has just extracted
    under the same mask leaves the destination column as it was. *)
Theorem pack_after_unpack (h : heap) (array : loc) (a : ndarray) (mask : Z)
    (dtype : dtype) :
  h !! array = Some a →
  well_typed a →
  data a ≠ [] →
  0 < mask <= hi (dtype_of a) →
  mask <= hi dtype →
  dtype_of a ≠ uint64 →
  (sub ← unpack array mask dtype; pack array sub mask true) h
  = (Ok None, h ++ [NDArray dtype (unpacked_value dtype mask <$> data a)]).
Proof.
  intros Ha Hwt Hnil Hmask Hmask' Hd.
  pose proof (max_allowed_le mask ltac:(lia)).
  assert (array < length h)%nat as Hlt by (by eapply lookup_lt_Some).
  assert (in_range_of_mask mask
            (NDArray dtype (unpacked_value dtype mask <$> data a))) as Hin.
  { unfold in_range_of_mask. cbn [data].
    eapply Forall_impl; [apply (unpacked_values_bounded dtype mask); lia|].
    intros v Hv. cbn in Hv. lia. }
  assert (data (NDArray dtype (unpacked_value dtype mask <$> data a)) ≠ [])
    as Hnil' by (cbn [data]; by destruct (data a)).
  destruct (in_range_of_mask_maximum mask _ Hnil' Hin) as (m & Hm & Hle).
  destruct (clearing_type_exists _ _ Hd Hmask) as [r Hr].
  erewrite bind_Ok.
  2:{ apply unpack_Ok; [done|lia|].
      exists (dtype_of a). apply result_type_self, in_range_nonneg. lia. }
  erewrite (pack_inplace_Ok _ array (length h) a _ mask m r);
    [|by apply lookup_app_l_Some|by rewrite lookup_app_r, Nat.sub_diag
     |cbn; by rewrite length_fmap|lia|done|done|done|lia].
  f_equal. apply list_insert_id.
  rewrite lookup_app_l by done. rewrite Ha. f_equal.
  rewrite <- (ndarray_eta a) at 1. f_equal. cbn [data dtype_of].
  symmetry. apply zip_with_fmap_id.
  eapply Forall_impl; [exact Hwt|]. intros x Hx. cbn in Hx.
  apply pack_unpack_value; [done|lia].
Qed.

Lemma pack_after_unpack_witness :
  (sub ← unpack 0%nat 0x1F0 uint16; pack 0%nat sub 0x1F0 true) int16_container
  = (Ok None,
     int16_container
       ++ [NDArray uint16 (unpacked_value uint16 0x1F0 <$> [-2; 0x1B5])]).
Proof.
  assert (int16_container !! 0%nat = Some (NDArray int16 [-2; 0x1B5])) as H1
    by reflexivity.
  assert (well_typed (NDArray int16 [-2; 0x1B5])) as H2 by solve_well_typed.
  assert (0 < 0x1F0 <= hi int16) as H3 by (split; [reflexivity|discriminate]).
  exact (pack_after_unpack int16_container 0%nat _ 0x1F0 uint16 H1 H2
           ltac:(discriminate) H3 ltac:(discriminate) ltac:(discriminate)).
Defined.

Lemma unpacked_value_other_mask (d ds e : dtype) (A B x v : Z) :
  0 < B <= hi d → Z.land A B = 0 →
  unpacked_value e B (packed_value d ds A x v) = unpacked_value e B x.
Proof.
  intros HB Hdisj. unfold unpacked_value. do 2 f_equal.
  apply Z.bits_inj'. intros n Hn. rewrite !Z.land_spec.
  destruct (Z.testbit B n) eqn:Hbit; [|by rewrite !andb_false_r].
  assert (Z.testbit A n = false) as HA.
  { pose proof (Z.land_spec A B n) as Hl.
    rewrite Hdisj, Z.bits_0, Hbit, andb_true_r in Hl. done. }
  rewrite packed_value_testbit by (by eapply mask_bit_low).
  rewrite HA. cbn. by rewrite andb_false_r, !andb_true_r, orb_false_r.
Qed.

(** X13: an in-place [pack] under one mask does not change what [unpack]
    reads under a disjoint mask: the column unpacked after the call is the
    column unpacked before it. *)
Theorem unpack_unaffected_by_disjoint_pack (h : heap)
    (array sub_field_array : loc) (a s : ndarray) (A B : Z) (dtype : dtype) :
  h !! array = Some a →
  h !! sub_field_array = Some s →
  array ≠ sub_field_array →
  length (data s) = length (data a) →
  data s ≠ [] →
  in_range_of_mask A s →
  0 < A → 0 < B <= hi (dtype_of a) →
  Z.land A B = 0 →
  is_Some (result_type (dtype_of a) (Z.lnot A)) →
  ∃ container column,
    unpack array B dtype h = (Ok (length h), h ++ [column])
    ∧ (pack array sub_field_array A true;; unpack array B dtype) h
      = (Ok (length h), <[array := container]> h ++ [column]).
Proof.
  intros Ha Hs Hne Hlen Hnil Hin HA HB Hdisj [r Hr].
  destruct (in_range_of_mask_maximum A s Hnil Hin) as (m & Hm & Hle).
  assert (array < length h)%nat as Hlt by (by eapply lookup_lt_Some).
  assert (is_Some (result_type (dtype_of a) B)) as HrB.
  { exists (dtype_of a). apply result_type_self, in_range_nonneg. lia. }
  eexists _, _. split; [apply unpack_Ok; [done|lia|done]|].
  erewrite bind_Ok.
  2:{ apply (pack_inplace_Ok h array sub_field_array a s A m r); done. }
  erewrite unpack_Ok; [|by apply list_lookup_insert_eq|lia|done].
  rewrite length_insert. cbn [data]. do 4 f_equal.
  apply fmap_zip_with_l; [done|]. intros x v.
  by apply unpacked_value_other_mask.
Qed.

Lemma unpack_unaffected_by_disjoint_pack_witness :
  ∃ container column,
    unpack 0%nat 0x0F uint8 container_and_two_sub_fields
    = (Ok (length container_and_two_sub_fields),
       container_and_two_sub_fields ++ [column])
    ∧ (pack 0%nat 2%nat 0xF0 true;; unpack 0%nat 0x0F uint8)
        container_and_two_sub_fields
      = (Ok (length container_and_two_sub_fields),
         <[0%nat := container]> container_and_two_sub_fields ++ [column]).
Proof.
  assert (container_and_two_sub_fields !! 0%nat
          = Some (NDArray uint8 [0xB5; 0x00; 0xFF])) as H1 by reflexivity.
  assert (container_and_two_sub_fields !! 2%nat
          = Some (NDArray uint8 [12; 1; 15])) as H2 by reflexivity.
  assert (in_range_of_mask 0xF0 (NDArray uint8 [12; 1; 15])) as H3
    by solve_in_range_of_mask.
  assert (0 < 0x0F <= hi uint8) as H4 by (split; [reflexivity|discriminate]).
  assert (is_Some (result_type uint8 (Z.lnot 0xF0))) as H5
    by (eexists; reflexivity).
  exact (unpack_unaffected_by_disjoint_pack container_and_two_sub_fields
           0%nat 2%nat _ _ 0xF0 0x0F uint8 H1 H2 ltac:(discriminate) eq_refl
           ltac:(discriminate) H3 ltac:(reflexivity) H4 eq_refl H5).
Defined.

(** ** Columns of different lengths *)





(** The destination after the failed call: the low four bits of every
    element are gone. *)
Example pack_inplace_length_mismatch_0x0F :
  pack 0%nat 1%nat 0x0F true mismatched_columns
  = (Raise (ValueError CouldNotBroadcast),
     [NDArray uint8 [0xB0; 0xF0; 0x30]; NDArray uint8 [3; 4]])
  ∧ pack 0%nat 1%nat 0x0F false mismatched_columns
    = (Raise (ValueError CouldNotBroadcast), mismatched_columns).
Proof. split; reflexivity. Qed.




Example pack_single_value_6 :
  pack 0%nat 1%nat 0x0F true container_and_single
  = (Ok None, [NDArray uint8 [0xB6; 0xF6; 0x36]; NDArray uint8 [6]]).
Proof. reflexivity. Qed.

(** ** Sub-field columns narrower than the position of the mask *)




Example pack_uint8_under_0xFF00 :
  pack 0%nat 1%nat 0xFF00 true wide_container
  = (Ok None, [NDArray uint16 [0x00B5; 0x00FF]; NDArray uint8 [3; 200]]).
Proof. reflexivity. Qed.

(** ** Element types and lengths of the arrays in the store *)

Lemma same_layout_refl (h : heap) : same_layout h h.
Proof. intros l c Hl. by exists c. Qed.

Lemma same_layout_trans (h1 h2 h3 : heap) :
  same_layout h1 h2 → same_layout h2 h3 → same_layout h1 h3.
Proof.
  intros H12 H23 l c Hl.
  destruct (H12 l c Hl) as (c2 & Hl2 & Hd2 & Hn2).
  destruct (H23 l c2 Hl2) as (c3 & Hl3 & Hd3 & Hn3).
  exists c3. split; [done|]. split; congruence.
Qed.

Lemma keeps_layout_ret {A} (a : A) : keeps_layout (mret a).
Proof. intros h. apply same_layout_refl. Qed.

Lemma keeps_layout_raise {A} (e : exn) : keeps_layout (raise e : M A).
Proof. intros h. apply same_layout_refl. Qed.

Lemma keeps_layout_bind {A B} (m : M A) (k : A → M B) :
  keeps_layout m → (∀ a, keeps_layout (k a)) → keeps_layout (m ≫= k).
Proof.
  intros Hm Hk h. unfold mbind, M_bind. specialize (Hm h).
  destruct (m h) as [[a|e] h1]; cbn in *; [|done].
  eapply same_layout_trans; [done|apply Hk].
Qed.

Lemma keeps_layout_try_except {A} (m : M A) (handler : message → M A) :
  keeps_layout m → (∀ e, keeps_layout (handler e)) →
  keeps_layout (try_except_OverflowError m handler).
Proof.
  intros Hm Hh h. unfold try_except_OverflowError. specialize (Hm h).
  destruct (m h) as [[a|[msg| | | |]] h1]; cbn in *; try done.
  eapply same_layout_trans; [done|apply Hh].
Qed.

Lemma keeps_layout_for_each {A} (l : list A) (body : A → M unit) :
  (∀ x, keeps_layout (body x)) → keeps_layout (for_each l body).
Proof.
  intros Hbody. induction l as [|x l IH]; cbn; [apply keeps_layout_ret|].
  apply keeps_layout_bind; [apply Hbody|]. intros _. apply IH.
Qed.

Lemma keeps_layout_load (l : loc) : keeps_layout (load l).
Proof. intros h. unfold load. case_match; apply same_layout_refl. Qed.

Lemma keeps_layout_alloc (a : ndarray) : keeps_layout (alloc a).
Proof.
  intros h l c Hl. exists c. split; [|done]. cbn. by apply lookup_app_l_Some.
Qed.

Lemma keeps_layout_assign (dest : loc) (src : ndarray) :
  keeps_layout (assign dest src).
Proof.
  intros h. unfold assign.
  destruct (h !! dest) as [d|] eqn:Hd; [|apply same_layout_refl].
  destruct (broadcast_to _ _) as [xs|] eqn:Hxs; [|apply same_layout_refl].
  cbn. intros l c Hl. destruct (decide (l = dest)) as [->|Hne].
  - eexists. split; [apply list_lookup_insert_eq; by eapply lookup_lt_Some|].
    assert (c = d) as -> by congruence. cbn. split; [done|].
    rewrite length_fmap. by eapply broadcast_to_length.
  - exists c. by rewrite list_lookup_insert_ne.
Qed.

Lemma keeps_layout_bitwise_and_scalar (a : ndarray) (z : Z) :
  keeps_layout (bitwise_and_scalar a z).
Proof.
  intros h. unfold bitwise_and_scalar, no_integer_loop.
  destruct (result_type _ _); [|case_decide]; apply same_layout_refl.
Qed.

Lemma keeps_layout_left_shift_scalar (a : ndarray) (z : Z) :
  keeps_layout (left_shift_scalar a z).
Proof.
  intros h. unfold left_shift_scalar, no_integer_loop.
  destruct (result_type _ _); [|case_decide]; apply same_layout_refl.
Qed.

Lemma keeps_layout_right_shift_scalar (a : ndarray) (z : Z) :
  keeps_layout (right_shift_scalar a z).
Proof.
  intros h. unfold right_shift_scalar, no_integer_loop.
  destruct (result_type _ _); [|case_decide]; apply same_layout_refl.
Qed.

Lemma keeps_layout_bitwise_or (a b : ndarray) : keeps_layout (bitwise_or a b).
Proof.
  intros h. unfold bitwise_or.
  destruct (promote_types _ _); [|apply same_layout_refl].
  destruct (broadcast _ _); apply same_layout_refl.
Qed.

Lemma keeps_layout_amax (a : ndarray) : keeps_layout (amax a).
Proof. intros h. unfold amax. destruct (maximum _); apply same_layout_refl. Qed.

Lemma keeps_layout_py_rshift (a b : Z) : keeps_layout (py_rshift a b).
Proof. intros h. unfold py_rshift. case_decide; apply same_layout_refl. Qed.

Lemma keeps_layout_getitem (a : recarray) (name : string) :
  keeps_layout (getitem a name).
Proof.
  intros h. unfold getitem. destruct (assoc _ _); apply same_layout_refl.
Qed.

Create HintDb layout.
#[export] Hint Resolve keeps_layout_ret keeps_layout_raise keeps_layout_load
  keeps_layout_alloc keeps_layout_assign keeps_layout_bitwise_and_scalar
  keeps_layout_left_shift_scalar keeps_layout_right_shift_scalar
  keeps_layout_bitwise_or keeps_layout_amax keeps_layout_py_rshift
  keeps_layout_getitem : layout.

Ltac layout_steps :=
  repeat (apply keeps_layout_bind; [auto with layout|intros ?]);
  auto with layout.

Lemma keeps_layout_setitem (a : recarray) (name : string) (value : loc) :
  keeps_layout (setitem a name value).
Proof. unfold setitem. layout_steps. Qed.

Lemma keeps_layout_unpack (source_array : loc) (mask : Z) (dtype : dtype) :
  keeps_layout (unpack source_array mask dtype).
Proof. unfold unpack. layout_steps. Qed.

Lemma keeps_layout_pack (array sub_field_array : loc) (mask : Z)
    (inplace : bool) :
  keeps_layout (pack array sub_field_array mask inplace).
Proof.
  unfold pack.
  do 3 (apply keeps_layout_bind; [auto with layout|intros ?]).
  case_decide; [auto with layout|].
  destruct inplace; layout_steps.
Qed.

Lemma keeps_layout_repack_composed_dim (dim_name : string)
    (sub_fields : list SubField.t) (repacked_array structured_array : recarray) :
  keeps_layout (_repack_composed_dim dim_name sub_fields repacked_array
                  structured_array).
Proof.
  unfold _repack_composed_dim. apply keeps_layout_for_each. intros sub_field.
  apply keeps_layout_try_except; [|auto with layout].
  do 2 (apply keeps_layout_bind; [auto with layout|intros ?]).
  apply keeps_layout_bind; [apply keeps_layout_pack|auto with layout].
Qed.

Lemma new_batch_lookup (n n0 : nat) (layout : list (string * dtype)) (i : nat)
    (g : string) (e : dtype) :
  layout !! i = Some (g, e) →
  fields (new_batch n layout n0) !! i = Some (g, (n0 + i)%nat).
Proof.
  intros Hi. unfold new_batch. cbn [fields].
  apply lookup_zip_with_Some. exists g, (n0 + i)%nat. split; [done|]. split.
  - by rewrite list_lookup_fmap, Hi.
  - apply lookup_seq. split; [done|]. by eapply lookup_lt_Some.
Qed.

Lemma new_batch_layout (h h' : heap) (n : nat) (layout : list (string * dtype)) :
  same_layout (h ++ (zeros n <$> layout.*2)) h' →
  ∀ i g e, layout !! i = Some (g, e) →
    ∃ l c, fields (new_batch n layout (length h)) !! i = Some (g, l)
           ∧ h !! l = None ∧ h' !! l = Some c
           ∧ dtype_of c = e ∧ length (data c) = n.
Proof.
  intros Hsame i g e Hi.
  destruct (Hsame (length h + i)%nat (zeros n e)) as (c & Hc & Hd & Hn).
  { by eapply zeros_lookup. }
  exists (length h + i)%nat, c. split; [by eapply new_batch_lookup|].
  split; [apply lookup_ge_None; lia|]. split; [done|]. split; [done|].
  rewrite Hn. cbn. apply length_replicate.
Qed.

(** X17: the batch either record function returns is laid out as the point
    format says, whatever the fields of the input are: it has the field
    names of [point_format.dtype] in their order and as many records as the
    input, and each field is a column created by the call, of the declared
    element type and of that length. *)
Theorem record_functions_output_layout (h h' : heap) (batch r : recarray)
    (point_format : PointFormat.t) :
  unpack_sub_fields batch point_format h = (Ok r, h')
  ∨ repack_sub_fields batch point_format h = (Ok r, h') →
  shape r = shape batch
  ∧ names r = (PointFormat.dtype point_format).*1
  ∧ ∀ i g e, PointFormat.dtype point_format !! i = Some (g, e) →
      ∃ l c, fields r !! i = Some (g, l)
             ∧ h !! l = None ∧ h' !! l = Some c
             ∧ dtype_of c = e ∧ length (data c) = shape batch.
Proof.
  intros Hrun.
  assert (r = new_batch (shape batch) (PointFormat.dtype point_format) (length h)
          ∧ same_layout (h ++ (zeros (shape batch)
                                 <$> (PointFormat.dtype point_format).*2)) h')
    as [-> Hsame].
  { destruct Hrun as [Hrun|Hrun].
    - unfold unpack_sub_fields in Hrun.
      erewrite bind_Ok in Hrun by apply zeros_like_new_batch.
      apply bind_inv_Ok in Hrun as ([] & h2 & Hloop & [-> ->]%ret_inv).
      split; [done|].
      match type of Hloop with ?m ?h1 = _ =>
        assert (keeps_layout m) as Hk end.
      { apply keeps_layout_for_each. intros dim_name.
        destruct (_ !! dim_name).
        - apply keeps_layout_for_each. intros sub_field.
          do 2 (apply keeps_layout_bind;
                  [auto using keeps_layout_unpack with layout|intros ?]).
          apply keeps_layout_setitem.
        - apply keeps_layout_bind; [auto with layout|intros ?].
          apply keeps_layout_setitem. }
      specialize (Hk (h ++ (zeros (shape batch)
                              <$> (PointFormat.dtype point_format).*2))).
      by rewrite Hloop in Hk.
    - unfold repack_sub_fields in Hrun.
      erewrite bind_Ok in Hrun by apply zeros_like_new_batch.
      apply bind_inv_Ok in Hrun as ([] & h2 & Hloop & [-> ->]%ret_inv).
      split; [done|].
      match type of Hloop with ?m ?h1 = _ =>
        assert (keeps_layout m) as Hk end.
      { apply keeps_layout_for_each. intros dim_name.
        destruct (_ !! dim_name).
        - apply keeps_layout_repack_composed_dim.
        - apply keeps_layout_bind; [auto with layout|intros ?].
          apply keeps_layout_setitem. }
      specialize (Hk (h ++ (zeros (shape batch)
                              <$> (PointFormat.dtype point_format).*2))).
      by rewrite Hloop in Hk. }
  split; [done|]. split; [apply names_new_batch|].
  by apply new_batch_layout.
Qed.

Lemma record_functions_output_layout_witness :
  (shape (RecArray 2
            [("X", 2%nat);
             ("return_number", 3%nat); ("number_of_returns", 4%nat);
             ("scan_direction_flag", 5%nat); ("edge_of_flight_line", 6%nat);
             ("classification", 7%nat); ("synthetic", 8%nat);
             ("key_point", 9%nat); ("withheld", 10%nat)])
   = shape short_batch)
  ∧ names (RecArray 2
             [("X", 2%nat);
              ("return_number", 3%nat); ("number_of_returns", 4%nat);
              ("scan_direction_flag", 5%nat); ("edge_of_flight_line", 6%nat);
              ("classification", 7%nat); ("synthetic", 8%nat);
              ("key_point", 9%nat); ("withheld", 10%nat)])
    = (PointFormat.dtype las_unpacked).*1
  ∧ ∀ i g e, PointFormat.dtype las_unpacked !! i = Some (g, e) →
      ∃ l c,
        fields (RecArray 2
                  [("X", 2%nat);
                   ("return_number", 3%nat); ("number_of_returns", 4%nat);
                   ("scan_direction_flag", 5%nat); ("edge_of_flight_line", 6%nat);
                   ("classification", 7%nat); ("synthetic", 8%nat);
                   ("key_point", 9%nat); ("withheld", 10%nat)]) !! i
        = Some (g, l)
        ∧ short_store !! l = None
        ∧ (unpack_sub_fields short_batch las_unpacked short_store).2 !! l = Some c
        ∧ dtype_of c = e ∧ length (data c) = shape short_batch.
Proof.
  refine (record_functions_output_layout short_store _ short_batch _
            las_unpacked (or_introl _)).
  vm_compute. reflexivity.
Defined.

(** ** Fields the record functions do not find *)

Lemma for_each_inv_Ok {A} (Inv : heap → Prop) (l : list A) (body : A → M unit)
    (h h' : heap) :
  Inv h →
  (∀ x h1 h2, Inv h1 → body x h1 = (Ok tt, h2) → Inv h2) →
  for_each l body h = (Ok tt, h') →
  Inv h' ∧ ∀ x, x ∈ l → ∃ h1 h2, Inv h1 ∧ body x h1 = (Ok tt, h2).
Proof.
  intros Hinv Hstep. revert h Hinv.
  induction l as [|x l IH]; intros h Hinv Hrun; cbn in Hrun.
  - apply ret_inv in Hrun as [_ ->]. split; [done|].
    intros x Hx. by apply not_elem_of_nil in Hx.
  - apply bind_inv_Ok in Hrun as ([] & h1 & Hx & Hrest).
    destruct (IH h1) as [Hinv' Hall]; [by eapply Hstep|done|].
    split; [done|]. intros y [->|Hy]%elem_of_cons; [by exists h, h1|by apply Hall].
Qed.

Lemma assoc_None {A} (name : string) (l : list (string * A)) :
  name ∉ l.*1 → assoc name l = None.
Proof.
  induction l as [|[n x] l IH]; cbn; [done|].
  intros Hn. apply not_elem_of_cons in Hn as [Hne Hn].
  rewrite decide_False by done. by apply IH.
Qed.

Lemma assoc_is_Some {A} (name : string) (l : list (string * A)) :
  name ∈ l.*1 → is_Some (assoc name l).
Proof.
  induction l as [|[n x] l IH]; cbn; [by intros ?%not_elem_of_nil|].
  intros [->|Hn]%elem_of_cons.
  - by rewrite decide_True.
  - case_decide; [done|by apply IH].
Qed.

Lemma getitem_absent (a : recarray) (name : string) (h : heap) :
  name ∉ names a → getitem a name h = (Raise (ValueError (NoField name)), h).
Proof. intros Hn. unfold getitem. by rewrite assoc_None. Qed.

Lemma setitem_absent (a : recarray) (name : string) (value : loc)
    (h h' : heap) (u : unit) :
  name ∉ names a → setitem a name value h ≠ (Ok u, h').
Proof.
  intros Hn Hrun. unfold setitem in Hrun.
  apply bind_inv_Ok in Hrun as (v & h1 & _ & Hrun).
  by rewrite (bind_Raise _ _ _ _ _ (getitem_absent a name h1 Hn)) in Hrun.
Qed.

Lemma try_except_inv_Ok {A} (m : M A) (handler : message → M A)
    (h h' : heap) (a : A) :
  try_except_OverflowError m handler h = (Ok a, h') →
  m h = (Ok a, h')
  ∨ ∃ msg h1, m h = (Raise (OverflowError msg), h1) ∧ handler msg h1 = (Ok a, h').
Proof.
  unfold try_except_OverflowError.
  destruct (m h) as [[a'|[msg| | | |]] h1]; intros Hrun; try done; eauto.
Qed.

(** X18: [unpack_sub_fields] does not return when the input has a field it
    cannot place in the output: a plain field that the dtype of the point
    format lacks, or a composed field one of whose sub-fields that dtype
    lacks.  The assignment to [point_record] raises. *)
Theorem unpack_sub_fields_unplaced_field_raises (h : heap) (data : recarray)
    (point_format : PointFormat.t) (f : string) :
  f ∈ names data →
  match PointFormat.composed_fields point_format !! f with
  | Some sub_fields =>
      ∃ sf, sf ∈ sub_fields
            ∧ SubField.name sf ∉ (PointFormat.dtype point_format).*1
  | None => f ∉ (PointFormat.dtype point_format).*1
  end →
  ∃ e h', unpack_sub_fields data point_format h = (Raise e, h').
Proof.
  intros Hf Hmissing.
  destruct (unpack_sub_fields data point_format h) as [[r|e] h'] eqn:Hrun;
    [exfalso|by exists e, h'].
  unfold unpack_sub_fields in Hrun.
  erewrite bind_Ok in Hrun by apply zeros_like_new_batch.
  apply bind_inv_Ok in Hrun as ([] & h2 & Hloop & _).
  apply (for_each_inv_Ok (λ _, True)) in Hloop as [_ Hloop]; [|done..].
  destruct (Hloop f Hf) as (h3 & h4 & _ & Hbody).
  destruct (PointFormat.composed_fields point_format !! f) as [sub_fields|].
  - destruct Hmissing as (sf & Hsf & Hname).
    apply (for_each_inv_Ok (λ _, True)) in Hbody as [_ Hbody]; [|done..].
    destruct (Hbody sf Hsf) as (h5 & h6 & _ & Hsub).
    apply bind_inv_Ok in Hsub as (source & h7 & _ & Hsub).
    apply bind_inv_Ok in Hsub as (v & h8 & _ & Hsub).
    eapply setitem_absent; [|exact Hsub]. by rewrite names_new_batch.
  - apply bind_inv_Ok in Hbody as (v & h5 & _ & Hset).
    eapply setitem_absent; [|exact Hset]. by rewrite names_new_batch.
Qed.

(** X19: [repack_sub_fields] loops over the fields of the output, and does
    not return when the input lacks what one of them needs: the plain field
    of the same name, or a sub-field of a composed field.  Reading the input
    raises. *)
Theorem repack_sub_fields_missing_field_raises (h : heap)
    (structured_array : recarray) (point_format : PointFormat.t) (f : string) :
  f ∈ (PointFormat.dtype point_format).*1 →
  match PointFormat.composed_fields point_format !! f with
  | Some sub_fields =>
      ∃ sf, sf ∈ sub_fields ∧ SubField.name sf ∉ names structured_array
  | None => f ∉ names structured_array
  end →
  ∃ e h', repack_sub_fields structured_array point_format h = (Raise e, h').
Proof.
  intros Hf Hmissing.
  destruct (repack_sub_fields structured_array point_format h)
    as [[r|e] h'] eqn:Hrun; [exfalso|by exists e, h'].
  unfold repack_sub_fields in Hrun.
  erewrite bind_Ok in Hrun by apply zeros_like_new_batch.
  apply bind_inv_Ok in Hrun as ([] & h2 & Hloop & _).
  rewrite names_new_batch in Hloop.
  apply (for_each_inv_Ok (λ _, True)) in Hloop as [_ Hloop]; [|done..].
  destruct (Hloop f Hf) as (h3 & h4 & _ & Hbody).
  destruct (PointFormat.composed_fields point_format !! f) as [sub_fields|].
  - destruct Hmissing as (sf & Hsf & Hname).
    apply (for_each_inv_Ok (λ _, True)) in Hbody as [_ Hbody]; [|done..].
    destruct (Hbody sf Hsf) as (h5 & h6 & _ & Hsub).
    apply try_except_inv_Ok in Hsub as [Hsub|(msg & h7 & _ & Hsub)]; [|done].
    apply bind_inv_Ok in Hsub as (la & h7 & _ & Hsub).
    apply bind_inv_Ok in Hsub as (ls & h8 & Hget & _).
    by rewrite getitem_absent in Hget.
  - apply bind_inv_Ok in Hbody as (v & h5 & Hget & _).
    by rewrite getitem_absent in Hget.
Qed.

Ltac solve_not_elem_of :=
  let Hin := fresh "Hin" in
  intros Hin;
  repeat (apply elem_of_cons in Hin as [Hin|Hin]; [discriminate Hin|]);
  by apply not_elem_of_nil in Hin.

Lemma unpack_sub_fields_unplaced_field_raises_witness :
  ∃ e h', unpack_sub_fields packed_batch las_packed packed_store = (Raise e, h').
Proof.
  assert ("bit_fields" ∈ names packed_batch) as H1 by (cbn; solve_elem_of).
  pose proof (unpack_sub_fields_unplaced_field_raises packed_store packed_batch
                las_packed "bit_fields" H1) as H.
  assert (PointFormat.composed_fields las_packed !! "bit_fields"
          = Some [SubField.mk "return_number" 0x07;
                  SubField.mk "number_of_returns" 0x38;
                  SubField.mk "scan_direction_flag" 0x40;
                  SubField.mk "edge_of_flight_line" 0x80]) as Hc
    by (vm_compute; reflexivity).
  rewrite Hc in H. apply H.
  exists (SubField.mk "return_number" 0x07). split; [left|].
  cbn. solve_not_elem_of.
Defined.

Lemma repack_sub_fields_missing_field_raises_witness :
  ∃ e h', repack_sub_fields short_batch las_packed short_store = (Raise e, h').
Proof.
  assert ("raw_classification" ∈ (PointFormat.dtype las_packed).*1) as H1
    by (cbn; solve_elem_of).
  pose proof (repack_sub_fields_missing_field_raises short_store short_batch
                las_packed "raw_classification" H1) as H.
  assert (PointFormat.composed_fields las_packed !! "raw_classification"
          = Some [SubField.mk "classification" 0x1F;
                  SubField.mk "synthetic" 0x20;
                  SubField.mk "key_point" 0x40;
                  SubField.mk "withheld" 0x80]) as Hc
    by (vm_compute; reflexivity).
  rewrite Hc in H. apply H.
  exists (SubField.mk "classification" 0x1F). split; [left|].
  cbn. solve_not_elem_of.
Defined.

(** ** Batches of no record *)

Lemma getitem_inv (a : recarray) (name : string) (l : loc) (h h' : heap) :
  getitem a name h = (Ok l, h') → assoc name (fields a) = Some l ∧ h' = h.
Proof.
  unfold getitem. destruct (assoc _ _); [|done]. by intros [= -> ->].
Qed.

Lemma frame_repack_sub_field (n : nat) (dim_name : string) (sub_field : SubField.t)
    (repacked_array structured_array : recarray) :
  columns_from n repacked_array →
  frame n (try_except_OverflowError
             (array ← getitem repacked_array dim_name;
              sub_field_array ← getitem structured_array (SubField.name sub_field);
              pack array sub_field_array (SubField.mask sub_field) true;;
              mret tt)
             (λ e, raise (OverflowError
                            (ErrorRepacking (SubField.name sub_field) dim_name e)))).
Proof.
  intros Hcols.
  apply frame_try_except; [|auto with frame].
  apply (frame_bind_strong n _ _ (λ l, (n <= l)%nat)); [auto with frame| |].
  - intros h l h'. by apply getitem_columns_from.
  - intros array Harray.
    apply frame_bind; [auto with frame|intros sub_field_array].
    apply frame_bind; [by apply frame_pack|auto with frame].
Qed.

Lemma pack_empty_or_zero_mask (h : heap) (array sub_field_array : loc)
    (s : ndarray) (mask : Z) (inplace : bool) :
  h !! sub_field_array = Some s →
  data s = [] →
  ∃ e, pack array sub_field_array mask inplace h = (Raise e, h).
Proof.
  intros Hs Hnil. destruct (decide (mask = 0)) as [->|Hmask].
  - by eexists.
  - eexists. by eapply pack_empty.
Qed.

(** X20: [repack_sub_fields] does not return on a batch of no record when
    the point format has a composed field with a sub-field: [pack] takes
    the maximum of the empty sub-field column, which raises.
    ([unpack_sub_fields] has no such step.) *)
Theorem repack_sub_fields_empty_batch_raises (h : heap)
    (structured_array : recarray) (point_format : PointFormat.t)
    (c : string) (sub_fields : list SubField.t) (sf : SubField.t)
    (s : ndarray) :
  c ∈ (PointFormat.dtype point_format).*1 →
  PointFormat.composed_fields point_format !! c = Some sub_fields →
  sf ∈ sub_fields →
  column h structured_array (SubField.name sf) = Some s →
  data s = [] →
  ∃ e h', repack_sub_fields structured_array point_format h = (Raise e, h').
Proof.
  intros Hc Hsubs Hsf Hcol Hnil.
  apply column_Some in Hcol as (ls & Hls & Hs).
  destruct (repack_sub_fields structured_array point_format h)
    as [[r|e] h'] eqn:Hrun; [exfalso|by exists e, h'].
  unfold repack_sub_fields in Hrun.
  erewrite bind_Ok in Hrun by apply zeros_like_new_batch.
  apply bind_inv_Ok in Hrun as ([] & h2 & Hloop & _).
  rewrite names_new_batch in Hloop.
  set (dt := PointFormat.dtype point_format) in *.
  set (h0 := h ++ (zeros (shape structured_array) <$> dt.*2)) in *.
  set (out := new_batch (shape structured_array) dt (length h)) in *.
  assert (columns_from (length h) out) as Hout by apply columns_from_zeros_like.
  assert (∀ h1, unchanged_below (length h) h0 h1 → h1 !! ls = Some s) as Hkeep.
  { intros h1 Hh1. by eapply unchanged_below_lookup. }
  assert (∀ (m : M unit) h1 h3 u,
            frame (length h) m → unchanged_below (length h) h0 h1 →
            m h1 = (Ok u, h3) → unchanged_below (length h) h0 h3) as Hstep.
  { intros m h1 h3 u Hm Hh1 Hrun.
    eapply unchanged_below_trans; [done|].
    specialize (Hm h1). rewrite Hrun in Hm. apply Hm.
    destruct Hh1 as [Hlen _]. unfold h0 in Hlen. rewrite length_app in Hlen. lia. }
  apply (for_each_inv_Ok (unchanged_below (length h) h0)) in Hloop
    as [_ Hloop]; [|apply unchanged_below_refl|].
  2:{ intros x h1 h3 Hh1 Hx. eapply Hstep; [|done|exact Hx].
      destruct (_ !! x).
      - by apply frame_repack_composed_dim.
      - apply frame_bind; [auto with frame|intros v]. by apply frame_setitem. }
  destruct (Hloop c Hc) as (h3 & h4 & Hh3 & Hbody).
  rewrite Hsubs in Hbody.
  apply (for_each_inv_Ok (unchanged_below (length h) h0)) in Hbody
    as [_ Hbody]; [|done|].
  2:{ intros x h1 h5 Hh1 Hx. eapply Hstep; [|done|exact Hx].
      by apply frame_repack_sub_field. }
  destruct (Hbody sf Hsf) as (h5 & h6 & Hh5 & Hsub).
  apply try_except_inv_Ok in Hsub as [Hsub|(msg & h7 & _ & Hsub)]; [|done].
  apply bind_inv_Ok in Hsub as (la & h7 & [_ ->]%getitem_inv & Hsub).
  apply bind_inv_Ok in Hsub as (ls' & h8 & [Hls' ->]%getitem_inv & Hsub).
  assert (ls' = ls) as -> by congruence.
  apply bind_inv_Ok in Hsub as (res & h9 & Hpack & _).
  destruct (pack_empty_or_zero_mask h5 la ls s (SubField.mask sf) true)
    as [e He]; [by apply Hkeep|done|].
  by rewrite He in Hpack.
Qed.

Lemma repack_sub_fields_empty_batch_raises_witness :
  ∃ e h',
    repack_sub_fields empty_unpacked_batch las_packed empty_unpacked_store
    = (Raise e, h').
Proof.
  assert ("bit_fields" ∈ (PointFormat.dtype las_packed).*1) as H1
    by (cbn; solve_elem_of).
  assert (PointFormat.composed_fields las_packed !! "bit_fields"
          = Some [SubField.mk "return_number" 0x07;
                  SubField.mk "number_of_returns" 0x38;
                  SubField.mk "scan_direction_flag" 0x40;
                  SubField.mk "edge_of_flight_line" 0x80]) as H2
    by (vm_compute; reflexivity).
  assert (SubField.mk "return_number" 0x07
          ∈ [SubField.mk "return_number" 0x07;
             SubField.mk "number_of_returns" 0x38;
             SubField.mk "scan_direction_flag" 0x40;
             SubField.mk "edge_of_flight_line" 0x80]) as H3 by left.
  assert (column empty_unpacked_store empty_unpacked_batch "return_number"
          = Some (NDArray uint8 [])) as H4 by reflexivity.
  exact (repack_sub_fields_empty_batch_raises empty_unpacked_store
           empty_unpacked_batch las_packed "bit_fields" _ _ _ H1 H2 H3 H4 eq_refl).
Defined.

Example repack_sub_fields_empty_batch :
  ∃ h',
    repack_sub_fields empty_unpacked_batch las_packed empty_unpacked_store
    = (Raise (ValueError ZeroSizeReduction), h').
Proof. eexists. vm_compute. reflexivity. Qed.

(** ** The errors [_repack_composed_dim] raises *)

Lemma repack_composed_dim_app (dim_name : string) (pre post : list SubField.t)
    (repacked_array structured_array : recarray) (h h1 : heap) :
  _repack_composed_dim dim_name pre repacked_array structured_array h = (Ok tt, h1) →
  _repack_composed_dim dim_name (pre ++ post) repacked_array structured_array h
  = _repack_composed_dim dim_name post repacked_array structured_array h1.
Proof.
  intros Hpre. unfold _repack_composed_dim in *.
  rewrite for_each_app. by erewrite bind_Ok by exact Hpre.
Qed.



(** X22: only [OverflowError] is caught on lines 123-135.  When the input
    batch lacks a sub-field, the [ValueError] of the field access leaves
    [_repack_composed_dim] as it is, naming the sub-field alone, after the
    sub-fields before it have been packed. *)
Theorem repack_composed_dim_missing_sub_field (h h1 : heap) (dim_name : string)
    (pre post : list SubField.t) (sf : SubField.t)
    (repacked_array structured_array : recarray) :
  _repack_composed_dim dim_name pre repacked_array structured_array h = (Ok tt, h1) →
  dim_name ∈ names repacked_array →
  SubField.name sf ∉ names structured_array →
  _repack_composed_dim dim_name (pre ++ sf :: post) repacked_array
    structured_array h
  = (Raise (ValueError (NoField (SubField.name sf))), h1).
Proof.
  intros Hpre Hdim Hsf.
  destruct (assoc_is_Some dim_name (fields repacked_array) Hdim) as [la Hla].
  rewrite (repack_composed_dim_app _ _ _ _ _ _ _ Hpre).
  unfold _repack_composed_dim. cbn [for_each].
  apply bind_Raise. unfold try_except_OverflowError.
  erewrite bind_Ok by (by apply getitem_Ok).
  erewrite bind_Raise by (by apply getitem_absent). done.
Qed.

Lemma repack_composed_dim_missing_sub_field_witness :
  _repack_composed_dim "bit_fields"
    ([SubField.mk "return_number" 0x07]
       ++ SubField.mk "overlap" 0x08 :: [])
    repack_output unpacked_batch repack_started_store
  = (Raise (ValueError (NoField "overlap")),
     <[10%nat := NDArray uint8 [5; 2]]> repack_started_store).
Proof.
  assert (_repack_composed_dim "bit_fields" [SubField.mk "return_number" 0x07]
            repack_output unpacked_batch repack_started_store
          = (Ok tt, <[10%nat := NDArray uint8 [5; 2]]> repack_started_store))
    as H1 by (vm_compute; reflexivity).
  assert ("bit_fields" ∈ names repack_output) as H2 by (cbn; solve_elem_of).
  assert ("overlap" ∉ names unpacked_batch) as H3 by (cbn; solve_not_elem_of).
  exact (repack_composed_dim_missing_sub_field repack_started_store _
           "bit_fields" [SubField.mk "return_number" 0x07] []
           (SubField.mk "overlap" 0x08) repack_output unpacked_batch H1 H2 H3).
Defined.

(** ** The columns the record functions return *)

(** The fields of the output that no assignment of [unpack_sub_fields]
    targets are as [np.zeros_like] made them. *)
Lemma unpack_sub_fields_unwritten (h h1 : heap) (x out : recarray)
    (composed : gmap string (list SubField.t))
    (unpacked : list (string * dtype)) :
  NoDup unpacked.*1 →
  NoDup ((λ a : string * string * option Z, a.1.1)
           <$> unpack_actions composed (names x)) →
  (∀ a, a ∈ unpack_actions composed (names x) →
     ∃ e col,
       (a.1.1, e) ∈ unpacked
       ∧ column h x a.1.2 = Some col
       ∧ length (data col) = shape x
       ∧ match a.2 with
         | Some m => m ≠ 0 ∧ is_Some (result_type (dtype_of col) m)
         | None => True
         end) →
  unpack_sub_fields x (PointFormat.mk composed unpacked) h = (Ok out, h1) →
  ∀ g e, (g, e) ∈ unpacked →
    g ∉ (λ a : string * string * option Z, a.1.1)
          <$> unpack_actions composed (names x) →
    column h1 out g = Some (zeros (shape x) e).
Proof.
  intros Hnd Htargets Hacts Hrun g e Hge Hg.
  destruct (for_each_writes
              (λ a, field_loc (new_batch (shape x) unpacked (length h)) a.1.1)
              (λ a c, ∃ e col, (a.1.1, e) ∈ unpacked
                               ∧ column h x a.1.2 = Some col
                               ∧ c = unpacked_column e a.2 col)
              (pass_inv h (shape x) unpacked)
              (unpack_step (new_batch (shape x) unpacked (length h)) x)
              (unpack_actions composed (names x))
              (h ++ (zeros (shape x) <$> unpacked.*2))
              (unpack_targets_NoDup h x composed unpacked Hnd Htargets Hacts))
    as (h1' & Hloop & _ & _ & Hrest).
  { intros a Ha. destruct (Hacts a Ha) as (e' & _ & He' & _).
    destruct (field_loc_new_batch (shape x) (length h) unpacked _ _ Hnd He')
      as (i & Hi & _ & ->).
    eapply lookup_lt_Some, zeros_lookup, Hi. }
  { intros a h' Ha Hinv _. by apply (unpack_step_spec h x composed unpacked). }
  { apply pass_inv_zeros. }
  unfold unpack_sub_fields in Hrun.
  cbn [PointFormat.composed_fields PointFormat.dtype] in Hrun.
  erewrite bind_Ok in Hrun by apply zeros_like_new_batch.
  rewrite (bind_Ok _ _ _ h1' tt) in Hrun by (by rewrite unpack_loop_actions).
  injection Hrun as <- <-.
  destruct (field_loc_new_batch (shape x) (length h) unpacked g e Hnd Hge)
    as (i & Hi & Hassoc & Hl).
  apply column_Some. exists (length h + i)%nat. split; [done|].
  rewrite <- Hl, Hrest.
  - rewrite Hl. by eapply zeros_lookup.
  - rewrite Hl. eapply lookup_lt_Some, zeros_lookup, Hi.
  - intros (a & Heq & Ha)%list_elem_of_fmap. apply Hg.
    destruct (Hacts a Ha) as (e' & _ & He' & _).
    destruct (field_loc_new_batch (shape x) (length h) unpacked _ _ Hnd He')
      as (j & Hj & _ & Hl').
    rewrite Hl, Hl' in Heq. assert (i = j) as -> by lia.
    assert (g = a.1.1) as -> by congruence.
    by apply (list_elem_of_fmap_2 (λ a : string * string * option Z, a.1.1)).
Qed.

(** X23: what [unpack_sub_fields] returns.  When every field it writes is
    in the dtype of the point format and is written once, and every mask
    is nonzero and fits the element type of its composed column, the call
    returns a batch in which each sub-field column holds
    [(composed & mask) >> lsb] as an 8-bit unsigned value, converted to the
    declared type of the sub-field, each plain column holds the elements
    of the input column converted to its declared type, and every other
    field of the output is a column of zeros. *)
Theorem unpack_sub_fields_columns (h : heap) (x : recarray)
    (composed : gmap string (list SubField.t))
    (unpacked : list (string * dtype)) :
  NoDup unpacked.*1 →
  NoDup (unpacked_fields composed (names x)) →
  (∀ g, g ∈ unpacked_fields composed (names x) → g ∈ unpacked.*1) →
  (∀ f, f ∈ names x →
     ∃ col, column h x f = Some col ∧ length (data col) = shape x
            ∧ ∀ sub_fields sf,
                composed !! f = Some sub_fields → sf ∈ sub_fields →
                SubField.mask sf ≠ 0
                ∧ is_Some (result_type (dtype_of col) (SubField.mask sf))) →
  ∃ out h1,
    unpack_sub_fields x (PointFormat.mk composed unpacked) h = (Ok out, h1)
    ∧ (∀ g e, (g, e) ∈ unpacked → g ∉ unpacked_fields composed (names x) →
         column h1 out g = Some (zeros (shape x) e))
    ∧ ∀ f col, f ∈ names x → column h x f = Some col →
        match composed !! f with
        | Some sub_fields =>
            ∀ sf e, sf ∈ sub_fields → (SubField.name sf, e) ∈ unpacked →
              column h1 out (SubField.name sf)
              = Some (NDArray e
                        ((λ v, cast e (cast uint8
                                 (Z.shiftr (Z.land v (SubField.mask sf))
                                    (least_significant_bit (SubField.mask sf)))))
                           <$> data col))
        | None =>
            ∀ e, (f, e) ∈ unpacked →
              column h1 out f = Some (NDArray e (cast e <$> data col))
        end.
Proof.
  intros Hnd Htargets Hplaced Hcols.
  rewrite <- unpack_actions_targets in Htargets.
  assert (∀ a, a ∈ unpack_actions composed (names x) →
            ∃ e col,
              (a.1.1, e) ∈ unpacked
              ∧ column h x a.1.2 = Some col
              ∧ length (data col) = shape x
              ∧ match a.2 with
                | Some m => m ≠ 0 ∧ is_Some (result_type (dtype_of col) m)
                | None => True
                end) as Hacts.
  { intros a Ha.
    assert (a.1.1 ∈ unpacked.*1) as [e He]%elem_of_names.
    { apply Hplaced. rewrite <- unpack_actions_targets.
      by apply (list_elem_of_fmap_2 (λ a : string * string * option Z, a.1.1)). }
    apply elem_of_unpack_actions in Ha
      as (dim & Hdim & [(sub_fields & sf & Hc & Hsf & ->)|[Hc ->]]); cbn in *.
    + destruct (Hcols dim Hdim) as (col & Hcol & Hlen & Hmasks).
      exists e, col. do 3 (split; [done|]). by eapply Hmasks.
    + destruct (Hcols dim Hdim) as (col & Hcol & Hlen & _).
      by exists e, col. }
  destruct (unpack_sub_fields_Ok h x composed unpacked Hnd Htargets Hacts)
    as (h1 & Hrun & _ & Hout).
  eexists _, h1. split; [exact Hrun|]. split.
  { intros g e Hge Hg. rewrite <- unpack_actions_targets in Hg.
    by eapply unpack_sub_fields_unwritten. }
  - intros f col Hf Hcol.
    destruct (composed !! f) as [sub_fields|] eqn:Hc.
    + intros sf e Hsf He.
      destruct (Hout (SubField.name sf, f, Some (SubField.mask sf)))
        as (e' & col' & He' & Hcol' & Hres); cbn [fst snd] in *.
      { apply elem_of_unpack_actions. exists f. split; [done|]. left. eauto. }
      assert (e' = e) as -> by (by eapply layout_unique).
      assert (col' = col) as -> by congruence.
      rewrite Hres. unfold unpacked_column. by rewrite <- list_fmap_compose.
    + intros e He.
      destruct (Hout (f, f, None)) as (e' & col' & He' & Hcol' & Hres);
        cbn [fst snd] in *.
      { apply elem_of_unpack_actions. exists f. split; [done|]. by right. }
      assert (e' = e) as -> by (by eapply layout_unique).
      assert (col' = col) as -> by congruence.
      by rewrite Hres.
Qed.

Lemma short_batch_targets :
  NoDup (unpacked_fields las_composed_fields (names short_batch)).
Proof. apply (bool_decide_unpack _). by vm_compute. Qed.

Lemma short_batch_placed (g : string) :
  g ∈ unpacked_fields las_composed_fields (names short_batch) →
  g ∈ las_unpacked_dtype.*1.
Proof.
  replace (unpacked_fields las_composed_fields (names short_batch))
    with (take 5 las_unpacked_dtype.*1) by (by vm_compute).
  apply (subseteq_take 5 las_unpacked_dtype.*1).
Qed.

Lemma short_batch_columns (f : string) :
  f ∈ names short_batch →
  ∃ col, column short_store short_batch f = Some col
         ∧ length (data col) = shape short_batch
         ∧ ∀ sub_fields sf,
             las_composed_fields !! f = Some sub_fields → sf ∈ sub_fields →
             SubField.mask sf ≠ 0
             ∧ is_Some (result_type (dtype_of col) (SubField.mask sf)).
Proof.
  intros Hf. cbn in Hf. list_cases Hf; subst f; eexists;
    (split; [reflexivity|]); (split; [reflexivity|]);
    intros sub_fields sf Hc Hsf; vm_compute in Hc; try discriminate;
    injection Hc as <-; list_cases Hsf; subst sf;
    (split; [discriminate|eexists; reflexivity]).
Qed.

(** The batch without [raw_classification]: its four sub-fields are the
    fields of the output that stay zero. *)
Lemma unpack_sub_fields_columns_witness :
  ∃ out h1,
    unpack_sub_fields short_batch
      (PointFormat.mk las_composed_fields las_unpacked_dtype) short_store
    = (Ok out, h1)
    ∧ (∀ g e, (g, e) ∈ las_unpacked_dtype →
         g ∉ unpacked_fields las_composed_fields (names short_batch) →
         column h1 out g = Some (zeros (shape short_batch) e))
    ∧ ∀ f col, f ∈ names short_batch → column short_store short_batch f = Some col →
        match las_composed_fields !! f with
        | Some sub_fields =>
            ∀ sf e, sf ∈ sub_fields → (SubField.name sf, e) ∈ las_unpacked_dtype →
              column h1 out (SubField.name sf)
              = Some (NDArray e
                        ((λ v, cast e (cast uint8
                                 (Z.shiftr (Z.land v (SubField.mask sf))
                                    (least_significant_bit (SubField.mask sf)))))
                           <$> data col))
        | None =>
            ∀ e, (f, e) ∈ las_unpacked_dtype →
              column h1 out f = Some (NDArray e (cast e <$> data col))
        end.
Proof.
  destruct las_format_ok as [_ Hnd _ _ _ _].
  exact (unpack_sub_fields_columns short_store short_batch las_composed_fields
           las_unpacked_dtype Hnd short_batch_targets short_batch_placed
           short_batch_columns).
Defined.






Example repack_unpacked_batch :
  ∃ h2,
    repack_sub_fields unpacked_batch las_packed unpacked_store
    = (Ok (RecArray 2 [("X", 9%nat); ("bit_fields", 10%nat);
                       ("raw_classification", 11%nat)]), h2)
    ∧ drop 9 h2 = [NDArray int32 [-120; 4500]; NDArray uint8 [0xB5; 0x4A];
                   NDArray uint8 [0x22; 0xFF]].
Proof. eexists. split; [vm_compute; reflexivity|]. vm_compute. reflexivity. Qed.

(** ** The fields [repack_sub_fields] reads *)

(** X25: [repack_sub_fields] reads the input through the names of the
    output alone: the plain fields of [point_format.dtype] and the
    sub-fields of its composed fields.  Two input batches of the same shape
    that agree on those names give the same result; any other field of the
    input is ignored. *)
Theorem repack_sub_fields_reads_needed_fields (h : heap) (y y' : recarray)
    (point_format : PointFormat.t) :
  shape y' = shape y →
  (∀ f, f ∈ (PointFormat.dtype point_format).*1 →
     match PointFormat.composed_fields point_format !! f with
     | Some sub_fields =>
         ∀ sf, sf ∈ sub_fields →
           assoc (SubField.name sf) (fields y')
           = assoc (SubField.name sf) (fields y)
     | None => assoc f (fields y') = assoc f (fields y)
     end) →
  repack_sub_fields y' point_format h = repack_sub_fields y point_format h.
Proof.
  intros Hshape Hagree. unfold repack_sub_fields.
  erewrite (bind_Ok (zeros_like y' _)) by apply zeros_like_new_batch.
  erewrite (bind_Ok (zeros_like y _)) by apply zeros_like_new_batch.
  rewrite Hshape. apply bind_ext_l. rewrite names_new_batch.
  apply for_each_ext. intros f h2 Hf. specialize (Hagree f Hf).
  destruct (PointFormat.composed_fields point_format !! f) as [sub_fields|].
  - unfold _repack_composed_dim. apply for_each_ext. intros sf h3 Hsf.
    unfold try_except_OverflowError, getitem. by rewrite (Hagree sf Hsf).
  - unfold getitem. by rewrite Hagree.
Qed.

Lemma repack_sub_fields_reads_needed_fields_witness :
  repack_sub_fields unpacked_batch_with_user_data las_packed unpacked_store
  = repack_sub_fields unpacked_batch las_packed unpacked_store.
Proof.
  apply repack_sub_fields_reads_needed_fields; [reflexivity|].
  intros f Hf. cbn in Hf. list_cases Hf; subst f.
  - assert (PointFormat.composed_fields las_packed !! "X" = None) as ->
      by (vm_compute; reflexivity).
    reflexivity.
  - assert (PointFormat.composed_fields las_packed !! "bit_fields"
            = Some [SubField.mk "return_number" 0x07;
                    SubField.mk "number_of_returns" 0x38;
                    SubField.mk "scan_direction_flag" 0x40;
                    SubField.mk "edge_of_flight_line" 0x80]) as ->
      by (vm_compute; reflexivity).
    intros sf Hsf. list_cases Hsf; subst sf; reflexivity.
  - assert (PointFormat.composed_fields las_packed !! "raw_classification"
            = Some [SubField.mk "classification" 0x1F;
                    SubField.mk "synthetic" 0x20;
                    SubField.mk "key_point" 0x40;
                    SubField.mk "withheld" 0x80]) as ->
      by (vm_compute; reflexivity).
    intros sf Hsf. list_cases Hsf; subst sf; reflexivity.
Defined.
